(** * A limit order book: shallow embedding of OrderBook.cpp and
      OrderBookOptimized.cpp

    The repository holds two variants of one class [OrderBook].

    - [OrderBook.cpp] (module [Basic] below) keeps each price level as a
      [std::list<Order>], rests limit orders and serves market orders;
      its [matchOrders] and [cancel] have empty bodies.
    - [OrderBookOptimized.cpp] (module [Optimized]) draws orders from an
      [OrderPool]; its [add_limit] pushes onto a copy of the level, while
      its [add_market], [matchOrders] and [cancel] are still written
      against [std::list<Order>] levels and list iterators (the [Handler]
      typedef), which is how they are read here: the file mixes the two
      level types and is not accepted by a compiler as it stands.

    Integers: [Price] and [Qty] are [uint32_t], [OrderId] is [uint64_t];
    they are modelled as [Z] with the wrap-around written at every
    arithmetic operation of the source. *)

From stdpp Require Import gmap list strings sorting.
From Stdlib Require Import ZArith Lia.

Local Open Scope Z_scope.

(** ** Types shared by the two files *)

Inductive Side := BUY | SELL.
Inductive OrderType := LIMIT | MARKET.

Abbreviation OrderId := Z (only parsing).
Abbreviation Price := Z (only parsing).
Abbreviation Qty := Z (only parsing).

Definition wrap32 (z : Z) : Z := z mod 2 ^ 32.
Definition wrap64 (z : Z) : Z := z mod 2 ^ 64.

(** [struct TradeInfo] and [class Trade]. *)
Record TradeInfo := mkTradeInfo {
  ti_id : OrderId;
  ti_price : Price;
  ti_qty : Qty
}.

Record Trade := mkTrade {
  getBuy : TradeInfo;
  getSell : TradeInfo
}.

Abbreviation Trades := (list Trade) (only parsing).

(** [Handler = std::list<Order>::iterator].  A list iterator names one node
    of one list; a node is created by [push_back] for one order and keeps
    it until the node is erased, so a valid iterator is identified by the
    id of the order its node was created for. *)
Inductive Handler :=
| Singular                  (* value-initialised, belongs to no list *)
| NodeOf (id : OrderId)     (* the node pushed for order [id] *)
| Dangling (id : OrderId).  (* node of a list that has been destroyed *)

Record Handle := mkHandle {
  h_side : Side;
  h_price : Price;
  h_it : Handler
}.

(** What a call can do besides returning: [fill] throws
    [std::logic_error], some paths of the optimized file dereference
    [end()] or call [front()] on an empty list, and the loops are run
    with a bound. *)
Inductive fault :=
| LogicError (what : string)
| DerefEnd            (* [*m.begin()] on an empty map *)
| FrontOfEmpty        (* [l.front()] on an empty list *)
| BadIterator         (* [erase] through a singular or dangling iterator *)
| OutOfFuel.

Inductive outcome (A : Type) :=
| Returned (a : A)
| Faulted (f : fault).
Arguments Returned {A} a.
Arguments Faulted {A} f.

#[global] Instance outcome_ret : MRet outcome := fun A a => Returned a.
#[global] Instance outcome_bind : MBind outcome := fun A B k x =>
  match x with
  | Returned a => k a
  | Faulted f => Faulted f
  end.

(** ** [std::map<Price, Level, Compare>] as a list sorted by [Compare]

    [before a b] is the comparator: [a] is visited before [b].  [asks_]
    uses [std::less] and [bids_] uses [std::greater], so [begin()] is the
    lowest ask and the highest bid. *)
Section PriceMap.
Context {L : Type}.
Variable before : Price -> Price -> bool.

(** [m[k]]: the map after [operator[]], which inserts an empty level
    when the key is absent. *)
Fixpoint subscript (dflt : L) (k : Price) (m : list (Price * L))
  : list (Price * L) :=
  match m with
  | [] => [(k, dflt)]
  | (k', l) :: m' =>
      if before k k' then (k, dflt) :: (k', l) :: m'
      else if before k' k then (k', l) :: subscript dflt k m'
      else (k', l) :: m'
  end.

(** Update through the reference [m[k]] of a present key. *)
Fixpoint at_key (k : Price) (f : L -> L) (m : list (Price * L))
  : list (Price * L) :=
  match m with
  | [] => []
  | (k', l) :: m' =>
      if before k k' then (k', l) :: m'
      else if before k' k then (k', l) :: at_key k f m'
      else (k', f l) :: m'
  end.

(** [m.find(k)]. *)
Fixpoint level_at (k : Price) (m : list (Price * L)) : option L :=
  match m with
  | [] => None
  | (k', l) :: m' =>
      if before k k' then None
      else if before k' k then level_at k m'
      else Some l
  end.

(** [m.erase(k)] by key. *)
Fixpoint erase_key (k : Price) (m : list (Price * L)) : list (Price * L) :=
  match m with
  | [] => []
  | (k', l) :: m' =>
      if before k k' then (k', l) :: m'
      else if before k' k then (k', l) :: erase_key k m'
      else m'
  end.
End PriceMap.

Definition less (a b : Price) : bool := a <? b.
Definition greater (a b : Price) : bool := a >? b.

(** [std::map::insert]: no effect when the key is present. *)
Definition map_insert (id : OrderId) (h : Handle) (m : gmap Z Handle)
  : gmap Z Handle :=
  match m !! id with
  | Some _ => m
  | None => <[id := h]> m
  end.

(** ** [class Order]

    The two files declare the same class up to the type of [price_]:
    [std::optional<Price>] in OrderBook.cpp, [Price] in
    OrderBookOptimized.cpp.  [P] is that type. *)
Record Order (P : Type) := mkOrder {
  id_ : OrderId;
  type_ : OrderType;
  side_ : Side;
  price_ : P;
  initialQty_ : Qty;
  remainingQty_ : Qty
}.
Arguments mkOrder {P}.
Arguments id_ {P}.
Arguments type_ {P}.
Arguments side_ {P}.
Arguments price_ {P}.
Arguments initialQty_ {P}.
Arguments remainingQty_ {P}.

Section OrderMethods.
Context {P : Type}.

Definition getOrderId (o : Order P) : OrderId := id_ o.
Definition getSide (o : Order P) : Side := side_ o.
Definition getPrice (o : Order P) : P := price_ o.
Definition getInitialQty (o : Order P) : Qty := initialQty_ o.
Definition getRemainingQty (o : Order P) : Qty := remainingQty_ o.
Definition getFilledQty (o : Order P) : Qty :=
  wrap32 (initialQty_ o - remainingQty_ o).
Definition isFilled (o : Order P) : bool := remainingQty_ o =? 0.

Definition fill (exec : Qty) (o : Order P) : outcome (Order P) :=
  if exec >? remainingQty_ o then Faulted (LogicError "overfill")
  else Returned
         {| id_ := id_ o; type_ := type_ o; side_ := side_ o;
            price_ := price_ o; initialQty_ := initialQty_ o;
            remainingQty_ := wrap32 (remainingQty_ o - exec) |}.
End OrderMethods.

(** ** The [consume] lambda of [add_market]

    The body of [add_market] is the same text in the two files. *)

(** The trade emplaced for one fill of [add_market]. *)
Definition market_trade (side : Side) (marketId restingId : OrderId)
    (price : Price) (exec : Qty) : Trade :=
  match side with
  | BUY => mkTrade (mkTradeInfo marketId price exec)
                   (mkTradeInfo restingId price exec)
  | SELL => mkTrade (mkTradeInfo restingId price exec)
                    (mkTradeInfo marketId price exec)
  end.

(** What the lambda captures by reference: [qty], the index and
    [trades]. *)
Record walk := mkWalk {
  w_qty : Qty;
  w_index : gmap Z Handle;
  w_trades : list Trade
}.

Section Consume.
Context {P : Type}.
Variables (side : Side) (marketId : OrderId).

(** The inner [for] loop over one level, from the iterator position
    [level] on; returns what is left of the level from there. *)
Fixpoint for_level (price : Price) (level : list (Order P)) (w : walk)
  : outcome (list (Order P) * walk) :=
  match level with
  | [] => Returned ([], w)
  | resting :: rest =>
      if w_qty w >? 0 then
        let exec := Z.min (w_qty w) (getRemainingQty resting) in
        let restingId := getOrderId resting in
        let trades :=
          w_trades w ++ [market_trade side marketId restingId price exec] in
        resting' ← fill exec resting;
        let qty := wrap32 (w_qty w - exec) in
        if isFilled resting' then
          for_level price rest
            (mkWalk qty (delete restingId (w_index w)) trades)
        else
          '(rest', w') ← for_level price rest (mkWalk qty (w_index w) trades);
          Returned (resting' :: rest', w')
      else Returned (resting :: rest, w)
  end.

(** The [while (qty > 0 && !opp.empty())] loop, bounded by [fuel]. *)
Fixpoint while_consume (fuel : nat) (opp : list (Price * list (Order P)))
    (w : walk) : outcome (list (Price * list (Order P)) * walk) :=
  match opp with
  | [] => Returned (opp, w)
  | (price, level) :: others =>
      if w_qty w >? 0 then
        match fuel with
        | O => Faulted OutOfFuel
        | S fuel =>
            '(level', w') ← for_level price level w;
            match level' with
            | [] => while_consume fuel others w'
            | _ :: _ => while_consume fuel ((price, level') :: others) w'
            end
        end
      else Returned (opp, w)
  end.

Definition consume (opp : list (Price * list (Order P))) (w : walk) :=
  while_consume (S (length opp)) opp w.
End Consume.

(** The orders of one side in the order [add_market] walks them: levels
    from [begin()], each level from its front. *)
Definition orders_of {P : Type} (m : list (Price * list (Order P)))
  : list (Order P) :=
  concat (map snd m).

(** ** OrderBook.cpp *)
Module Basic.

Record OrderBook := mkBook {
  asks_ : list (Price * list (Order (option Price)));
  bids_ : list (Price * list (Order (option Price)));
  orderIdToIterator_ : gmap Z Handle;
  nextOrderId_ : OrderId
}.

(** The constructor: empty maps, [nextOrderId_{1}]. *)
Definition empty_book : OrderBook :=
  {| asks_ := []; bids_ := []; orderIdToIterator_ := ∅; nextOrderId_ := 1 |}.

(** [fetch_add(1)]: the old value is returned. *)
Definition nextId (b : OrderBook) : OrderId * OrderBook :=
  (nextOrderId_ b,
   {| asks_ := asks_ b; bids_ := bids_ b;
      orderIdToIterator_ := orderIdToIterator_ b;
      nextOrderId_ := wrap64 (nextOrderId_ b + 1) |}).

(** [Trades matchOrders() {}]: no statement and no [return]; the book is
    left as it is and no [Trades] value is produced. *)
Definition matchOrders (b : OrderBook) : option Trades * OrderBook :=
  (None, b).

(** [bool cancel(OrderId id) {}]: likewise. *)
Definition cancel (id : OrderId) (b : OrderBook) : option bool * OrderBook :=
  (None, b).

Definition add_limit (side : Side) (price : Price) (qty : Qty)
    (b : OrderBook) : option Trades * OrderBook :=
  let '(id, b) := nextId b in
  let order := {| id_ := id; type_ := LIMIT; side_ := side;
                  price_ := Some price; initialQty_ := qty;
                  remainingQty_ := qty |} in
  let b :=
    match side with
    | BUY =>
        {| asks_ := asks_ b;
           bids_ := at_key greater price (fun orders => orders ++ [order])
                      (subscript greater [] price (bids_ b));
           orderIdToIterator_ := orderIdToIterator_ b;
           nextOrderId_ := nextOrderId_ b |}
    | SELL =>
        {| asks_ := at_key less price (fun orders => orders ++ [order])
                      (subscript less [] price (asks_ b));
           bids_ := bids_ b;
           orderIdToIterator_ := orderIdToIterator_ b;
           nextOrderId_ := nextOrderId_ b |}
    end in
  let handle := {| h_side := side; h_price := price; h_it := NodeOf id |} in
  let b := {| asks_ := asks_ b; bids_ := bids_ b;
              orderIdToIterator_ := map_insert id handle (orderIdToIterator_ b);
              nextOrderId_ := nextOrderId_ b |} in
  matchOrders b.

Definition add_market (side : Side) (qty : Qty) (b : OrderBook)
  : outcome (Trades * OrderBook) :=
  if qty =? 0 then Returned ([], b)
  else
    let '(marketId, b) := nextId b in
    let w := mkWalk qty (orderIdToIterator_ b) [] in
    match side with
    | BUY =>
        '(asks, w') ← consume side marketId (asks_ b) w;
        Returned (w_trades w',
                  {| asks_ := asks; bids_ := bids_ b;
                     orderIdToIterator_ := w_index w';
                     nextOrderId_ := nextOrderId_ b |})
    | SELL =>
        '(bids, w') ← consume side marketId (bids_ b) w;
        Returned (w_trades w',
                  {| asks_ := asks_ b; bids_ := bids;
                     orderIdToIterator_ := w_index w';
                     nextOrderId_ := nextOrderId_ b |})
    end.

End Basic.

(** ** OrderBookOptimized.cpp *)
Module Optimized.

(** [Order()]: every member value-initialised. *)
Definition Order_default : Order Price :=
  {| id_ := 0; type_ := LIMIT; side_ := BUY; price_ := 0;
     initialQty_ := 0; remainingQty_ := 0 |}.

(** [Order(side, id, type, price, qty)]: the body throws on every call. *)
Definition Order_new (side : Side) (id : OrderId) (type : OrderType)
    (price : Price) (qty : Qty) : outcome (Order Price) :=
  Faulted (LogicError "cannot create order with no quantity!").

(** [OrderPool]: [pool_] holds pointers to distinct orders; the list
    holds the pointed-to orders in the same positions. *)
Definition defaultNumOrders : nat := 100.

Definition generateOrders (numOrders : nat) : list (Order Price) :=
  repeat Order_default numOrders.

(** [allocate] takes [pool_.back()] and leaves it in the pool; the
    result is the order behind the returned pointer and the pool. *)
Definition allocate (id : OrderId) (side : Side) (type : OrderType)
    (qty : Qty) (price : Price) (pool : list (Order Price))
  : Order Price * list (Order Price) :=
  let pool := match pool with [] => generateOrders defaultNumOrders | _ => pool end in
  let order := {| id_ := id; type_ := type; side_ := side; price_ := price;
                  initialQty_ := qty; remainingQty_ := qty |} in
  (order, removelast pool ++ [order]).

Record OrderBook := mkBook {
  asks_ : list (Price * list (Order Price));
  bids_ : list (Price * list (Order Price));
  orderIdToIterator_ : gmap Z Handle;
  nextOrderId_ : OrderId;
  pool_ : list (Order Price)
}.

Definition empty_book : OrderBook :=
  {| asks_ := []; bids_ := []; orderIdToIterator_ := ∅; nextOrderId_ := 1;
     pool_ := [] |}.

Definition with_ledger (asks bids : list (Price * list (Order Price)))
    (index : gmap Z Handle) (b : OrderBook) : OrderBook :=
  {| asks_ := asks; bids_ := bids; orderIdToIterator_ := index;
     nextOrderId_ := nextOrderId_ b; pool_ := pool_ b |}.

Definition nextId (b : OrderBook) : OrderId * OrderBook :=
  (nextOrderId_ b,
   {| asks_ := asks_ b; bids_ := bids_ b;
      orderIdToIterator_ := orderIdToIterator_ b;
      nextOrderId_ := wrap64 (nextOrderId_ b + 1); pool_ := pool_ b |}).

(** State of the [matchOrders] loop. *)
Record crossing := mkCrossing {
  c_asks : list (Price * list (Order Price));
  c_bids : list (Price * list (Order Price));
  c_index : gmap Z Handle;
  c_trades : list Trade
}.

(** One pass through the body of [while (true)]; [inl] is the [break].
    [bid] and [ask] are read after [pop_front] as the orders were when
    popped. *)
Definition match_step (c : crossing) : outcome (crossing + crossing) :=
  match c_asks c with
  | [] => Faulted DerefEnd
  | (bestAsk, asks) :: _ =>
      match c_bids c with
      | [] => Faulted DerefEnd
      | (bestBid, bids) :: _ =>
          if bestAsk >? bestBid then Returned (inl c)
          else
            match bids with
            | [] => Faulted FrontOfEmpty
            | bid :: bids_tl =>
                match asks with
                | [] => Faulted FrontOfEmpty
                | ask :: asks_tl =>
                    let exec := Z.min (getRemainingQty bid) (getRemainingQty ask) in
                    bid ← fill exec bid;
                    ask ← fill exec ask;
                    let '(bids, index) :=
                      if isFilled bid
                      then (bids_tl, delete (getOrderId bid) (c_index c))
                      else (bid :: bids_tl, c_index c) in
                    let '(asks, index) :=
                      if isFilled ask
                      then (asks_tl, delete (getOrderId bid) index)
                      else (ask :: asks_tl, index) in
                    let asks_m := at_key less bestAsk (fun _ => asks) (c_asks c) in
                    let bids_m := at_key greater bestBid (fun _ => bids) (c_bids c) in
                    let asks_m :=
                      match asks with
                      | [] => erase_key less bestAsk asks_m
                      | _ => asks_m
                      end in
                    let bids_m :=
                      match bids with
                      | [] => erase_key greater bestBid bids_m
                      | _ => bids_m
                      end in
                    Returned
                      (inr {| c_asks := asks_m; c_bids := bids_m;
                              c_index := index;
                              c_trades :=
                                c_trades c ++
                                [mkTrade
                                   (mkTradeInfo (getOrderId bid) (getPrice bid) exec)
                                   (mkTradeInfo (getOrderId ask) (getPrice ask) exec)] |})
                end
            end
      end
  end.

Fixpoint match_loop (fuel : nat) (c : crossing) : outcome crossing :=
  r ← match_step c;
  match r with
  | inl c => Returned c
  | inr c =>
      match fuel with
      | O => Faulted OutOfFuel
      | S fuel => match_loop fuel c
      end
  end.

(** Number of resting orders on one side. *)
Definition resting (m : list (Price * list (Order Price))) : nat :=
  length (orders_of m).

Definition matchOrders (b : OrderBook) : outcome (Trades * OrderBook) :=
  c ← match_loop (resting (asks_ b) + resting (bids_ b))
        {| c_asks := asks_ b; c_bids := bids_ b;
           c_index := orderIdToIterator_ b; c_trades := [] |};
  Returned (c_trades c, with_ledger (c_asks c) (c_bids c) (c_index c) b).

(** [auto level = bids_[price]] copies the level: [operator[]] leaves an
    empty level in the map when the price is new, the order pointer is
    pushed onto the copy, and the iterator kept in the handle points
    into the copy, which is destroyed on leaving the branch. *)
Definition add_limit (side : Side) (price : Price) (qty : Qty)
    (b : OrderBook) : outcome (Trades * OrderBook) :=
  let '(id, b) := nextId b in
  let '(orderPointer, pool) := allocate id side LIMIT qty price (pool_ b) in
  let b := {| asks_ := asks_ b; bids_ := bids_ b;
              orderIdToIterator_ := orderIdToIterator_ b;
              nextOrderId_ := nextOrderId_ b; pool_ := pool |} in
  let b :=
    match side with
    | BUY => with_ledger (asks_ b) (subscript greater [] price (bids_ b))
               (orderIdToIterator_ b) b
    | SELL => with_ledger (subscript less [] price (asks_ b)) (bids_ b)
                (orderIdToIterator_ b) b
    end in
  let handle := {| h_side := side; h_price := price; h_it := Dangling id |} in
  let b := with_ledger (asks_ b) (bids_ b)
             (map_insert id handle (orderIdToIterator_ b)) b in
  matchOrders b.

Definition add_market (side : Side) (qty : Qty) (b : OrderBook)
  : outcome (Trades * OrderBook) :=
  if qty =? 0 then Returned ([], b)
  else
    let '(marketId, b) := nextId b in
    let w := mkWalk qty (orderIdToIterator_ b) [] in
    match side with
    | BUY =>
        '(asks, w') ← consume side marketId (asks_ b) w;
        Returned (w_trades w', with_ledger asks (bids_ b) (w_index w') b)
    | SELL =>
        '(bids, w') ← consume side marketId (bids_ b) w;
        Returned (w_trades w', with_ledger (asks_ b) bids (w_index w') b)
    end.

(** [level.erase(it)]: unlink the node the iterator names. *)
Fixpoint erase_node (it : OrderId) (level : list (Order Price))
  : option (list (Order Price)) :=
  match level with
  | [] => None
  | o :: rest =>
      if getOrderId o =? it then Some rest
      else cons o <$> erase_node it rest
  end.

Definition erase_at (it : Handler) (level : list (Order Price))
  : outcome (list (Order Price)) :=
  match it with
  | NodeOf n =>
      match erase_node n level with
      | Some level' => Returned level'
      | None => Faulted BadIterator
      end
  | Singular | Dangling _ => Faulted BadIterator
  end.

(** [orderIdToIterator_[id]] inserts a value-initialised handle
    ([BUY], price 0, singular iterator) for an id that is absent, and
    [bids_[price]] an empty level for a price that is absent. *)
Definition cancel (id : OrderId) (b : OrderBook) : outcome OrderBook :=
  let '(h, index) :=
    match orderIdToIterator_ b !! id with
    | Some h => (h, orderIdToIterator_ b)
    | None =>
        let h := {| h_side := BUY; h_price := 0; h_it := Singular |} in
        (h, <[id := h]> (orderIdToIterator_ b))
    end in
  match h_side h with
  | BUY =>
      let bids := subscript greater [] (h_price h) (bids_ b) in
      level ← erase_at (h_it h) (default [] (level_at greater (h_price h) bids));
      Returned (with_ledger (asks_ b)
                  (at_key greater (h_price h) (fun _ => level) bids)
                  (delete id index) b)
  | SELL =>
      let asks := subscript less [] (h_price h) (asks_ b) in
      level ← erase_at (h_it h) (default [] (level_at less (h_price h) asks));
      Returned (with_ledger (at_key less (h_price h) (fun _ => level) asks)
                  (bids_ b) (delete id index) b)
  end.

End Optimized.

(** ** Observations on a book *)

(** Price at [begin()] of one side. *)
Definition best_price {L : Type} (m : list (Price * L)) : option Price :=
  fst <$> head m.

(** Both sides are non-empty and the best bid is not below the best ask. *)
Definition crossed {L : Type} (asks bids : list (Price * L)) : Prop :=
  match best_price bids, best_price asks with
  | Some bid, Some ask => ask <= bid
  | _, _ => False
  end.

Definition sum_Z (l : list Z) : Z := foldr Z.add 0 l.

(** Total remaining quantity resting on one side. *)
Definition available {P : Type} (m : list (Price * list (Order P))) : Z :=
  sum_Z (map remainingQty_ (orders_of m)).

(** Every remaining quantity on the side is a [uint32_t] value. *)
Definition side_in_range {P : Type} (m : list (Price * list (Order P))) : Prop :=
  Forall (fun o : Order P => 0 <= remainingQty_ o < 2 ^ 32) (orders_of m).

(** Quantity of a trade (read on the buy leg). *)
Definition trade_qty (t : Trade) : Qty := ti_qty (getBuy t).

(** [index.erase(id)] for each id of the list in turn. *)
Definition erase_all (ids : list OrderId) (index : gmap Z Handle)
  : gmap Z Handle :=
  foldl (fun m id => delete id m) index ids.

(** The trades of a market order that takes every resting order of the
    opposing side in full: best level first, front of the queue first. *)
Definition sweep {P : Type} (side : Side) (marketId : OrderId)
    (opp : list (Price * list (Order P))) : list Trade :=
  flat_map
    (fun pl : Price * list (Order P) =>
       map (fun o => market_trade side marketId (id_ o) (fst pl) (remainingQty_ o))
           (snd pl))
    opp.

Module BasicObs.
Import Basic.
(** The side an incoming order of [side] trades against, and its own. *)
Definition opposing (side : Side) (b : OrderBook) :=
  match side with BUY => asks_ b | SELL => bids_ b end.
Definition own (side : Side) (b : OrderBook) :=
  match side with BUY => bids_ b | SELL => asks_ b end.
End BasicObs.

Module OptimizedObs.
Import Optimized.
Definition opposing (side : Side) (b : OrderBook) :=
  match side with BUY => asks_ b | SELL => bids_ b end.
Definition own (side : Side) (b : OrderBook) :=
  match side with BUY => bids_ b | SELL => asks_ b end.
End OptimizedObs.


(** ** The walk of a market order, written over the flat queue

    [add_market] visits the resting orders of the opposing side in one
    sequence: levels from [begin()], each level from its front.  The four
    functions below follow that sequence with the arithmetic of the
    source and give what the walk emits ([fills]), what it leaves in the
    ledger ([leftover]), the ids it erases from the index ([filled_ids])
    and the market quantity it ends with ([unspent]). *)
Definition priced_orders {P : Type} (m : list (Price * list (Order P)))
  : list (Price * Order P) :=
  flat_map (fun pl : Price * list (Order P) => map (pair (fst pl)) (snd pl)) m.

Definition set_remaining {P : Type} (o : Order P) (q : Qty) : Order P :=
  {| id_ := id_ o; type_ := type_ o; side_ := side_ o; price_ := price_ o;
     initialQty_ := initialQty_ o; remainingQty_ := q |}.

Section Walk.
Context {P : Type}.
Variables (side : Side) (marketId : OrderId).

Fixpoint fills (q : Qty) (queue : list (Price * Order P)) : list Trade :=
  match queue with
  | [] => []
  | (price, o) :: rest =>
      if q >? 0 then
        let exec := Z.min q (remainingQty_ o) in
        market_trade side marketId (id_ o) price exec
          :: fills (wrap32 (q - exec)) rest
      else []
  end.

Fixpoint leftover (q : Qty) (queue : list (Order P)) : list (Order P) :=
  match queue with
  | [] => []
  | o :: rest =>
      if q >? 0 then
        let exec := Z.min q (remainingQty_ o) in
        let left := wrap32 (remainingQty_ o - exec) in
        if left =? 0 then leftover (wrap32 (q - exec)) rest
        else set_remaining o left :: leftover (wrap32 (q - exec)) rest
      else queue
  end.

Fixpoint filled_ids (q : Qty) (queue : list (Order P)) : list OrderId :=
  match queue with
  | [] => []
  | o :: rest =>
      if q >? 0 then
        let exec := Z.min q (remainingQty_ o) in
        if wrap32 (remainingQty_ o - exec) =? 0
        then id_ o :: filled_ids (wrap32 (q - exec)) rest
        else filled_ids (wrap32 (q - exec)) rest
      else []
  end.

Fixpoint unspent (q : Qty) (queue : list (Order P)) : Qty :=
  match queue with
  | [] => q
  | o :: rest =>
      if q >? 0 then unspent (wrap32 (q - Z.min q (remainingQty_ o))) rest
      else q
  end.
End Walk.

(** Id on the leg of the resting order in a trade made by a market
    order of [side]. *)
Definition resting_id (side : Side) (t : Trade) : OrderId :=
  match side with
  | BUY => ti_id (getSell t)
  | SELL => ti_id (getBuy t)
  end.

(** Every order sits in the level of its own price (OrderBook.cpp, where
    [price_] is optional). *)
Definition level_prices (m : list (Price * list (Order (option Price)))) : Prop :=
  Forall (fun pl => Forall (fun o => price_ o = Some (fst pl)) (snd pl)) m.

(** The side of the ledger after one pass: the front order of the best
    level is popped when filled, and the level erased when that empties
    it. *)
Definition after_fill {P : Type} (best : Price) (front : Order P)
    (queue : list (Order P)) (others : list (Price * list (Order P)))
  : list (Price * list (Order P)) :=
  if isFilled front then
    match queue with
    | [] => others
    | _ :: _ => (best, queue) :: others
    end
  else (best, front :: queue) :: others.

(** [o'] is [o] up to the remaining quantity. *)
Definition same_order {P : Type} (o' o : Order P) : Prop :=
  id_ o' = id_ o /\ price_ o' = price_ o /\ side_ o' = side_ o /\
  type_ o' = type_ o /\ initialQty_ o' = initialQty_ o.

(** A trade of the crossing loop between a bid and an ask of the given
    sides: each leg has the id and the price of its own order, and the
    two legs have one quantity. *)
Definition crossing_trade (bids asks : list (Price * list (Order Price)))
    (t : Trade) : Prop :=
  exists bid ask,
    bid ∈ orders_of bids /\ ask ∈ orders_of asks /\
    ti_id (getBuy t) = id_ bid /\ ti_price (getBuy t) = price_ bid /\
    ti_id (getSell t) = id_ ask /\ ti_price (getSell t) = price_ ask /\
    ti_qty (getBuy t) = ti_qty (getSell t).

(** Range of the quantities a walk starts from. *)
Definition walk_in_range {P : Type} (q : Qty) (queue : list (Order P)) : Prop :=
  0 <= q < 2 ^ 32 /\
  Forall (fun o : Order P => 0 <= remainingQty_ o < 2 ^ 32) queue.

(** ** Runs of OrderBook.cpp and the quantities traded in them *)

Inductive request :=
| SubmitLimit (side : Side) (price : Price) (qty : Qty)
| SubmitMarket (side : Side) (qty : Qty)
| Cancel (id : OrderId).

(** The arguments are values of their C++ types. *)
Definition request_in_range (r : request) : Prop :=
  match r with
  | SubmitLimit _ price qty => 0 <= price < 2 ^ 32 /\ 0 <= qty < 2 ^ 32
  | SubmitMarket _ qty => 0 <= qty < 2 ^ 32
  | Cancel id => 0 <= id < 2 ^ 64
  end.

(** The book together with what the calls made so far have produced:
    every trade, and the id and initial quantity of every order created
    (limit orders, and market orders of non-zero quantity). *)
Record history := mkHistory {
  hist_book : Basic.OrderBook;
  hist_trades : list Trade;
  hist_orders : list (OrderId * Qty)
}.

(** One call.  [add_limit] and [cancel] produce no value (their results
    come from the empty bodies), so only [add_market] adds trades. *)
Definition serve (r : request) (h : history) : outcome history :=
  match r with
  | SubmitLimit side price qty =>
      let '(_, b') := Basic.add_limit side price qty (hist_book h) in
      Returned
        {| hist_book := b'; hist_trades := hist_trades h;
           hist_orders :=
             hist_orders h ++ [(Basic.nextOrderId_ (hist_book h), qty)] |}
  | SubmitMarket side qty =>
      '(trades, b') ← Basic.add_market side qty (hist_book h);
      Returned
        {| hist_book := b'; hist_trades := hist_trades h ++ trades;
           hist_orders :=
             hist_orders h ++
             (if qty =? 0 then []
              else [(Basic.nextOrderId_ (hist_book h), qty)]) |}
  | Cancel id =>
      let '(_, b') := Basic.cancel id (hist_book h) in
      Returned {| hist_book := b'; hist_trades := hist_trades h;
                  hist_orders := hist_orders h |}
  end.

Fixpoint run (rs : list request) (h : history) : outcome history :=
  match rs with
  | [] => Returned h
  | r :: rs => h' ← serve r h; run rs h'
  end.

Definition start : history :=
  {| hist_book := Basic.empty_book; hist_trades := []; hist_orders := [] |}.

(** Quantity a trade records for [id]: the quantity of each leg that
    carries the id. *)
Definition leg_qty (id : OrderId) (t : Trade) : Z :=
  (if ti_id (getBuy t) =? id then ti_qty (getBuy t) else 0) +
  (if ti_id (getSell t) =? id then ti_qty (getSell t) else 0).

(** Sum of the quantities of the trades that carry [id]. *)
Definition traded (id : OrderId) (trades : list Trade) : Z :=
  sum_Z (map (leg_qty id) trades).

(** Remaining quantity resting under [id]. *)
Definition resting_qty {P : Type} (id : OrderId) (queue : list (Order P)) : Z :=
  sum_Z (map (fun o => if id_ o =? id then remainingQty_ o else 0) queue).

(** Initial quantity recorded for [id]. *)
Definition initial_qty (id : OrderId) (orders : list (OrderId * Qty)) : Z :=
  sum_Z (map (fun iq => if fst iq =? id then snd iq else 0) orders).

Definition order_ok {P : Type} (o : Order P) : Prop :=
  0 <= remainingQty_ o <= initialQty_ o /\ initialQty_ o < 2 ^ 32.

Definition legs_agree (t : Trade) : Prop :=
  ti_qty (getBuy t) = ti_qty (getSell t).

Definition resting_orders (b : Basic.OrderBook) : list (Order (option Price)) :=
  orders_of (Basic.asks_ b) ++ orders_of (Basic.bids_ b).

(** What holds of a history with [n] requests still to come: the id
    counter has room for them, the orders created so far have distinct ids
    below the counter, the trades and the resting quantity of every id
    stay within the initial quantity recorded for it, every resting order
    has [0 <= remaining <= initial], and the legs of every trade agree in
    quantity. *)
Definition conserved (n : nat) (h : history) : Prop :=
  (1 <= Basic.nextOrderId_ (hist_book h) /\
   Basic.nextOrderId_ (hist_book h) + Z.of_nat n < 2 ^ 64) /\
  Forall (fun iq : OrderId * Qty =>
            1 <= fst iq < Basic.nextOrderId_ (hist_book h)) (hist_orders h) /\
  NoDup (map fst (hist_orders h)) /\
  (forall id,
     0 <= traded id (hist_trades h) /\
     traded id (hist_trades h) + resting_qty id (resting_orders (hist_book h))
       <= initial_qty id (hist_orders h)) /\
  Forall order_ok (resting_orders (hist_book h)) /\
  Forall legs_agree (hist_trades h).

(** Books used as concrete inputs. *)
Module Samples.
Import Basic.
(** Asks 10\@100, 20\@100 and 30\@101 submitted in that order: 60 in
    total. *)
Definition asks60 : OrderBook :=
  (add_limit SELL 101 30
     (add_limit SELL 100 20
        (add_limit SELL 100 10 empty_book).2).2).2.

(** Bid 10\@100, then ask 5\@90. *)
Definition bid100_ask90 : OrderBook :=
  (add_limit SELL 90 5 (add_limit BUY 100 10 empty_book).2).2.

(** Ask 10\@100 alone. *)
Definition ask100 : OrderBook := (add_limit SELL 100 10 empty_book).2.

(** Bid 10\@100 alone. *)
Definition bid100 : OrderBook := (add_limit BUY 100 10 empty_book).2.

(** A limit buy of quantity 0 at 100. *)
Definition zero_bid : OrderBook := (add_limit BUY 100 0 empty_book).2.

(** Two asks at 100, a market buy that fills the first and part of the
    second, a cancel and an empty market order. *)
Definition session : list request :=
  [SubmitLimit SELL 100 10; SubmitLimit SELL 100 5; SubmitMarket BUY 12;
   Cancel 1; SubmitMarket SELL 0].

(** The three asks of [asks60], as requests. *)
Definition three_asks : list request :=
  [SubmitLimit SELL 100 10; SubmitLimit SELL 100 20; SubmitLimit SELL 101 30].
End Samples.

Module OptimizedSamples.
Import Optimized.
Definition resting_order (id : OrderId) (side : Side) (price : Price)
    (qty : Qty) : Order Price :=
  {| id_ := id; type_ := LIMIT; side_ := side; price_ := price;
     initialQty_ := qty; remainingQty_ := qty |}.

Definition handle_of (o : Order Price) : OrderId * Handle :=
  (id_ o, {| h_side := side_ o; h_price := price_ o; h_it := NodeOf (id_ o) |}).

(** A book holding the given levels, every order indexed. *)
Definition book_of (asks bids : list (Price * list (Order Price)))
    (next : OrderId) : OrderBook :=
  {| asks_ := asks; bids_ := bids;
     orderIdToIterator_ :=
       list_to_map (map handle_of (orders_of asks ++ orders_of bids));
     nextOrderId_ := next; pool_ := [] |}.

(** Bids 5\@101 and 1\@90, asks 5\@99 and 1\@110: the best levels
    overlap at different prices. *)
Definition overlap : OrderBook :=
  book_of [(99, [resting_order 2 SELL 99 5]); (110, [resting_order 4 SELL 110 1])]
          [(101, [resting_order 1 BUY 101 5]); (90, [resting_order 3 BUY 90 1])]
          5.

(** Bid 10\@100 (id 1), asks 5\@100 (id 2) and 1\@110 (id 3). *)
Definition bid10_ask5 : OrderBook :=
  book_of [(100, [resting_order 2 SELL 100 5]); (110, [resting_order 3 SELL 110 1])]
          [(100, [resting_order 1 BUY 100 10])]
          4.
End OptimizedSamples.

(** ** Shape of the books OrderBook.cpp reaches *)

(** What a market order leaves of the side it walks: the map itself, or
    the map with its first level cut down to a non-empty rest, or what it
    leaves of the map without its first level. *)
Inductive remains {P : Type}
  : list (Price * list (Order P)) -> list (Price * list (Order P)) -> Prop :=
| remains_here m : remains m m
| remains_front price level q m :
    leftover q level <> [] ->
    remains ((price, level) :: m) ((price, leftover q level) :: m)
| remains_next price level m m' :
    remains m m' -> remains ((price, level) :: m) m'.

(** One level of a side holding orders of [side], with ids below [next]:
    the level is not empty, its orders carry the level's price, and their
    ids increase from front to back. *)
Definition level_wf (side : Side) (next : OrderId)
    (pl : Price * list (Order (option Price))) : Prop :=
  snd pl <> [] /\
  StronglySorted Z.lt (map id_ (snd pl)) /\
  Forall (fun o => price_ o = Some (fst pl) /\ side_ o = side /\
                   type_ o = LIMIT /\ 1 <= id_ o < next)
         (snd pl).

(** A history whose book has the shape of a [std::map] pair kept by
    [add_limit] and [add_market]: asks by ascending and bids by descending
    price, well-formed levels, no id resting twice, the index holding
    exactly the ids that rest, and the log of created orders in
    increasing order of id. *)
Definition well_formed (h : history) : Prop :=
  StronglySorted Z.lt (map fst (Basic.asks_ (hist_book h))) /\
  StronglySorted Z.gt (map fst (Basic.bids_ (hist_book h))) /\
  Forall (level_wf SELL (Basic.nextOrderId_ (hist_book h)))
         (Basic.asks_ (hist_book h)) /\
  Forall (level_wf BUY (Basic.nextOrderId_ (hist_book h)))
         (Basic.bids_ (hist_book h)) /\
  NoDup (map id_ (resting_orders (hist_book h))) /\
  (forall id, is_Some (Basic.orderIdToIterator_ (hist_book h) !! id) <->
              id ∈ map id_ (resting_orders (hist_book h))) /\
  StronglySorted Z.lt (map fst (hist_orders h)).

(** Limit orders carry a positive quantity. *)
Definition request_positive (r : request) : Prop :=
  match r with
  | SubmitLimit _ _ qty => 0 < qty
  | _ => True
  end.

Definition live {P : Type} (o : Order P) : Prop := 0 < remainingQty_ o.

(** The trades made so far with each resting order add up to its filled
    quantity. *)
Definition filled_exactly (h : history) : Prop :=
  Forall (fun o => traded (id_ o) (hist_trades h) + remainingQty_ o =
                   initialQty_ o)
         (resting_orders (hist_book h)).

(** ** Further observations *)

(** The calls that take an id from the counter: every [add_limit], and
    [add_market] unless the quantity is 0. *)
Definition consumes_id (r : request) : bool :=
  match r with
  | SubmitLimit _ _ _ => true
  | SubmitMarket _ qty => negb (qty =? 0)
  | Cancel _ => false
  end.

Definition is_market (r : request) : bool :=
  match r with
  | SubmitMarket _ _ => true
  | _ => false
  end.

(** Price of a trade (read on the buy leg), and the id on the leg of the
    market order in a trade made by a market order of [side]. *)
Definition trade_price (t : Trade) : Price := ti_price (getBuy t).

Definition market_leg_id (side : Side) (t : Trade) : OrderId :=
  match side with
  | BUY => ti_id (getBuy t)
  | SELL => ti_id (getSell t)
  end.

(** Order in which a market order of [side] meets prices: a buy from the
    lowest ask up, a sell from the highest bid down. *)
Definition priority (side : Side) : relation Price :=
  match side with
  | BUY => Z.le
  | SELL => Z.ge
  end.

(** Every handle of the index names the node of its own id, and agrees
    in side and price with the resting order of that id. *)
Definition handles_agree (b : Basic.OrderBook) : Prop :=
  forall id hd,
    Basic.orderIdToIterator_ b !! id = Some hd ->
    h_it hd = NodeOf id /\
    forall o, o ∈ resting_orders b -> id_ o = id ->
              side_ o = h_side hd /\ price_ o = Some (h_price hd).

(** Calls on OrderBookOptimized.cpp, with the trades returned so far. *)
Definition serve_optimized (r : request)
    (st : list Trade * Optimized.OrderBook)
  : outcome (list Trade * Optimized.OrderBook) :=
  match r with
  | SubmitLimit side price qty =>
      '(trades, b') ← Optimized.add_limit side price qty st.2;
      Returned (st.1 ++ trades, b')
  | SubmitMarket side qty =>
      '(trades, b') ← Optimized.add_market side qty st.2;
      Returned (st.1 ++ trades, b')
  | Cancel id =>
      b' ← Optimized.cancel id st.2;
      Returned (st.1, b')
  end.

Fixpoint run_optimized (rs : list request)
    (st : list Trade * Optimized.OrderBook)
  : outcome (list Trade * Optimized.OrderBook) :=
  match rs with
  | [] => Returned st
  | r :: rs => st' ← serve_optimized r st; run_optimized rs st'
  end.

(** Orders of the ledger of OrderBookOptimized.cpp. *)
Definition optimized_resting (b : Optimized.OrderBook) : list (Order Price) :=
  orders_of (Optimized.asks_ b) ++ orders_of (Optimized.bids_ b).

(** A book of OrderBookOptimized.cpp with nothing in its maps, index and
    pool; [empty_book] is [vacant 1]. *)
Definition vacant (next : OrderId) : Optimized.OrderBook :=
  {| Optimized.asks_ := []; Optimized.bids_ := [];
     Optimized.orderIdToIterator_ := ∅; Optimized.nextOrderId_ := next;
     Optimized.pool_ := [] |}.

(** The index leads [cancel] to a node: the id is a key, its handle holds
    the iterator of a node, and that node is in the level found at the
    handle's price on the handle's side. *)
Definition locates (id : OrderId) (b : Optimized.OrderBook) : Prop :=
  exists hd n,
    Optimized.orderIdToIterator_ b !! id = Some hd /\
    h_it hd = NodeOf n /\
    n ∈ map id_
          (default []
             (level_at (match h_side hd with BUY => greater | SELL => less end)
                (h_price hd) (OptimizedObs.own (h_side hd) b))).

(** ** Facts about [fill] and the [consume] lambda *)

Lemma fill_min {P : Type} (q : Z) (o : Order P) :
  fill (Z.min q (getRemainingQty o)) o =
  Returned {| id_ := id_ o; type_ := type_ o; side_ := side_ o;
              price_ := price_ o; initialQty_ := initialQty_ o;
              remainingQty_ :=
                wrap32 (remainingQty_ o - Z.min q (remainingQty_ o)) |}.
Proof.
  unfold fill, getRemainingQty.
  destruct (Z.gtb_spec (Z.min q (remainingQty_ o)) (remainingQty_ o)); [lia | done].
Qed.

Lemma wrap32_0 : wrap32 0 = 0.
Proof. reflexivity. Qed.

Lemma wrap32_id z : 0 <= z < 2 ^ 32 -> wrap32 z = z.
Proof. intros. unfold wrap32. by apply Z.mod_small. Qed.

Section ConsumeFacts.
Context {P : Type}.
Variables (side : Side) (marketId : OrderId).

Lemma for_level_stop price (level : list (Order P)) w :
  (w_qty w >? 0) = false ->
  for_level side marketId price level w = Returned (level, w).
Proof. intros H. destruct level; simpl; [done | by rewrite H]. Qed.

(** The [for] loop always returns, and it leaves orders in the level
    only when the market quantity is used up. *)
Lemma for_level_returns price (level : list (Order P)) w :
  exists level' w',
    for_level side marketId price level w = Returned (level', w') /\
    (level' = [] \/ (w_qty w' >? 0) = false).
Proof.
  revert w. induction level as [|resting rest IH]; intros w; simpl.
  - eauto.
  - destruct (w_qty w >? 0) eqn:Hq; [|eauto 6].
    rewrite fill_min. simpl. unfold isFilled. simpl.
    destruct (Z.eqb_spec
                (wrap32 (remainingQty_ resting -
                         Z.min (w_qty w) (remainingQty_ resting))) 0)
      as [Hz|Hz].
    + apply IH.
    + assert (Z.min (w_qty w) (getRemainingQty resting) = w_qty w) as ->.
      { unfold getRemainingQty.
        destruct (Z.min_spec (w_qty w) (remainingQty_ resting)) as [[_ E]|[_ E]];
          [done|].
        rewrite E, Z.sub_diag in Hz. by destruct Hz. }
      rewrite Z.sub_diag, wrap32_0.
      rewrite for_level_stop by done. simpl. eauto 6.
Qed.

Lemma while_consume_returns fuel (opp : list (Price * list (Order P))) w :
  (length opp < fuel)%nat ->
  exists opp' w', while_consume side marketId fuel opp w = Returned (opp', w').
Proof.
  revert opp w. induction fuel as [|fuel IH]; intros opp w Hlen; [lia|].
  destruct opp as [|[price level] others]; simpl; [eauto|].
  destruct (w_qty w >? 0) eqn:Hq; [|eauto].
  destruct (for_level_returns price level w) as (level' & w' & -> & Hend).
  simpl. destruct level' as [|o level'].
  - apply IH. simpl in Hlen. lia.
  - destruct Hend as [|Hend]; [done|].
    destruct fuel; simpl; rewrite Hend; eauto.
Qed.

Lemma consume_returns (opp : list (Price * list (Order P))) w :
  exists opp' w', consume side marketId opp w = Returned (opp', w').
Proof. apply while_consume_returns. lia. Qed.
End ConsumeFacts.

(** C10. [add_market] executes [min(qty, remaining)] against each resting
    order, so the overfill branch of [Order::fill] is never taken: in both
    files every call of [add_market] returns (it neither throws nor runs
    out of the loop bound). *)
Theorem add_market_never_overfills :
  (forall side qty b, exists r, Basic.add_market side qty b = Returned r) /\
  (forall side qty b, exists r, Optimized.add_market side qty b = Returned r).
Proof.
  split; intros side qty b.
  - unfold Basic.add_market. destruct (qty =? 0); [eauto|]. simpl.
    destruct side;
      match goal with
      | |- context [consume ?s ?m ?o ?w] =>
          destruct (consume_returns s m o w) as (opp' & w' & ->)
      end; simpl; eauto.
  - unfold Optimized.add_market. destruct (qty =? 0); [eauto|]. simpl.
    destruct side;
      match goal with
      | |- context [consume ?s ?m ?o ?w] =>
          destruct (consume_returns s m o w) as (opp' & w' & ->)
      end; simpl; eauto.
Qed.

(** ** A market order larger than the opposing side *)

Lemma sum_Z_app l1 l2 : sum_Z (l1 ++ l2) = sum_Z l1 + sum_Z l2.
Proof. unfold sum_Z. induction l1 as [|x l1 IH]; simpl; lia. Qed.

Lemma sum_Z_nonneg l : Forall (fun z => 0 <= z) l -> 0 <= sum_Z l.
Proof. unfold sum_Z. induction 1; simpl; lia. Qed.

Lemma available_cons {P : Type} price (level : list (Order P)) others :
  available ((price, level) :: others) =
  sum_Z (map remainingQty_ level) + available others.
Proof.
  unfold available, orders_of. simpl. by rewrite map_app, sum_Z_app.
Qed.

Lemma side_in_range_cons {P : Type} price (level : list (Order P)) others :
  side_in_range ((price, level) :: others) <->
  Forall (fun o : Order P => 0 <= remainingQty_ o < 2 ^ 32) level /\
  side_in_range others.
Proof. unfold side_in_range, orders_of. simpl. apply Forall_app. Qed.

Lemma level_sum_nonneg {P : Type} (level : list (Order P)) :
  Forall (fun o : Order P => 0 <= remainingQty_ o < 2 ^ 32) level ->
  0 <= sum_Z (map remainingQty_ level).
Proof.
  intros H. apply sum_Z_nonneg, Forall_map.
  eapply Forall_impl; [exact H|]. simpl. lia.
Qed.

Lemma available_nonneg {P : Type} (m : list (Price * list (Order P))) :
  side_in_range m -> 0 <= available m.
Proof. apply level_sum_nonneg. Qed.

Lemma erase_all_app ids1 ids2 index :
  erase_all (ids1 ++ ids2) index = erase_all ids2 (erase_all ids1 index).
Proof. unfold erase_all. apply foldl_app. Qed.

Lemma erase_all_subseteq ids index : erase_all ids index ⊆ index.
Proof.
  revert index. induction ids as [|id ids IH]; intros index; simpl; [done|].
  etrans; [apply IH|]. apply delete_subseteq.
Qed.

Section Exhaust.
Context {P : Type}.
Variables (side : Side) (marketId : OrderId).

Lemma for_level_exhaust price (level : list (Order P)) w :
  Forall (fun o : Order P => 0 <= remainingQty_ o < 2 ^ 32) level ->
  sum_Z (map remainingQty_ level) < w_qty w < 2 ^ 32 ->
  for_level side marketId price level w =
  Returned ([],
            mkWalk (w_qty w - sum_Z (map remainingQty_ level))
                   (erase_all (map id_ level) (w_index w))
                   (w_trades w ++
                    map (fun o => market_trade side marketId (id_ o) price
                                    (remainingQty_ o)) level)).
Proof.
  revert w. induction level as [|o rest IH]; intros [q index trades] Hr Hq;
    simpl in *.
  - by rewrite Z.sub_0_r, app_nil_r.
  - apply Forall_cons in Hr as [Ho Hr].
    pose proof (level_sum_nonneg rest Hr) as Hs.
    unfold sum_Z in Hq, Hs |- *. simpl in Hq.
    destruct (Z.gtb_spec q 0); [|lia].
    unfold getRemainingQty, getOrderId.
    rewrite (Z.min_r q (remainingQty_ o)) by lia.
    pose proof (fill_min (remainingQty_ o) o) as Hf.
    unfold getRemainingQty in Hf. rewrite Z.min_id in Hf. rewrite Hf. simpl.
    unfold isFilled. simpl. rewrite Z.sub_diag, wrap32_0. simpl.
    rewrite wrap32_id by lia.
    rewrite IH; simpl; [|done|unfold sum_Z; lia].
    rewrite <- app_assoc. simpl. do 3 f_equal. unfold sum_Z. lia.
Qed.

Lemma while_consume_exhaust fuel (opp : list (Price * list (Order P))) w :
  (length opp < fuel)%nat ->
  side_in_range opp ->
  available opp < w_qty w < 2 ^ 32 ->
  while_consume side marketId fuel opp w =
  Returned ([],
            mkWalk (w_qty w - available opp)
                   (erase_all (map id_ (orders_of opp)) (w_index w))
                   (w_trades w ++ sweep side marketId opp)).
Proof.
  revert opp w. induction fuel as [|fuel IH]; intros opp w Hlen Hr Hq; [lia|].
  destruct opp as [|[price level] others]; simpl.
  - unfold available in *. simpl in *.
    destruct w. simpl. by rewrite Z.sub_0_r, app_nil_r.
  - apply side_in_range_cons in Hr as [Hl Hr].
    rewrite available_cons in Hq |- *.
    pose proof (level_sum_nonneg level Hl).
    pose proof (available_nonneg others Hr).
    destruct (Z.gtb_spec (w_qty w) 0); [|lia].
    rewrite for_level_exhaust by (done || lia). simpl.
    rewrite IH; simpl in *; [|lia|done|lia].
    unfold orders_of. simpl. rewrite map_app, erase_all_app.
    rewrite <- app_assoc. do 3 f_equal. lia.
Qed.

Lemma consume_exhaust (opp : list (Price * list (Order P))) w :
  side_in_range opp ->
  available opp < w_qty w < 2 ^ 32 ->
  consume side marketId opp w =
  Returned ([],
            mkWalk (w_qty w - available opp)
                   (erase_all (map id_ (orders_of opp)) (w_index w))
                   (w_trades w ++ sweep side marketId opp)).
Proof. intros. apply while_consume_exhaust; [lia|done..]. Qed.

Lemma sweep_total (opp : list (Price * list (Order P))) :
  sum_Z (map trade_qty (sweep side marketId opp)) = available opp.
Proof.
  induction opp as [|[price level] others IH]; [done|].
  rewrite available_cons. unfold sweep in *. simpl.
  rewrite map_app, sum_Z_app, IH. f_equal.
  clear. induction level as [|o level IH]; [done|].
  simpl. unfold sum_Z in *. simpl. rewrite IH. f_equal.
  by destruct side.
Qed.
End Exhaust.

(** C7. A market order for more than the opposing side holds takes every
    resting order in full, best level first and front of the queue first:
    the trades returned are exactly that sweep and their quantities add up
    to the available quantity, the opposing side is left empty, the call
    returns (no error) and the rest of the market quantity is dropped; the
    own side is untouched and the index only loses the ids of the filled
    orders, so the market order enters neither ledger nor index. *)
Theorem market_order_exhausts_opposing_side (side : Side) (qty : Qty)
    (b : Basic.OrderBook) :
  side_in_range (BasicObs.opposing side b) ->
  qty < 2 ^ 32 ->
  available (BasicObs.opposing side b) < qty ->
  exists b',
    Basic.add_market side qty b =
      Returned (sweep side (Basic.nextOrderId_ b) (BasicObs.opposing side b), b') /\
    sum_Z (map trade_qty
             (sweep side (Basic.nextOrderId_ b) (BasicObs.opposing side b))) =
      available (BasicObs.opposing side b) /\
    BasicObs.opposing side b' = [] /\
    BasicObs.own side b' = BasicObs.own side b /\
    Basic.orderIdToIterator_ b' =
      erase_all (map id_ (orders_of (BasicObs.opposing side b)))
                (Basic.orderIdToIterator_ b) /\
    Basic.orderIdToIterator_ b' ⊆ Basic.orderIdToIterator_ b.
Proof.
  intros Hr Hq Ha.
  pose proof (available_nonneg _ Hr) as Hn.
  unfold Basic.add_market.
  destruct (Z.eqb_spec qty 0) as [->|_]; [lia|]. simpl.
  destruct side; simpl in *;
    (rewrite consume_exhaust by (done || (simpl; lia))); simpl;
    eexists; (split; [reflexivity|]); simpl;
    (split; [apply sweep_total|]);
    repeat split; apply erase_all_subseteq.
Qed.

Lemma market_order_exhausts_opposing_side_witness :
  side_in_range (BasicObs.opposing BUY Samples.asks60) /\
  100 < 2 ^ 32 /\
  available (BasicObs.opposing BUY Samples.asks60) = 60 /\
  exists b',
    Basic.add_market BUY 100 Samples.asks60 =
      Returned (sweep BUY 4 (Basic.asks_ Samples.asks60), b') /\
    sum_Z (map trade_qty (sweep BUY 4 (Basic.asks_ Samples.asks60))) = 60 /\
    Basic.asks_ b' = [] /\
    Basic.bids_ b' = Basic.bids_ Samples.asks60 /\
    Basic.orderIdToIterator_ b' =
      erase_all (map id_ (orders_of (Basic.asks_ Samples.asks60)))
                (Basic.orderIdToIterator_ Samples.asks60) /\
    Basic.orderIdToIterator_ b' ⊆ Basic.orderIdToIterator_ Samples.asks60.
Proof.
  assert (side_in_range (BasicObs.opposing BUY Samples.asks60)) as Hr.
  { unfold side_in_range. simpl. repeat constructor; simpl; lia. }
  split; [exact Hr|]. split; [lia|]. split; [reflexivity|].
  apply (market_order_exhausts_opposing_side BUY 100 Samples.asks60 Hr);
    [lia | vm_compute; reflexivity].
Defined.

(** ** Behaviour at concrete inputs *)

(** C1. In OrderBook.cpp, after a bid 10\@100 and then an ask 5\@90 are
    submitted to an empty book, both orders rest and the best bid (100) is
    above the best ask (90): [matchOrders] has an empty body.  In
    OrderBookOptimized.cpp the first limit order on an empty book makes
    [matchOrders] dereference [begin()] of the empty opposite map. *)
Theorem add_limit_leaves_book_crossed :
  best_price (Basic.bids_ Samples.bid100_ask90) = Some 100 /\
  best_price (Basic.asks_ Samples.bid100_ask90) = Some 90 /\
  crossed (Basic.asks_ Samples.bid100_ask90) (Basic.bids_ Samples.bid100_ask90) /\
  Optimized.add_limit BUY 100 10 Optimized.empty_book = Faulted DerefEnd.
Proof. repeat split. vm_compute. discriminate. Qed.

(** C2. In OrderBook.cpp a buy 10\@100 submitted against a resting ask
    10\@100 is not matched: the call yields no trades, the ask keeps its
    whole quantity and the buy rests in full at the back of its level and
    is indexed under the fresh id 2. *)
Theorem marketable_limit_is_not_matched :
  Basic.add_limit BUY 100 10 Samples.ask100 =
    (None,
     {| Basic.asks_ := [(100, [mkOrder 1 LIMIT SELL (Some 100) 10 10])];
        Basic.bids_ := [(100, [mkOrder 2 LIMIT BUY (Some 100) 10 10])];
        Basic.orderIdToIterator_ :=
          <[2 := mkHandle BUY 100 (NodeOf 2)]>
            (<[1 := mkHandle SELL 100 (NodeOf 1)]> ∅);
        Basic.nextOrderId_ := 3 |}).
Proof. vm_compute. reflexivity. Qed.

(** C5. In OrderBook.cpp [cancel] has an empty body: cancelling the
    resting order 1 leaves it in the ledger and in the index and reports
    nothing, as does cancelling any id on any book.  In
    OrderBookOptimized.cpp cancelling an id that is not indexed erases
    through the singular iterator of a freshly inserted handle. *)
Theorem cancel_does_not_remove :
  (forall id b, Basic.cancel id b = (None, b)) /\
  Basic.bids_ (Basic.cancel 1 Samples.bid100).2 =
    [(100, [mkOrder 1 LIMIT BUY (Some 100) 10 10])] /\
  Basic.orderIdToIterator_ (Basic.cancel 1 Samples.bid100).2 !! 1 =
    Some (mkHandle BUY 100 (NodeOf 1)) /\
  Optimized.cancel 42 Optimized.empty_book = Faulted BadIterator.
Proof. repeat split. Qed.

(** C8. A limit order of quantity 0 is not rejected: in OrderBook.cpp it
    is given id 1, rests at its price with remaining quantity 0 and is
    indexed; in OrderBookOptimized.cpp the pool path never runs the
    throwing constructor, which itself throws for every quantity.  A
    market order of quantity 0 returns no trades and leaves the book as it
    was, in both files. *)
Theorem zero_quantity_limit_is_accepted :
  Basic.add_limit BUY 100 0 Basic.empty_book =
    (None,
     {| Basic.asks_ := [];
        Basic.bids_ := [(100, [mkOrder 1 LIMIT BUY (Some 100) 0 0])];
        Basic.orderIdToIterator_ := <[1 := mkHandle BUY 100 (NodeOf 1)]> ∅;
        Basic.nextOrderId_ := 2 |}) /\
  Optimized.add_limit BUY 100 0 Optimized.empty_book = Faulted DerefEnd /\
  (forall side id type price qty,
     Optimized.Order_new side id type price qty =
     Faulted (LogicError "cannot create order with no quantity!")) /\
  (forall side b, Basic.add_market side 0 b = Returned ([], b)) /\
  (forall side b, Optimized.add_market side 0 b = Returned ([], b)).
Proof. repeat split. Qed.

(** C9. In OrderBookOptimized.cpp, [matchOrders] on a book with bid
    10\@100 (id 1) against ask 5\@100 (id 2) fills the ask and erases the
    bid's id: afterwards order 1 rests with remaining 5 and is not
    indexed, and id 2 is indexed with no order resting.  In OrderBook.cpp
    a limit order of quantity 0 is indexed while its remaining quantity
    is 0. *)
Theorem fill_erases_wrong_id :
  (exists trades b',
     Optimized.matchOrders OptimizedSamples.bid10_ask5 = Returned (trades, b') /\
     Optimized.bids_ b' = [(100, [mkOrder 1 LIMIT BUY 100 10 5])] /\
     Optimized.asks_ b' = [(110, [mkOrder 3 LIMIT SELL 110 1 1])] /\
     Optimized.orderIdToIterator_ b' !! 1 = None /\
     Optimized.orderIdToIterator_ b' !! 2 = Some (mkHandle SELL 100 (NodeOf 2))) /\
  Basic.orderIdToIterator_ Samples.zero_bid !! 1 =
    Some (mkHandle BUY 100 (NodeOf 1)) /\
  orders_of (Basic.bids_ Samples.zero_bid) = [mkOrder 1 LIMIT BUY (Some 100) 0 0].
Proof.
  split; [|by split].
  eexists _, _. split; [vm_compute; reflexivity|]. repeat split.
Qed.

(** ** The loops of [add_market] compute the walk over the flat queue *)
Section WalkFacts.
Context {P : Type}.
Variables (side : Side) (marketId : OrderId).

Lemma fills_stop q (queue : list (Price * Order P)) :
  (q >? 0) = false -> fills side marketId q queue = [].
Proof. intros H. destruct queue as [|[p o] rest]; simpl; [done | by rewrite H]. Qed.

Lemma leftover_stop q (queue : list (Order P)) :
  (q >? 0) = false -> leftover q queue = queue.
Proof. intros H. destruct queue; simpl; [done | by rewrite H]. Qed.

Lemma filled_ids_stop q (queue : list (Order P)) :
  (q >? 0) = false -> filled_ids q queue = [].
Proof. intros H. destruct queue; simpl; [done | by rewrite H]. Qed.

Lemma unspent_stop q (queue : list (Order P)) :
  (q >? 0) = false -> unspent q queue = q.
Proof. intros H. destruct queue; simpl; [done | by rewrite H]. Qed.

(** An order is left partly filled only when the market quantity is
    used up on it. *)
Lemma partial_uses_up q r :
  wrap32 (r - Z.min q r) <> 0 -> wrap32 (q - Z.min q r) = 0.
Proof.
  intros H. destruct (Z.min_spec q r) as [[_ E]|[_ E]]; rewrite E in *.
  - by rewrite Z.sub_diag.
  - rewrite Z.sub_diag in H. by destruct H.
Qed.

Lemma leftover_unspent q (queue : list (Order P)) :
  leftover q queue = [] \/ (unspent q queue >? 0) = false.
Proof.
  revert q. induction queue as [|o rest IH]; intros q; simpl; [by left|].
  destruct (q >? 0) eqn:Hq; [|by right].
  destruct (Z.eqb_spec (wrap32 (remainingQty_ o - Z.min q (remainingQty_ o))) 0)
    as [Hz|Hz]; [apply IH|].
  right. rewrite (partial_uses_up _ _ Hz). by rewrite unspent_stop.
Qed.

Lemma unspent_app q (l1 l2 : list (Order P)) :
  unspent q (l1 ++ l2) = unspent (unspent q l1) l2.
Proof.
  revert q. induction l1 as [|o l1 IH]; intros q; simpl; [done|].
  destruct (q >? 0) eqn:Hq; [apply IH|]. by rewrite unspent_stop.
Qed.

Lemma leftover_app q (l1 l2 : list (Order P)) :
  leftover q (l1 ++ l2) = leftover q l1 ++ leftover (unspent q l1) l2.
Proof.
  revert q. induction l1 as [|o l1 IH]; intros q; simpl; [done|].
  destruct (q >? 0) eqn:Hq.
  - destruct (_ =? 0); rewrite IH; done.
  - by rewrite leftover_stop.
Qed.

Lemma filled_ids_app q (l1 l2 : list (Order P)) :
  filled_ids q (l1 ++ l2) = filled_ids q l1 ++ filled_ids (unspent q l1) l2.
Proof.
  revert q. induction l1 as [|o l1 IH]; intros q; simpl; [done|].
  destruct (q >? 0) eqn:Hq.
  - destruct (_ =? 0); rewrite IH; done.
  - by rewrite filled_ids_stop.
Qed.

Lemma fills_app q (f1 f2 : list (Price * Order P)) :
  fills side marketId q (f1 ++ f2) =
  fills side marketId q f1 ++ fills side marketId (unspent q (map snd f1)) f2.
Proof.
  revert q. induction f1 as [|[p o] f1 IH]; intros q; simpl; [done|].
  destruct (q >? 0) eqn:Hq.
  - by rewrite IH.
  - by rewrite fills_stop.
Qed.

Lemma for_level_walk price (level : list (Order P)) w :
  for_level side marketId price level w =
  Returned (leftover (w_qty w) level,
            mkWalk (unspent (w_qty w) level)
                   (erase_all (filled_ids (w_qty w) level) (w_index w))
                   (w_trades w ++
                    fills side marketId (w_qty w) (map (pair price) level))).
Proof.
  revert w. induction level as [|o rest IH]; intros [q index trades]; simpl.
  - by rewrite app_nil_r.
  - destruct (q >? 0) eqn:Hq; [|by rewrite app_nil_r].
    rewrite fill_min. simpl. unfold isFilled, getOrderId. simpl.
    destruct (_ =? 0); rewrite IH; simpl; by rewrite <- app_assoc.
Qed.

Lemma orders_of_cons (price : Price) (level : list (Order P)) others :
  orders_of ((price, level) :: others) = level ++ orders_of others.
Proof. done. Qed.

Lemma map_snd_pair (price : Price) (level : list (Order P)) :
  map snd (map (pair price) level) = level.
Proof. induction level; simpl; congruence. Qed.

Lemma map_snd_priced_orders (m : list (Price * list (Order P))) :
  map snd (priced_orders m) = orders_of m.
Proof.
  induction m as [|[p l] m IH]; [done|].
  unfold priced_orders in *. simpl. rewrite map_app, IH, map_snd_pair. done.
Qed.

Lemma priced_orders_cons (price : Price) (level : list (Order P)) others :
  priced_orders ((price, level) :: others) =
  map (pair price) level ++ priced_orders others.
Proof. done. Qed.

(** The [while] loop, given fuel for one pass per level and the final
    test. *)
Lemma while_consume_walk fuel (opp : list (Price * list (Order P))) w :
  (length opp < fuel)%nat ->
  exists opp',
    while_consume side marketId fuel opp w =
    Returned (opp',
              mkWalk (unspent (w_qty w) (orders_of opp))
                     (erase_all (filled_ids (w_qty w) (orders_of opp)) (w_index w))
                     (w_trades w ++
                      fills side marketId (w_qty w) (priced_orders opp))) /\
    orders_of opp' = leftover (w_qty w) (orders_of opp).
Proof.
  revert opp w. induction fuel as [|fuel IH]; intros opp w Hlen; [lia|].
  destruct opp as [|[price level] others].
  - exists []. destruct w. simpl. by rewrite app_nil_r.
  - rewrite orders_of_cons, priced_orders_cons.
    cbn [while_consume]. destruct (w_qty w >? 0) eqn:Hq.
    + rewrite for_level_walk. cbn [mbind outcome_bind].
      rewrite unspent_app, leftover_app, filled_ids_app, fills_app,
        erase_all_app, map_snd_pair.
      destruct (leftover (w_qty w) level) as [|o' level'] eqn:Hl.
      * destruct (IH others
                    (mkWalk (unspent (w_qty w) level)
                       (erase_all (filled_ids (w_qty w) level) (w_index w))
                       (w_trades w ++
                        fills side marketId (w_qty w) (map (pair price) level))))
          as (opp' & -> & Ho); [simpl in Hlen; lia|].
        exists opp'. simpl in *. split; [|done]. by rewrite <- (assoc_L (++)).
      * destruct (leftover_unspent (w_qty w) level) as [E|E]; [congruence|].
        exists ((price, o' :: level') :: others).
        rewrite (unspent_stop (unspent (w_qty w) level)),
          (leftover_stop (unspent (w_qty w) level)),
          (filled_ids_stop (unspent (w_qty w) level)),
          (fills_stop (unspent (w_qty w) level)) by done.
        destruct fuel; simpl; rewrite E; simpl;
          unfold erase_all; simpl; by rewrite !app_nil_r.
    + exists ((price, level) :: others).
      rewrite unspent_stop, leftover_stop, filled_ids_stop, fills_stop by done.
      destruct w. simpl. by rewrite app_nil_r.
Qed.

Lemma consume_walk (opp : list (Price * list (Order P))) w :
  exists opp',
    consume side marketId opp w =
    Returned (opp',
              mkWalk (unspent (w_qty w) (orders_of opp))
                     (erase_all (filled_ids (w_qty w) (orders_of opp)) (w_index w))
                     (w_trades w ++
                      fills side marketId (w_qty w) (priced_orders opp))) /\
    orders_of opp' = leftover (w_qty w) (orders_of opp).
Proof. apply while_consume_walk. lia. Qed.
End WalkFacts.

(** ** [add_market] in terms of the walk *)

Lemma basic_add_market_walk side qty b :
  qty <> 0 ->
  exists b',
    Basic.add_market side qty b =
      Returned (fills side (Basic.nextOrderId_ b) qty
                  (priced_orders (BasicObs.opposing side b)), b') /\
    orders_of (BasicObs.opposing side b') =
      leftover qty (orders_of (BasicObs.opposing side b)) /\
    BasicObs.own side b' = BasicObs.own side b /\
    Basic.orderIdToIterator_ b' =
      erase_all (filled_ids qty (orders_of (BasicObs.opposing side b)))
                (Basic.orderIdToIterator_ b) /\
    Basic.nextOrderId_ b' = wrap64 (Basic.nextOrderId_ b + 1).
Proof.
  intros Hq. unfold Basic.add_market.
  destruct (Z.eqb_spec qty 0) as [|_]; [done|]. simpl.
  destruct side; simpl;
    match goal with
    | |- context [consume ?s ?m ?o ?w] =>
        destruct (consume_walk s m o w) as (opp' & -> & Ho)
    end; simpl in *; eauto 10.
Qed.

Lemma optimized_add_market_walk side qty b :
  qty <> 0 ->
  exists b',
    Optimized.add_market side qty b =
      Returned (fills side (Optimized.nextOrderId_ b) qty
                  (priced_orders (OptimizedObs.opposing side b)), b') /\
    orders_of (OptimizedObs.opposing side b') =
      leftover qty (orders_of (OptimizedObs.opposing side b)) /\
    OptimizedObs.own side b' = OptimizedObs.own side b /\
    Optimized.orderIdToIterator_ b' =
      erase_all (filled_ids qty (orders_of (OptimizedObs.opposing side b)))
                (Optimized.orderIdToIterator_ b).
Proof.
  intros Hq. unfold Optimized.add_market.
  destruct (Z.eqb_spec qty 0) as [|_]; [done|]. simpl.
  destruct side; simpl;
    match goal with
    | |- context [consume ?s ?m ?o ?w] =>
        destruct (consume_walk s m o w) as (opp' & -> & Ho)
    end; simpl in *; eauto 10.
Qed.

(** ** Prices on the legs of a trade *)

Lemma market_trade_prices side marketId restingId price exec :
  ti_price (getBuy (market_trade side marketId restingId price exec)) = price /\
  ti_price (getSell (market_trade side marketId restingId price exec)) = price /\
  resting_id side (market_trade side marketId restingId price exec) = restingId.
Proof. by destruct side. Qed.

Lemma elem_of_fills {P : Type} side marketId q (queue : list (Price * Order P)) t :
  t ∈ fills side marketId q queue ->
  exists price o exec,
    (price, o) ∈ queue /\ t = market_trade side marketId (id_ o) price exec.
Proof.
  revert q. induction queue as [|[p o] rest IH]; intros q; simpl.
  - by intros ?%elem_of_nil.
  - destruct (q >? 0); [|by intros ?%elem_of_nil].
    intros [->|Hin]%elem_of_cons.
    + eexists p, o, _. split; [left|done].
    + destruct (IH _ Hin) as (p' & o' & e & ? & ->).
      eexists p', o', e. split; [by right|done].
Qed.

Lemma elem_of_priced_orders {P : Type} (m : list (Price * list (Order P))) price o :
  (price, o) ∈ priced_orders m <-> exists level, (price, level) ∈ m /\ o ∈ level.
Proof.
  unfold priced_orders. rewrite list_elem_of_In, in_flat_map. split.
  - intros ([p l] & Hin & Ho). simpl in Ho.
    apply in_map_iff in Ho as (o' & [= -> ->] & Ho).
    exists l. by rewrite !list_elem_of_In.
  - intros (l & Hin & Ho). exists (price, l). rewrite <- !list_elem_of_In.
    split; [done|]. simpl. apply list_elem_of_In, in_map_iff.
    exists o. by rewrite <- list_elem_of_In.
Qed.

Lemma elem_of_orders_of {P : Type} (m : list (Price * list (Order P))) o :
  o ∈ orders_of m <-> exists price level, (price, level) ∈ m /\ o ∈ level.
Proof.
  unfold orders_of. rewrite list_elem_of_In, in_concat. split.
  - intros (l & Hl & Ho). apply in_map_iff in Hl as ([p l'] & <- & Hl).
    exists p, l'. by rewrite !list_elem_of_In.
  - intros (p & l & Hin & Ho). exists l. rewrite <- !list_elem_of_In.
    split; [|done]. apply list_elem_of_In, in_map_iff.
    exists (p, l). by rewrite <- list_elem_of_In.
Qed.

(** ** The crossing loop of OrderBookOptimized.cpp *)

Lemma fill_le {P : Type} (exec : Qty) (o : Order P) :
  exec <= remainingQty_ o ->
  fill exec o = Returned (set_remaining o (wrap32 (remainingQty_ o - exec))).
Proof.
  intros H. unfold fill.
  destruct (Z.gtb_spec exec (remainingQty_ o)); [lia | done].
Qed.

Lemma less_irrefl k : less k k = false.
Proof. apply Z.ltb_irrefl. Qed.

Lemma greater_irrefl k : greater k k = false.
Proof. unfold greater. rewrite Z.gtb_ltb. apply Z.ltb_irrefl. Qed.

Section HeadOfMap.
Context {L : Type}.
Variable before : Price -> Price -> bool.
Hypothesis before_irrefl : forall k, before k k = false.

Lemma at_key_head k (f : L -> L) l (m : list (Price * L)) :
  at_key before k f ((k, l) :: m) = (k, f l) :: m.
Proof. simpl. by rewrite before_irrefl. Qed.

Lemma erase_key_head k (l : L) (m : list (Price * L)) :
  erase_key before k ((k, l) :: m) = m.
Proof. simpl. by rewrite before_irrefl. Qed.
End HeadOfMap.

Lemma orders_of_after_fill {P : Type} best (front : Order P) queue others :
  orders_of (after_fill best front queue others) =
  (if isFilled front then [] else [front]) ++ queue ++ orders_of others.
Proof.
  unfold after_fill. destruct (isFilled front); [|done].
  by destruct queue.
Qed.

Lemma match_step_next c c' :
  Optimized.match_step c = Returned (inr c') ->
  exists bestAsk ask asks_tl arest bestBid bid bids_tl brest,
    Optimized.c_asks c = (bestAsk, ask :: asks_tl) :: arest /\
    Optimized.c_bids c = (bestBid, bid :: bids_tl) :: brest /\
    bestAsk <= bestBid /\
    let exec := Z.min (remainingQty_ bid) (remainingQty_ ask) in
    let bid' := set_remaining bid (wrap32 (remainingQty_ bid - exec)) in
    let ask' := set_remaining ask (wrap32 (remainingQty_ ask - exec)) in
    Optimized.c_asks c' = after_fill bestAsk ask' asks_tl arest /\
    Optimized.c_bids c' = after_fill bestBid bid' bids_tl brest /\
    Optimized.c_index c' =
      (if isFilled ask' then delete (id_ bid) else fun m => m)
        ((if isFilled bid' then delete (id_ bid) else fun m => m)
           (Optimized.c_index c)) /\
    Optimized.c_trades c' =
      Optimized.c_trades c ++
      [mkTrade (mkTradeInfo (id_ bid) (price_ bid) exec)
               (mkTradeInfo (id_ ask) (price_ ask) exec)].
Proof.
  unfold Optimized.match_step.
  destruct (Optimized.c_asks c) as [|[bestAsk [|ask asks_tl]] arest] eqn:Ha;
    destruct (Optimized.c_bids c) as [|[bestBid [|bid bids_tl]] brest] eqn:Hb;
    try discriminate;
    destruct (Z.gtb_spec bestAsk bestBid) as [|Hle]; try discriminate.
  unfold getRemainingQty, getOrderId, getPrice.
  rewrite (fill_le _ bid), (fill_le _ ask) by lia.
  cbn [mbind outcome_bind].
  destruct (isFilled (set_remaining bid _)) eqn:Hfb;
    destruct (isFilled (set_remaining ask _)) eqn:Hfa;
    intros [= <-];
    exists bestAsk, ask, asks_tl, arest, bestBid, bid, bids_tl, brest;
    (split; [done|]); (split; [done|]); (split; [done|]);
    cbn zeta; unfold after_fill; rewrite Hfb, Hfa; simpl;
    rewrite ?less_irrefl, ?greater_irrefl;
    destruct asks_tl, bids_tl; simpl;
    rewrite ?less_irrefl, ?greater_irrefl; done.
Qed.

Lemma match_step_break c c' :
  Optimized.match_step c = Returned (inl c') -> c' = c.
Proof.
  unfold Optimized.match_step.
  destruct (Optimized.c_asks c) as [|[bestAsk asks] arest]; [done|].
  destruct (Optimized.c_bids c) as [|[bestBid bids] brest]; [done|].
  destruct (bestAsk >? bestBid); [congruence|].
  destruct bids as [|bid bids_tl]; [done|].
  destruct asks as [|ask asks_tl]; [done|].
  unfold getRemainingQty.
  rewrite (fill_le _ bid), (fill_le _ ask) by lia. simpl.
  repeat match goal with |- context [if ?x then _ else _] => destruct x end;
    discriminate.
Qed.

(** Induction over the passes of the loop. *)
Lemma match_loop_invariant (Inv : Optimized.crossing -> Prop) :
  (forall c c', Inv c -> Optimized.match_step c = Returned (inr c') -> Inv c') ->
  forall fuel c c',
    Inv c -> Optimized.match_loop fuel c = Returned c' -> Inv c'.
Proof.
  intros Hstep. induction fuel as [|fuel IH]; intros c c' HI; simpl;
    destruct (Optimized.match_step c) as [[c1|c1]|] eqn:Hs; simpl;
    try discriminate.
  - apply match_step_break in Hs as ->. by intros [= <-].
  - apply match_step_break in Hs as ->. by intros [= <-].
  - apply IH. eauto.
Qed.

Lemma same_order_refl {P : Type} (o : Order P) : same_order o o.
Proof. by unfold same_order. Qed.

Lemma same_order_set_remaining {P : Type} (o : Order P) q :
  same_order (set_remaining o q) o.
Proof. by unfold same_order. Qed.

(** The orders of a side after one pass descend from those before it. *)
Lemma after_fill_descend {P : Type} (Q : Order P -> Prop) best front front'
    queue others :
  (Q front -> Q front') ->
  Forall Q (orders_of ((best, front :: queue) :: others)) ->
  Forall Q (orders_of (after_fill best front' queue others)).
Proof.
  intros Hf. rewrite orders_of_after_fill, orders_of_cons. simpl.
  intros [Hq Hrest]%Forall_cons.
  destruct (isFilled front'); simpl; [done|].
  apply Forall_cons. auto.
Qed.

Lemma matchOrders_trades b trades b' :
  Optimized.matchOrders b = Returned (trades, b') ->
  Forall (crossing_trade (Optimized.bids_ b) (Optimized.asks_ b)) trades.
Proof.
  unfold Optimized.matchOrders.
  destruct (Optimized.match_loop _ _) as [c|] eqn:Hloop; [|done].
  simpl. intros [= <- <-].
  set (from := fun (m : list (Price * list (Order Price))) (o' : Order Price) =>
                 exists o, o ∈ orders_of m /\ same_order o' o).
  pose (Inv := fun c : Optimized.crossing =>
          Forall (from (Optimized.bids_ b)) (orders_of (Optimized.c_bids c)) /\
          Forall (from (Optimized.asks_ b)) (orders_of (Optimized.c_asks c)) /\
          Forall (crossing_trade (Optimized.bids_ b) (Optimized.asks_ b))
                 (Optimized.c_trades c)).
  cut (Inv c); [by intros (_ & _ & ?)|].
  eapply (match_loop_invariant Inv); [|..|exact Hloop].
  - clear. intros c c' (Hb & Ha & Ht) Hs.
    apply match_step_next in Hs
      as (bestAsk & ask & asks_tl & arest & bestBid & bid & bids_tl & brest
          & Ea & Eb & _ & Ea' & Eb' & _ & Et).
    rewrite Ea in Ha. rewrite Eb in Hb. unfold Inv. rewrite Ea', Eb', Et.
    assert (from (Optimized.bids_ b) bid) as (bid0 & Hbid0 & Sb).
    { rewrite orders_of_cons in Hb. simpl in Hb. by apply Forall_cons in Hb as [? _]. }
    assert (from (Optimized.asks_ b) ask) as (ask0 & Hask0 & Sa).
    { rewrite orders_of_cons in Ha. simpl in Ha. by apply Forall_cons in Ha as [? _]. }
    split; [|split].
    + eapply after_fill_descend; [|exact Hb].
      intros (o & ? & ?). exists o. split; [done|].
      unfold same_order in *. simpl. done.
    + eapply after_fill_descend; [|exact Ha].
      intros (o & ? & ?). exists o. split; [done|].
      unfold same_order in *. simpl. done.
    + apply Forall_app. split; [done|]. apply Forall_singleton.
      exists bid0, ask0. unfold same_order in *. simpl. intuition congruence.
  - unfold Inv. simpl. repeat split; [| |done].
    + apply Forall_forall. intros o Ho. exists o. split; [done|apply same_order_refl].
    + apply Forall_forall. intros o Ho. exists o. split; [done|apply same_order_refl].
Qed.

Lemma add_market_zero_basic side qty b :
  qty = 0 -> Basic.add_market side qty b = Returned ([], b).
Proof. by intros ->. Qed.

Lemma add_market_zero_optimized side qty b :
  qty = 0 -> Optimized.add_market side qty b = Returned ([], b).
Proof. by intros ->. Qed.

(** ** Price-time priority of the walk *)

Lemma map_fmap {A B : Type} (f : A -> B) (l : list A) : map f l = f <$> l.
Proof. reflexivity. Qed.

Lemma priced_orders_app {P : Type} (m1 m2 : list (Price * list (Order P))) :
  priced_orders (m1 ++ m2) = priced_orders m1 ++ priced_orders m2.
Proof. unfold priced_orders. by rewrite !flat_map_concat_map, map_app, concat_app. Qed.

Section Priority.
Context {P : Type}.
Variables (side : Side) (marketId : OrderId).

(** The k-th trade is made with the k-th order of the queue. *)
Lemma fills_lookup q (queue : list (Price * Order P)) k t :
  fills side marketId q queue !! k = Some t ->
  exists price o exec,
    queue !! k = Some (price, o) /\
    t = market_trade side marketId (id_ o) price exec.
Proof.
  revert q k. induction queue as [|[p o] rest IH]; intros q k; simpl; [done|].
  destruct (q >? 0); [|done].
  destruct k as [|k]; simpl.
  - intros [= <-]. eauto.
  - apply IH.
Qed.

(** What the walk leaves descends from the queue. *)
Lemma leftover_descend q (queue : list (Order P)) o' :
  o' ∈ leftover q queue -> exists o, o ∈ queue /\ same_order o' o.
Proof.
  revert q. induction queue as [|o rest IH]; intros q; simpl.
  - by intros ?%elem_of_nil.
  - destruct (q >? 0).
    + destruct (_ =? 0).
      * intros (o0 & ? & ?)%IH. exists o0. split; [by right|done].
      * intros [->|(o0 & ? & ?)%IH]%elem_of_cons.
        -- exists o. split; [left|apply same_order_set_remaining].
        -- exists o0. split; [by right|done].
    + intros H. exists o'. split; [done|apply same_order_refl].
Qed.

(** A trade that is followed by another one fills its order in full, and
    that order is not left in the ledger. *)
Lemma fills_earlier_full q (queue : list (Price * Order P)) k j :
  walk_in_range q (map snd queue) ->
  (k < j)%nat ->
  is_Some (fills side marketId q queue !! j) ->
  exists price o,
    queue !! k = Some (price, o) /\
    fills side marketId q queue !! k =
      Some (market_trade side marketId (id_ o) price (remainingQty_ o)) /\
    (NoDup (map id_ (map snd queue)) ->
     id_ o ∉ map id_ (leftover q (map snd queue))).
Proof.
  revert q k j. induction queue as [|[p o] rest IH]; intros q k j [Hq Hr] Hkj;
    simpl; [by intros [? ?]|].
  simpl in Hr. apply Forall_cons in Hr as [Ho Hr].
  destruct (Z.gtb_spec q 0) as [Hpos|]; [|by intros [? ?]].
  destruct j as [|j]; [lia|]. simpl. intros Hj.
  assert (remainingQty_ o < q) as Hlt.
  { destruct (decide (remainingQty_ o < q)) as [|Hge]; [done|].
    rewrite Z.min_l, Z.sub_diag, wrap32_0 in Hj by lia.
    rewrite fills_stop in Hj by done. by destruct Hj. }
  rewrite Z.min_r in Hj |- * by lia.
  rewrite Z.sub_diag, wrap32_0. simpl.
  rewrite wrap32_id in Hj |- * by lia.
  destruct k as [|k]; simpl.
  - exists p, o. split; [done|]. split; [done|].
    intros [Hnotin _]%NoDup_cons. intros Hin. apply Hnotin.
    rewrite map_fmap in Hin. apply list_elem_of_fmap in Hin as (o' & E & Hin).
    apply leftover_descend in Hin as (o0 & Hin & S0).
    rewrite map_fmap. apply list_elem_of_fmap. exists o0.
    split; [|done]. destruct S0 as [S0 _]. congruence.
  - destruct (IH (q - remainingQty_ o) k j) as (p' & o' & E1 & E2 & E3);
      [split; [lia|done] | lia | done |].
    exists p', o'. split; [done|]. split; [done|].
    intros [_ Hnd]%NoDup_cons. auto.
Qed.
End Priority.

(** Two orders [A] and [B] rest in one level of the side a market order
    trades against, [A] ahead of [B] in the queue.  Whenever the call makes
    a trade with [B], it has made before it the trade that fills [A] for
    its whole remaining quantity, and [A] does not rest in the book the
    call leaves. *)
Lemma fifo_in_queue (side : Side) (qty : Qty) (b b' : Basic.OrderBook)
    (trades pre post : list Trade) (tB : Trade) (price : Price)
    (A B : Order (option Price)) (qa qb qc : list (Order (option Price))) :
  side_in_range (BasicObs.opposing side b) ->
  0 <= qty < 2 ^ 32 ->
  NoDup (map id_ (orders_of (BasicObs.opposing side b))) ->
  (price, qa ++ A :: qb ++ B :: qc) ∈ BasicObs.opposing side b ->
  Basic.add_market side qty b = Returned (trades, b') ->
  trades = pre ++ tB :: post ->
  resting_id side tB = id_ B ->
  market_trade side (Basic.nextOrderId_ b) (id_ A) price (remainingQty_ A) ∈ pre /\
  id_ A ∉ map id_ (orders_of (BasicObs.opposing side b')).
Proof.
  intros Hr Hq Hnd Hlevel Hm -> HB.
  destruct (decide (qty = 0)) as [Hz|Hz].
  { rewrite add_market_zero_basic in Hm by done. injection Hm as Hm _.
    by destruct pre. }
  destruct (basic_add_market_walk side qty b Hz) as (b1 & E & Hleft & _).
  rewrite E in Hm. injection Hm as Hfills <-.
  set (mid := Basic.nextOrderId_ b) in *.
  set (opp := BasicObs.opposing side b) in *.
  apply list_elem_of_split in Hlevel as (o1 & o2 & Hopp).
  set (F1 := priced_orders o1 ++ map (pair price) qa).
  set (F3 := map (pair price) qc ++ priced_orders o2).
  assert (priced_orders opp =
          F1 ++ (price, A) :: map (pair price) qb ++ (price, B) :: F3) as Hflat.
  { rewrite Hopp, priced_orders_app, priced_orders_cons. unfold F1, F3.
    rewrite !map_app. simpl. rewrite map_app. simpl.
    by repeat (rewrite <- app_assoc; simpl). }
  assert (priced_orders opp !! length F1 = Some (price, A)) as HA.
  { rewrite Hflat. apply list_lookup_middle. done. }
  assert (priced_orders opp !! (length F1 + S (length qb))%nat = Some (price, B))
    as HB'.
  { rewrite Hflat, lookup_app_r by lia.
    replace (length F1 + S (length qb) - length F1)%nat with (S (length qb)) by lia.
    simpl. apply list_lookup_middle. by rewrite length_map. }
  assert (fills side mid qty (priced_orders opp) !! length pre = Some tB) as HtB.
  { rewrite Hfills. by apply list_lookup_middle. }
  destruct (fills_lookup _ _ _ _ _ _ HtB) as (p' & o' & e & Hlook & ->).
  destruct (market_trade_prices side mid (id_ o') p' e) as (_ & _ & Hid).
  rewrite Hid in HB.
  rewrite <- map_snd_priced_orders in Hnd.
  assert (length pre = (length F1 + S (length qb))%nat) as Hpos.
  { eapply (NoDup_lookup _ _ _ (id_ B)); [exact Hnd|..];
      rewrite !map_fmap, !list_lookup_fmap.
    - by rewrite Hlook; simpl; rewrite HB.
    - by rewrite HB'. }
  destruct (fills_earlier_full side mid qty (priced_orders opp)
              (length F1) (length pre)) as (p'' & o'' & E1 & E2 & E3).
  { split; [done|]. by rewrite map_snd_priced_orders. }
  { lia. }
  { eauto. }
  rewrite HA in E1. injection E1 as <- <-.
  split.
  - eapply list_elem_of_lookup_2 with (i := length F1).
    rewrite <- E2, Hfills. symmetry. apply lookup_app_l. lia.
  - rewrite Hleft, <- map_snd_priced_orders. by apply E3.
Qed.


(** ** Conservation of quantity *)

Lemma leg_qty_market_trade id side marketId restingId price exec :
  leg_qty id (market_trade side marketId restingId price exec) =
  (if marketId =? id then exec else 0) + (if restingId =? id then exec else 0).
Proof. destruct side; unfold leg_qty; simpl; lia. Qed.

Lemma traded_app id t1 t2 : traded id (t1 ++ t2) = traded id t1 + traded id t2.
Proof. unfold traded. by rewrite map_app, sum_Z_app. Qed.

Lemma resting_qty_app {P : Type} id (l1 l2 : list (Order P)) :
  resting_qty id (l1 ++ l2) = resting_qty id l1 + resting_qty id l2.
Proof. unfold resting_qty. by rewrite map_app, sum_Z_app. Qed.

Lemma initial_qty_app id l1 l2 :
  initial_qty id (l1 ++ l2) = initial_qty id l1 + initial_qty id l2.
Proof. unfold initial_qty. by rewrite map_app, sum_Z_app. Qed.

Lemma resting_qty_nonneg {P : Type} id (queue : list (Order P)) :
  Forall order_ok queue -> 0 <= resting_qty id queue.
Proof.
  intros H. apply sum_Z_nonneg, Forall_map.
  eapply Forall_impl; [exact H|]. intros o [? ?]. simpl.
  destruct (id_ o =? id); lia.
Qed.

Lemma resting_qty_cons {P : Type} id (o : Order P) queue :
  resting_qty id (o :: queue) =
  (if id_ o =? id then remainingQty_ o else 0) + resting_qty id queue.
Proof. done. Qed.

Lemma initial_qty_singleton id i q :
  initial_qty id [(i, q)] = if i =? id then q else 0.
Proof. unfold initial_qty, sum_Z. simpl. destruct (i =? id); lia. Qed.

Section Conserve.
Context {P : Type}.
Variables (side : Side) (marketId : OrderId).

(** What the trades of a walk record for an id is what the resting orders
    of that id lose, plus what the market order spends when the id is
    its own. *)
Lemma fills_conserve id q (queue : list (Price * Order P)) :
  walk_in_range q (map snd queue) ->
  0 <= unspent q (map snd queue) <= q /\
  0 <= traded id (fills side marketId q queue) /\
  traded id (fills side marketId q queue) +
    resting_qty id (leftover q (map snd queue)) =
  (if marketId =? id then q - unspent q (map snd queue) else 0) +
    resting_qty id (map snd queue).
Proof.
  revert q. induction queue as [|[p o] rest IH]; intros q [Hq Hr]; simpl.
  - unfold traded, resting_qty, sum_Z. simpl. destruct (marketId =? id); lia.
  - simpl in Hr. apply Forall_cons in Hr as [Ho Hr].
    destruct (Z.gtb_spec q 0) as [Hpos|Hnp].
    + set (exec := Z.min q (remainingQty_ o)).
      assert (0 <= exec <= q /\ exec <= remainingQty_ o) as He by (unfold exec; lia).
      rewrite (wrap32_id (q - exec)), (wrap32_id (remainingQty_ o - exec)) by lia.
      destruct (IH (q - exec)) as (Hu & Ht & Hc); [split; [lia|done]|].
      split; [lia|].
      change (traded id (?t :: ?ts)) with (leg_qty id t + traded id ts).
      rewrite leg_qty_market_trade.
      assert (resting_qty id
                (if remainingQty_ o - exec =? 0
                 then leftover (q - exec) (map snd rest)
                 else set_remaining o (remainingQty_ o - exec)
                        :: leftover (q - exec) (map snd rest)) =
              (if id_ o =? id then remainingQty_ o - exec else 0) +
              resting_qty id (leftover (q - exec) (map snd rest))) as ->.
      { destruct (Z.eqb_spec (remainingQty_ o - exec) 0) as [E|E].
        - rewrite E. destruct (id_ o =? id); lia.
        - done. }
      change (resting_qty id (o :: map snd rest))
        with ((if id_ o =? id then remainingQty_ o else 0) +
              resting_qty id (map snd rest)).
      destruct (marketId =? id), (id_ o =? id); lia.
    + assert (q = 0) as -> by lia.
      change (traded id []) with 0.
      destruct (marketId =? id); lia.
Qed.

Lemma leftover_ok q (queue : list (Order P)) :
  0 <= q < 2 ^ 32 ->
  Forall order_ok queue -> Forall order_ok (leftover q queue).
Proof.
  revert q. induction queue as [|o rest IH]; intros q Hq Hr; simpl; [done|].
  apply Forall_cons in Hr as [[Ho Hi] Hr].
  destruct (Z.gtb_spec q 0) as [Hpos|Hnp]; [|by apply Forall_cons].
  set (exec := Z.min q (remainingQty_ o)).
  assert (0 <= exec <= q /\ exec <= remainingQty_ o) as He by (unfold exec; lia).
  rewrite (wrap32_id (q - exec)), (wrap32_id (remainingQty_ o - exec)) by lia.
  destruct (_ =? 0); [apply IH; [lia|done]|].
  apply Forall_cons. split; [|apply IH; [lia|done]].
  unfold order_ok. simpl. lia.
Qed.

Lemma fills_legs_agree q (queue : list (Price * Order P)) :
  Forall legs_agree (fills side marketId q queue).
Proof.
  apply Forall_forall. intros t (p & o & e & _ & ->)%elem_of_fills.
  by destruct side.
Qed.
End Conserve.

Lemma sum_Z_perm l1 l2 : l1 ≡ₚ l2 -> sum_Z l1 = sum_Z l2.
Proof. unfold sum_Z. induction 1; simpl; lia. Qed.

Lemma resting_qty_perm {P : Type} id (l1 l2 : list (Order P)) :
  l1 ≡ₚ l2 -> resting_qty id l1 = resting_qty id l2.
Proof. intros H. apply sum_Z_perm. by apply Permutation_map. Qed.

(** [m[price].push_back(o)] adds [o] to the orders of the side. *)
Lemma push_back_perm {P : Type} before price (o : Order P)
    (m : list (Price * list (Order P))) :
  (forall k, before k k = false) ->
  orders_of (at_key before price (fun l => l ++ [o])
               (subscript before [] price m)) ≡ₚ o :: orders_of m.
Proof.
  intros Hirr. induction m as [|[k l] m IH]; simpl.
  - by rewrite Hirr.
  - destruct (before price k) eqn:E1; simpl.
    + by rewrite Hirr.
    + destruct (before k price) eqn:E2; simpl; rewrite E1, E2.
      * rewrite !orders_of_cons, IH. by rewrite Permutation_middle.
      * rewrite !orders_of_cons. rewrite <- app_assoc. simpl.
        by rewrite <- Permutation_middle.
Qed.

Lemma add_limit_resting side price qty b :
  resting_orders (Basic.add_limit side price qty b).2 ≡ₚ
    mkOrder (Basic.nextOrderId_ b) LIMIT side (Some price) qty qty
      :: resting_orders b /\
  Basic.nextOrderId_ (Basic.add_limit side price qty b).2 =
    wrap64 (Basic.nextOrderId_ b + 1).
Proof.
  unfold Basic.add_limit, Basic.matchOrders, resting_orders.
  destruct side; simpl; (split; [|done]).
  - rewrite (push_back_perm greater) by apply greater_irrefl.
    by rewrite <- Permutation_middle.
  - by rewrite (push_back_perm less) by apply less_irrefl.
Qed.

Lemma resting_orders_sides side b :
  resting_orders b ≡ₚ
    orders_of (BasicObs.opposing side b) ++ orders_of (BasicObs.own side b).
Proof.
  unfold resting_orders. destruct side; simpl; [done|].
  apply Permutation_app_comm.
Qed.

Lemma wrap64_id z : 0 <= z < 2 ^ 64 -> wrap64 z = z.
Proof. intros. unfold wrap64. by apply Z.mod_small. Qed.

Lemma serve_conserved n r h :
  request_in_range r -> conserved (S n) h ->
  exists h', serve r h = Returned h' /\ conserved n h'.
Proof.
  intros Hr ((Hn1 & Hn2) & Hids & Hnd & Hsum & Hok & Hlegs).
  destruct r as [side price qty|side qty|id]; simpl in Hr.
  - (* add_limit *)
    unfold serve.
    destruct (Basic.add_limit side price qty (hist_book h)) as [r b'] eqn:E.
    destruct (add_limit_resting side price qty (hist_book h)) as [Hperm Hnext].
    rewrite E in Hperm, Hnext. simpl in Hperm, Hnext.
    rewrite wrap64_id in Hnext by lia.
    eexists. split; [done|]. unfold conserved. simpl. rewrite Hnext.
    split; [lia|]. split; [|split; [|split; [|split]]].
    + apply Forall_app. split.
      * eapply Forall_impl; [exact Hids|]. simpl. lia.
      * apply Forall_singleton. simpl. lia.
    + rewrite map_app. simpl. apply NoDup_app. split; [done|].
      split; [|apply NoDup_singleton].
      intros i Hi ->%list_elem_of_singleton.
      rewrite map_fmap in Hi. apply list_elem_of_fmap in Hi as (iq & E' & Hi).
      rewrite Forall_forall in Hids. specialize (Hids _ Hi). lia.
    + intros id. destruct (Hsum id) as [H0 H1]. split; [done|].
      rewrite (resting_qty_perm _ _ _ Hperm), initial_qty_app.
      rewrite resting_qty_cons, initial_qty_singleton. simpl.
      destruct (_ =? id); lia.
    + rewrite Hperm. apply Forall_cons. split; [|done].
      unfold order_ok. simpl. lia.
    + done.
  - (* add_market *)
    unfold serve.
    destruct (Z.eqb_spec qty 0) as [->|Hz].
    { rewrite add_market_zero_basic by done. simpl.
      eexists. split; [done|]. unfold conserved. simpl.
      rewrite !app_nil_r. repeat split; try done; try lia. apply Hsum. apply Hsum. }
    destruct (basic_add_market_walk side qty (hist_book h) Hz)
      as (b' & -> & Hleft & Hown & _ & Hnext).
    rewrite wrap64_id in Hnext by lia. simpl.
    eexists. split; [done|]. unfold conserved. simpl. rewrite Hnext.
    pose proof (resting_orders_sides side (hist_book h)) as Hp.
    pose proof (resting_orders_sides side b') as Hp'.
    rewrite Hleft, Hown in Hp'.
    rewrite Hp in Hok. apply Forall_app in Hok as [Hopp Hown'].
    assert (walk_in_range qty
              (map snd (priced_orders (BasicObs.opposing side (hist_book h)))))
      as Hrange.
    { split; [done|]. rewrite map_snd_priced_orders.
      eapply Forall_impl; [exact Hopp|]. intros o [? ?]. simpl. lia. }
    split; [lia|]. split; [|split; [|split; [|split]]].
    + apply Forall_app. split.
      * eapply Forall_impl; [exact Hids|]. simpl. lia.
      * apply Forall_singleton. simpl. lia.
    + rewrite map_app. simpl. apply NoDup_app. split; [done|].
      split; [|apply NoDup_singleton].
      intros i Hi ->%list_elem_of_singleton.
      rewrite map_fmap in Hi. apply list_elem_of_fmap in Hi as (iq & E' & Hi).
      rewrite Forall_forall in Hids. specialize (Hids _ Hi). lia.
    + intros id. destruct (Hsum id) as [H0 H1].
      destruct (fills_conserve side (Basic.nextOrderId_ (hist_book h)) id qty
                  _ Hrange) as (Hu & Ht & Hc).
      rewrite map_snd_priced_orders in Hu, Hc.
      rewrite traded_app, initial_qty_app.
      rewrite (resting_qty_perm _ _ _ Hp'), resting_qty_app.
      rewrite (resting_qty_perm _ _ _ Hp), resting_qty_app in H1.
      rewrite initial_qty_singleton.
      split; [lia|].
      destruct (_ =? id); lia.
    + rewrite Hp'. apply Forall_app. split; [|done].
      apply leftover_ok; [done|done].
    + apply Forall_app. split; [done|]. apply fills_legs_agree.
  - (* cancel *)
    simpl. eexists. split; [done|]. unfold conserved. simpl.
    repeat split; try done; try lia; apply Hsum.
Qed.

Lemma run_conserved rs h :
  Forall request_in_range rs -> conserved (length rs) h ->
  exists h', run rs h = Returned h' /\ conserved 0 h'.
Proof.
  revert h. induction rs as [|r rs IH]; intros h Hr Hc; simpl.
  - eauto.
  - apply Forall_cons in Hr as [Hr Hrs].
    destruct (serve_conserved _ r h Hr Hc) as (h1 & -> & Hc1). simpl.
    by apply IH.
Qed.

Lemma initial_qty_notin id (orders : list (OrderId * Qty)) :
  id ∉ map fst orders -> initial_qty id orders = 0.
Proof.
  induction orders as [|[i q] orders IH]; [done|].
  simpl. intros [Hne Hnot]%not_elem_of_cons.
  change (initial_qty id ((i, q) :: orders))
    with ((if i =? id then q else 0) + initial_qty id orders).
  rewrite IH by done. destruct (Z.eqb_spec i id); [congruence|lia].
Qed.

Lemma initial_qty_NoDup id qty (orders : list (OrderId * Qty)) :
  NoDup (map fst orders) -> (id, qty) ∈ orders -> initial_qty id orders = qty.
Proof.
  induction orders as [|[i q] orders IH]; [by intros _ ?%elem_of_nil|].
  simpl. intros [Hnot Hnd]%NoDup_cons Hin.
  change (initial_qty id ((i, q) :: orders))
    with ((if i =? id then q else 0) + initial_qty id orders).
  apply elem_of_cons in Hin as [[= <- <-]|Hin].
  - rewrite Z.eqb_refl, initial_qty_notin by done. lia.
  - rewrite IH by done.
    destruct (Z.eqb_spec i id) as [->|]; [|lia].
    destruct Hnot. rewrite map_fmap. apply list_elem_of_fmap. by exists (id, qty).
Qed.

Lemma start_conserved n :
  1 + Z.of_nat n < 2 ^ 64 -> conserved n start.
Proof.
  intros H. unfold conserved, start. simpl.
  repeat split; try done; try lia; apply NoDup_nil_2.
Qed.


(** ** What a walk leaves of a side *)

Section Remains.
Context {P : Type}.
Variables (side : Side) (marketId : OrderId).

Lemma while_consume_remains fuel (opp opp' : list (Price * list (Order P))) w w' :
  while_consume side marketId fuel opp w = Returned (opp', w') ->
  remains opp opp'.
Proof.
  revert opp w. induction fuel as [|fuel IH]; intros opp w;
    destruct opp as [|[price level] others]; cbn [while_consume].
  - intros [= <- _]. constructor.
  - destruct (w_qty w >? 0); [done|]. intros [= <- _]. constructor.
  - intros [= <- _]. constructor.
  - destruct (w_qty w >? 0) eqn:Hq; [|intros [= <- _]; constructor].
    rewrite for_level_walk. cbn [mbind outcome_bind].
    destruct (leftover (w_qty w) level) as [|o' level'] eqn:Hl.
    + intros H%IH. by constructor.
    + destruct (leftover_unspent (w_qty w) level) as [E|E]; [congruence|].
      destruct fuel; cbn [while_consume w_qty]; rewrite E;
        intros [= <- _]; rewrite <- Hl; constructor; congruence.
Qed.

Lemma remains_Forall (Q : Price * list (Order P) -> Prop)
    (m m' : list (Price * list (Order P))) :
  (forall price level q,
     Q (price, level) -> leftover q level <> [] -> Q (price, leftover q level)) ->
  remains m m' -> Forall Q m -> Forall Q m'.
Proof.
  intros HQ. induction 1 as [m|price level q m Hne|price level m m' _ IH];
    [done|..]; intros [? ?]%Forall_cons; [|by apply IH].
  apply Forall_cons. split; [by apply HQ|done].
Qed.

Lemma remains_keys_sorted (R : relation Price)
    (m m' : list (Price * list (Order P))) :
  remains m m' ->
  StronglySorted R (map fst m) -> StronglySorted R (map fst m').
Proof.
  induction 1 as [m|price level q m Hne|price level m m' _ IH]; [done|done|].
  simpl. intros [? _]%StronglySorted_inv. by apply IH.
Qed.

Lemma leftover_ids_sublist q (queue : list (Order P)) :
  map id_ (leftover q queue) `sublist_of` map id_ queue.
Proof.
  revert q. induction queue as [|o rest IH]; intros q; simpl; [done|].
  destruct (q >? 0); [|done].
  destruct (_ =? 0); simpl.
  - by apply sublist_cons.
  - by apply sublist_skip.
Qed.

(** Every order of the queue is either erased as filled or left. *)
Lemma filled_or_left q (queue : list (Order P)) :
  map id_ queue ≡ₚ filled_ids q queue ++ map id_ (leftover q queue).
Proof.
  revert q. induction queue as [|o rest IH]; intros q; simpl; [done|].
  destruct (q >? 0); [|done].
  destruct (_ =? 0); simpl.
  - by rewrite <- IH.
  - rewrite <- Permutation_middle. by rewrite <- IH.
Qed.
End Remains.

Lemma StronglySorted_sublist {A : Type} (R : relation A) (l1 l2 : list A) :
  l1 `sublist_of` l2 -> StronglySorted R l2 -> StronglySorted R l1.
Proof.
  induction 1 as [|x l1 l2 Hsub IH|x l1 l2 Hsub IH]; [done|..];
    intros [Hs Hf]%StronglySorted_inv.
  - constructor; [by apply IH|].
    rewrite Forall_forall in Hf |- *. intros y Hy. apply Hf.
    by eapply sublist_subseteq.
  - by apply IH.
Qed.

(** ** [operator[]] and [push_back] keep the shape of a side *)

Section SortedMap.
Context {L : Type}.
Variables (before : Price -> Price -> bool) (R : relation Price).
Hypothesis before_spec : forall a b, before a b = true <-> R a b.
Hypothesis R_trans : forall a b c, R a b -> R b c -> R a c.
Hypothesis before_total :
  forall a b, before a b = false -> before b a = false -> a = b.

Lemma elem_of_subscript_keys (dflt : L) k (m : list (Price * L)) x :
  x ∈ map fst (subscript before dflt k m) -> x = k \/ x ∈ map fst m.
Proof.
  induction m as [|[k' l] m IH]; simpl.
  - intros ->%list_elem_of_singleton. by left.
  - destruct (before k k'); simpl.
    + intros [->|H]%elem_of_cons; [by left|by right].
    + destruct (before k' k); simpl; [|by right].
      intros [->|H]%elem_of_cons; [right; left|].
      destruct (IH H) as [->|?]; [by left|right; by right].
Qed.

Lemma subscript_keys_sorted (dflt : L) k (m : list (Price * L)) :
  StronglySorted R (map fst m) ->
  StronglySorted R (map fst (subscript before dflt k m)).
Proof.
  induction m as [|[k' l] m IH]; simpl.
  - intros _. repeat constructor.
  - intros Hs. pose proof Hs as [Hs' Hf]%StronglySorted_inv.
    destruct (before k k') eqn:E1; simpl.
    + constructor; [done|]. apply before_spec in E1.
      constructor; [done|]. eapply Forall_impl; [exact Hf|]. eauto.
    + destruct (before k' k) eqn:E2; simpl; [|done].
      constructor; [by apply IH|]. apply before_spec in E2.
      apply Forall_forall. intros x [->|Hx]%elem_of_subscript_keys; [done|].
      rewrite Forall_forall in Hf. auto.
Qed.

Lemma at_key_keys k (f : L -> L) (m : list (Price * L)) :
  map fst (at_key before k f m) = map fst m.
Proof.
  induction m as [|[k' l] m IH]; simpl; [done|].
  destruct (before k k'); [done|].
  destruct (before k' k); simpl; [by rewrite IH|done].
Qed.
End SortedMap.

Section PushLevel.
Context {P : Type}.
Variable before : Price -> Price -> bool.
Hypothesis before_irrefl : forall k, before k k = false.
Hypothesis before_total :
  forall a b, before a b = false -> before b a = false -> a = b.

(** The levels after [m[k].push_back(o)]: the old ones, except that the
    level of [k] has [o] at its back. *)
Lemma push_back_Forall (Q Q' : Price * list (Order P) -> Prop) k (o : Order P)
    (m : list (Price * list (Order P))) :
  (forall pl, Q pl -> Q' pl) ->
  (forall l, Q (k, l) -> Q' (k, l ++ [o])) ->
  Q' (k, [o]) ->
  Forall Q m ->
  Forall Q' (at_key before k (fun l => l ++ [o]) (subscript before [] k m)).
Proof.
  intros Hmono Hpush Hnew. induction m as [|[k' l] m IH]; simpl.
  - intros _. rewrite before_irrefl. by repeat constructor.
  - intros [Hl Hm]%Forall_cons.
    destruct (before k k') eqn:E1; simpl.
    + rewrite before_irrefl. simpl. constructor; [done|].
      constructor; [by apply Hmono|]. eapply Forall_impl; [exact Hm|done].
    + destruct (before k' k) eqn:E2; simpl; rewrite E1, E2.
      * constructor; [by apply Hmono|by apply IH].
      * rewrite <- (before_total _ _ E1 E2) in Hl.
        rewrite <- (before_total _ _ E1 E2).
        constructor; [by apply Hpush|]. eapply Forall_impl; [exact Hm|done].
Qed.
End PushLevel.

Lemma less_spec a b : less a b = true <-> a < b.
Proof. apply Z.ltb_lt. Qed.

Lemma greater_spec a b : greater a b = true <-> a > b.
Proof. unfold greater. rewrite Z.gtb_ltb, Z.ltb_lt. lia. Qed.

Lemma less_total a b : less a b = false -> less b a = false -> a = b.
Proof. unfold less. rewrite !Z.ltb_ge. lia. Qed.

Lemma greater_total a b : greater a b = false -> greater b a = false -> a = b.
Proof. unfold greater. rewrite !Z.gtb_ltb, !Z.ltb_ge. lia. Qed.

(** ** Levels under [add_limit] and under the walk *)

Lemma level_wf_mono side n n' pl :
  n <= n' -> level_wf side n pl -> level_wf side n' pl.
Proof.
  intros Hn (Hne & Hs & Hf). split; [done|]. split; [done|].
  eapply Forall_impl; [exact Hf|]. simpl. intros o (? & ? & ? & ?).
  repeat split; try done; lia.
Qed.

Lemma level_wf_leftover side n price level q :
  level_wf side n (price, level) -> leftover q level <> [] ->
  level_wf side n (price, leftover q level).
Proof.
  intros (_ & Hs & Hf) Hne. simpl in *. split; [done|]. split.
  - eapply StronglySorted_sublist; [apply leftover_ids_sublist|done].
  - apply Forall_forall. intros o' (o & Ho & S)%leftover_descend.
    rewrite Forall_forall in Hf. specialize (Hf _ Ho).
    destruct S as (-> & -> & -> & -> & _). done.
Qed.

Lemma level_wf_push side n price level qty :
  1 <= n ->
  level = [] \/ level_wf side n (price, level) ->
  level_wf side (n + 1)
    (price, level ++ [mkOrder n LIMIT side (Some price) qty qty]).
Proof.
  intros Hn Hl. split; [by destruct level|]. simpl.
  assert (StronglySorted Z.lt (map id_ level) /\
          Forall (fun o => price_ o = Some price /\ side_ o = side /\
                           type_ o = LIMIT /\ 1 <= id_ o < n) level)
    as [Hs Hf].
  { destruct Hl as [->|(_ & ? & ?)]; [|done]. split; constructor. }
  split.
  - rewrite map_app. apply StronglySorted_app.
    split; [|split; [done|repeat constructor]].
    intros x1 x2 Hx1 ->%list_elem_of_singleton.
    rewrite map_fmap in Hx1. apply list_elem_of_fmap in Hx1 as (o & -> & Ho).
    rewrite Forall_forall in Hf. specialize (Hf _ Ho). simpl. lia.
  - apply Forall_app. split.
    + eapply Forall_impl; [exact Hf|]. simpl. intros o (? & ? & ? & ?).
      repeat split; try done; lia.
    + apply Forall_singleton. simpl. repeat split; try done; lia.
Qed.

Lemma erase_all_lookup ids (index : gmap Z Handle) id :
  is_Some (erase_all ids index !! id) <-> is_Some (index !! id) /\ id ∉ ids.
Proof.
  revert index. induction ids as [|i ids IH]; intros index; simpl.
  - split; [intros ?; split; [done|apply not_elem_of_nil]|by intros [? _]].
  - rewrite IH, not_elem_of_cons.
    destruct (decide (i = id)) as [->|Hne].
    + rewrite lookup_delete_eq. split; [by intros [[? ?] _]|by intros [_ [? _]]].
    + rewrite lookup_delete_ne by done. intuition congruence.
Qed.

Lemma side_ids_below side n (m : list (Price * list (Order (option Price)))) :
  Forall (level_wf side n) m ->
  Forall (fun o => 1 <= id_ o < n) (orders_of m).
Proof.
  intros Hm. apply Forall_forall.
  intros o (price & level & Hin & Ho)%elem_of_orders_of.
  rewrite Forall_forall in Hm. destruct (Hm _ Hin) as (_ & _ & Hf).
  rewrite Forall_forall in Hf. by destruct (Hf _ Ho) as (_ & _ & _ & ?).
Qed.

Lemma push_side_wf before (R : relation Price) side n price qty
    (m : list (Price * list (Order (option Price)))) :
  (forall a b, before a b = true <-> R a b) ->
  (forall a b c, R a b -> R b c -> R a c) ->
  (forall k, before k k = false) ->
  (forall a b, before a b = false -> before b a = false -> a = b) ->
  1 <= n ->
  StronglySorted R (map fst m) ->
  Forall (level_wf side n) m ->
  StronglySorted R
    (map fst (at_key before price
                (fun l => l ++ [mkOrder n LIMIT side (Some price) qty qty])
                (subscript before [] price m))) /\
  Forall (level_wf side (n + 1))
    (at_key before price
       (fun l => l ++ [mkOrder n LIMIT side (Some price) qty qty])
       (subscript before [] price m)).
Proof.
  intros Hspec Htrans Hirr Htot Hn Hs Hf. split.
  - rewrite at_key_keys. by apply (subscript_keys_sorted before R).
  - apply (push_back_Forall before Hirr Htot (level_wf side n)); [| | |done].
    + intros pl. apply level_wf_mono. lia.
    + intros l Hl. apply level_wf_push; [done|by right].
    + apply (level_wf_push side n price [] qty); [done|by left].
Qed.

Lemma walk_side_wf (R : relation Price) side n
    (m m' : list (Price * list (Order (option Price)))) :
  remains m m' ->
  StronglySorted R (map fst m) /\ Forall (level_wf side n) m ->
  StronglySorted R (map fst m') /\ Forall (level_wf side n) m'.
Proof.
  intros Hrem [Hs Hf]. split; [by eapply remains_keys_sorted|].
  eapply remains_Forall; [|exact Hrem|exact Hf].
  intros price level q. apply level_wf_leftover.
Qed.

Lemma basic_add_market_remains side qty b trades b' :
  Basic.add_market side qty b = Returned (trades, b') ->
  remains (BasicObs.opposing side b) (BasicObs.opposing side b').
Proof.
  unfold Basic.add_market. destruct (qty =? 0).
  { intros [= _ <-]. constructor. }
  cbn -[consume].
  destruct side;
    (destruct (consume _ _ _ _) as [[opp' w']|] eqn:E; cbn; [|done]);
    intros [= _ <-]; simpl; eapply while_consume_remains; exact E.
Qed.

Lemma index_after_insert (index : gmap Z Handle) (ids ids' : list Z) n handle :
  (forall id, is_Some (index !! id) <-> id ∈ ids) ->
  n ∉ ids -> ids' ≡ₚ n :: ids ->
  forall id, is_Some (map_insert n handle index !! id) <-> id ∈ ids'.
Proof.
  intros Hidx Hn Hp id. rewrite Hp, elem_of_cons. unfold map_insert.
  destruct (index !! n) as [h|] eqn:E.
  { destruct Hn. apply Hidx. by rewrite E. }
  rewrite lookup_insert_is_Some, Hidx.
  destruct (decide (n = id)) as [->|]; intuition congruence.
Qed.

Lemma index_after_erase (index : gmap Z Handle) (filled left own : list Z) :
  NoDup ((filled ++ left) ++ own) ->
  (forall id, is_Some (index !! id) <-> id ∈ (filled ++ left) ++ own) ->
  forall id, is_Some (erase_all filled index !! id) <-> id ∈ left ++ own.
Proof.
  intros Hnd Hidx id. rewrite erase_all_lookup, Hidx, !elem_of_app.
  apply NoDup_app in Hnd as (Hfl & Hdisj & _).
  apply NoDup_app in Hfl as (_ & Hdisj' & _).
  split.
  - intros [[[?|?]|?] ?]; [done|by left|by right].
  - intros [Hl|Ho]; (split; [auto|]); intros Hf.
    + by apply (Hdisj' id).
    + apply (Hdisj id); [|done]. apply elem_of_app. by left.
Qed.

(** ** Every run of OrderBook.cpp keeps the book well formed *)

Lemma add_limit_fields side price qty b :
  let o := mkOrder (Basic.nextOrderId_ b) LIMIT side (Some price) qty qty in
  let b' := (Basic.add_limit side price qty b).2 in
  Basic.asks_ b' =
    match side with
    | BUY => Basic.asks_ b
    | SELL => at_key less price (fun l => l ++ [o])
                (subscript less [] price (Basic.asks_ b))
    end /\
  Basic.bids_ b' =
    match side with
    | BUY => at_key greater price (fun l => l ++ [o])
               (subscript greater [] price (Basic.bids_ b))
    | SELL => Basic.bids_ b
    end /\
  Basic.orderIdToIterator_ b' =
    map_insert (Basic.nextOrderId_ b)
      (mkHandle side price (NodeOf (Basic.nextOrderId_ b)))
      (Basic.orderIdToIterator_ b) /\
  (Basic.add_limit side price qty b).1 = None.
Proof. by destruct side. Qed.

Lemma log_sorted_snoc (orders : list (OrderId * Qty)) next qty :
  StronglySorted Z.lt (map fst orders) ->
  Forall (fun iq : OrderId * Qty => 1 <= fst iq < next) orders ->
  StronglySorted Z.lt (map fst (orders ++ [(next, qty)])).
Proof.
  intros Hs Hf. rewrite map_app. apply StronglySorted_app.
  split; [|split; [done|repeat constructor]].
  intros x1 x2 Hx1 ->%list_elem_of_singleton.
  rewrite map_fmap in Hx1. apply list_elem_of_fmap in Hx1 as (iq & -> & Hiq).
  rewrite Forall_forall in Hf. specialize (Hf _ Hiq). simpl. lia.
Qed.

Lemma serve_well_formed n r h h' :
  request_in_range r -> conserved (S n) h -> well_formed h ->
  serve r h = Returned h' -> well_formed h'.
Proof.
  intros Hr ((Hn1 & Hn2) & Hids & _) (Hka & Hkb & Hla & Hlb & Hnd & Hidx & Hlog).
  set (b := hist_book h) in *. set (next := Basic.nextOrderId_ b) in *.
  assert (Forall (fun o => 1 <= id_ o < next) (resting_orders b)) as Hbelow.
  { apply Forall_app. split; eapply side_ids_below; eauto. }
  assert (next ∉ map id_ (resting_orders b)) as Hfresh.
  { rewrite map_fmap. intros (o & E & Ho)%list_elem_of_fmap.
    rewrite Forall_forall in Hbelow. specialize (Hbelow _ Ho). lia. }
  destruct r as [side price qty|side qty|id]; simpl in Hr; unfold serve; fold b.
  - (* add_limit *)
    destruct (add_limit_resting side price qty b) as [Hperm Hnext].
    destruct (add_limit_fields side price qty b) as (Ha & Hb & Hi & _).
    destruct (Basic.add_limit side price qty b) as [r b'] eqn:E.
    simpl in Hperm, Hnext, Ha, Hb, Hi. fold next in Hperm, Hnext, Ha, Hb, Hi.
    rewrite wrap64_id in Hnext by lia.
    intros [= <-]. unfold well_formed. simpl. rewrite Hnext, Ha, Hb, Hi.
    assert (NoDup (map id_ (resting_orders b')) /\
            (forall id,
               is_Some (map_insert next (mkHandle side price (NodeOf next))
                          (Basic.orderIdToIterator_ b) !! id) <->
               id ∈ map id_ (resting_orders b'))) as [Hnd' Hidx'].
    { pose proof (Permutation_map id_ Hperm) as Hpi. simpl in Hpi. split.
      - rewrite Hpi. by apply NoDup_cons.
      - by apply (index_after_insert _ (map id_ (resting_orders b))). }
    destruct side.
    + destruct (push_side_wf greater Z.gt BUY next price qty (Basic.bids_ b))
        as [Hk' Hl']; try done;
        [apply greater_spec|lia|apply greater_irrefl|apply greater_total|].
      repeat split; try done.
      * eapply Forall_impl; [exact Hla|]. intros pl. apply level_wf_mono. lia.
      * apply Hidx'.
      * apply Hidx'.
      * by apply log_sorted_snoc.
    + destruct (push_side_wf less Z.lt SELL next price qty (Basic.asks_ b))
        as [Hk' Hl']; try done;
        [apply less_spec|lia|apply less_irrefl|apply less_total|].
      repeat split; try done.
      * eapply Forall_impl; [exact Hlb|]. intros pl. apply level_wf_mono. lia.
      * apply Hidx'.
      * apply Hidx'.
      * by apply log_sorted_snoc.
  - (* add_market *)
    destruct (Basic.add_market side qty b) as [[trades b']|] eqn:E; [|done].
    simpl. intros [= <-]. unfold well_formed. simpl.
    destruct (Z.eqb_spec qty 0) as [Hz|Hz].
    { rewrite add_market_zero_basic in E by done. injection E as <- <-.
      rewrite app_nil_r. by repeat split; try apply Hidx. }
    pose proof (basic_add_market_remains _ _ _ _ _ E) as Hrem.
    destruct (basic_add_market_walk side qty b Hz)
      as (b1 & E1 & Hleft & Hown & Hi & Hnext).
    rewrite E in E1. injection E1 as _ <-.
    rewrite wrap64_id in Hnext by (fold next; lia). fold next in Hnext.
    rewrite Hnext, Hi.
    pose proof (Permutation_map id_ (resting_orders_sides side b)) as Hp.
    pose proof (Permutation_map id_ (resting_orders_sides side b')) as Hp'.
    rewrite Hleft, Hown in Hp'. rewrite map_app in Hp, Hp'.
    pose proof (filled_or_left qty (orders_of (BasicObs.opposing side b))) as Hfl.
    assert (NoDup ((filled_ids qty (orders_of (BasicObs.opposing side b)) ++
                    map id_ (leftover qty (orders_of (BasicObs.opposing side b))))
                   ++ map id_ (orders_of (BasicObs.own side b)))) as Hnd3.
    { rewrite <- Hfl, <- Hp. done. }
    assert (NoDup (map id_ (resting_orders b')) /\
            (forall id,
               is_Some (erase_all
                          (filled_ids qty (orders_of (BasicObs.opposing side b)))
                          (Basic.orderIdToIterator_ b) !! id) <->
               id ∈ map id_ (resting_orders b'))) as [Hnd' Hidx'].
    { split.
      - rewrite Hp'. apply NoDup_app in Hnd3 as (Hnd3 & Hdisj & Hown').
        apply NoDup_app. split; [by apply NoDup_app in Hnd3 as (_ & _ & ?)|].
        split; [|done]. intros x Hx. apply Hdisj. apply elem_of_app. by right.
      - intros id. rewrite Hp'. apply index_after_erase; [done|].
        intros id'. rewrite Hidx, Hp, Hfl. done. }
    assert (StronglySorted Z.lt (map fst (hist_orders h ++ [(next, qty)])))
      as Hlog' by by apply log_sorted_snoc.
    destruct side; simpl in Hrem, Hown.
    + destruct (walk_side_wf Z.lt SELL next _ _ Hrem) as [Hk' Hl']; [done|].
      rewrite Hown. repeat split; try done; try apply Hidx'.
      * eapply Forall_impl; [exact Hl'|]. intros pl. apply level_wf_mono. lia.
      * eapply Forall_impl; [exact Hlb|]. intros pl. apply level_wf_mono. lia.
    + destruct (walk_side_wf Z.gt BUY next _ _ Hrem) as [Hk' Hl']; [done|].
      rewrite Hown. repeat split; try done; try apply Hidx'.
      * eapply Forall_impl; [exact Hla|]. intros pl. apply level_wf_mono. lia.
      * eapply Forall_impl; [exact Hl'|]. intros pl. apply level_wf_mono. lia.
  - (* cancel *)
    simpl. intros [= <-]. unfold well_formed. simpl.
    by repeat split; try apply Hidx.
Qed.

Lemma resting_qty_notin {P : Type} id (queue : list (Order P)) :
  id ∉ map id_ queue -> resting_qty id queue = 0.
Proof.
  induction queue as [|o rest IH]; [done|].
  simpl. intros [Hne Hnot]%not_elem_of_cons.
  rewrite resting_qty_cons, IH by done.
  destruct (Z.eqb_spec (id_ o) id); [congruence|lia].
Qed.

Lemma resting_qty_unique {P : Type} (o : Order P) (queue : list (Order P)) :
  NoDup (map id_ queue) -> o ∈ queue ->
  resting_qty (id_ o) queue = remainingQty_ o.
Proof.
  induction queue as [|o' rest IH]; [by intros _ ?%elem_of_nil|].
  simpl. intros [Hnot Hnd]%NoDup_cons Hin. rewrite resting_qty_cons.
  apply elem_of_cons in Hin as [<-|Hin].
  - rewrite Z.eqb_refl, resting_qty_notin by done. lia.
  - rewrite IH by done.
    destruct (Z.eqb_spec (id_ o') (id_ o)) as [E|]; [|lia].
    destruct Hnot. rewrite E, map_fmap. by apply list_elem_of_fmap_2.
Qed.

Lemma serve_filled_exactly n r h h' :
  request_in_range r -> conserved (S n) h -> well_formed h ->
  filled_exactly h ->
  serve r h = Returned h' -> filled_exactly h'.
Proof.
  intros Hr Hc Hw Hex.
  pose proof Hc as ((Hn1 & Hn2) & Hids & _ & Hsum & Hok & _).
  pose proof Hw as (_ & _ & Hla & Hlb & Hnd & _).
  set (b := hist_book h) in *. set (next := Basic.nextOrderId_ b) in *.
  assert (Forall (fun o => 1 <= id_ o < next) (resting_orders b)) as Hbelow.
  { apply Forall_app. split; eapply side_ids_below; eauto. }
  unfold filled_exactly in *. fold b in Hex.
  destruct r as [side price qty|side qty|id]; simpl in Hr; unfold serve; fold b.
  - destruct (add_limit_resting side price qty b) as [Hperm _].
    destruct (Basic.add_limit side price qty b) as [r b'].
    intros [= <-]. simpl in *. rewrite Hperm. apply Forall_cons. split; [|done].
    simpl. fold next. destruct (Hsum next) as [H0 H1].
    rewrite initial_qty_notin in H1.
    + pose proof (resting_qty_nonneg next _ Hok). fold b in H. lia.
    + rewrite map_fmap. intros (iq & E & Hiq)%list_elem_of_fmap.
      rewrite Forall_forall in Hids. specialize (Hids _ Hiq). lia.
  - destruct (Basic.add_market side qty b) as [[trades b']|] eqn:E; [|done].
    simpl. intros [= <-]. simpl.
    destruct (Z.eqb_spec qty 0) as [Hz|Hz].
    { rewrite add_market_zero_basic in E by done. injection E as <- <-.
      by rewrite app_nil_r. }
    destruct (basic_add_market_walk side qty b Hz)
      as (b1 & E1 & Hleft & Hown & _).
    rewrite E in E1. injection E1 as -> <-.
    set (opp := orders_of (BasicObs.opposing side b)) in *.
    set (own := orders_of (BasicObs.own side b)) in *.
    rewrite (resting_orders_sides side b'), Hleft, Hown. fold opp own.
    rewrite (resting_orders_sides side b) in Hex, Hok, Hbelow. fold opp own in Hex, Hok, Hbelow.
    pose proof (Permutation_map id_ (resting_orders_sides side b)) as Hp.
    rewrite Hp, map_app in Hnd. fold opp own in Hnd.
    apply NoDup_app in Hnd as (Hnd_opp & Hdisj & Hnd_own).
    apply Forall_app in Hex as [Hex_opp Hex_own].
    apply Forall_app in Hok as [Hok_opp _].
    apply Forall_app in Hbelow as [Hb_opp Hb_own].
    assert (walk_in_range qty
              (map snd (priced_orders (BasicObs.opposing side b)))) as Hrange.
    { split; [done|]. rewrite map_snd_priced_orders. fold opp.
      eapply Forall_impl; [exact Hok_opp|]. intros o [? ?]. simpl. lia. }
    assert (forall id, id <> next ->
              traded id (fills side next qty
                           (priced_orders (BasicObs.opposing side b))) =
              resting_qty id opp - resting_qty id (leftover qty opp)) as Hfills.
    { intros id Hne.
      destruct (fills_conserve side next id qty _ Hrange) as (_ & _ & Hc').
      rewrite map_snd_priced_orders in Hc'. fold opp in Hc'.
      destruct (Z.eqb_spec next id); [congruence|lia]. }
    assert (NoDup (map id_ (leftover qty opp))) as Hnd_left.
    { eapply sublist_NoDup; [exact Hnd_opp|apply leftover_ids_sublist]. }
    apply Forall_app. split; apply Forall_forall; intros o' Ho'.
    + destruct (leftover_descend _ _ _ Ho') as (o & Ho & S).
      destruct S as (Eid & _ & _ & _ & Einit).
      rewrite Forall_forall in Hex_opp, Hb_opp.
      specialize (Hex_opp _ Ho). specialize (Hb_opp _ Ho).
      rewrite traded_app, Hfills by lia.
      rewrite (resting_qty_unique o' _ Hnd_left Ho').
      rewrite Eid, (resting_qty_unique o _ Hnd_opp Ho). lia.
    + rewrite Forall_forall in Hex_own, Hb_own.
      specialize (Hex_own _ Ho'). specialize (Hb_own _ Ho').
      assert (id_ o' ∉ map id_ opp) as Hnot.
      { intros Hin. apply (Hdisj _ Hin). rewrite map_fmap.
        by apply list_elem_of_fmap_2. }
      rewrite traded_app, Hfills by lia.
      rewrite !resting_qty_notin; [lia| |done].
      intros Hin. apply Hnot.
      eapply sublist_subseteq; [apply leftover_ids_sublist|exact Hin].
  - simpl. by intros [= <-].
Qed.

Lemma start_well_formed : well_formed start.
Proof.
  unfold well_formed, start. simpl.
  repeat split; try by constructor.
  - by intros [? ?].
  - by intros ?%elem_of_nil.
Qed.

Lemma run_well_formed rs h :
  Forall request_in_range rs -> conserved (length rs) h ->
  well_formed h -> filled_exactly h ->
  exists h',
    run rs h = Returned h' /\
    conserved 0 h' /\ well_formed h' /\ filled_exactly h'.
Proof.
  revert h. induction rs as [|r rs IH]; intros h Hr Hc Hw Hex; simpl.
  - eauto.
  - apply Forall_cons in Hr as [Hr Hrs].
    destruct (serve_conserved _ r h Hr Hc) as (h1 & E & Hc1).
    pose proof (serve_well_formed _ _ _ _ Hr Hc Hw E) as Hw1.
    pose proof (serve_filled_exactly _ _ _ _ Hr Hc Hw Hex E) as Hex1.
    rewrite E. simpl. by apply IH.
Qed.

Lemma reachable_well_formed rs h :
  Forall request_in_range rs ->
  Z.of_nat (length rs) < 2 ^ 64 - 1 ->
  run rs start = Returned h ->
  conserved 0 h /\ well_formed h /\ filled_exactly h.
Proof.
  intros Hr Hlen Hrun.
  destruct (run_well_formed rs start Hr) as (h' & E & Hc & Hw & Hex).
  { apply start_conserved. lia. }
  { apply start_well_formed. }
  { constructor. }
  rewrite E in Hrun. by injection Hrun as <-.
Qed.

(** In a queue whose ids increase, the order with the smaller id is
    ahead. *)
Lemma sorted_split {P : Type} (l : list (Order P)) A B :
  StronglySorted Z.lt (map id_ l) ->
  A ∈ l -> B ∈ l -> id_ A < id_ B ->
  exists qa qb qc, l = qa ++ A :: qb ++ B :: qc.
Proof.
  intros Hs HA HB Hlt.
  apply list_elem_of_split in HA as (qa & r & ->).
  rewrite map_app in Hs. simpl in Hs.
  apply StronglySorted_app in Hs as (Hcross & _ & Hr).
  apply elem_of_app in HB as [HB|HB].
  - specialize (Hcross (id_ B) (id_ A)).
    assert (id_ B < id_ A); [|lia]. apply Hcross; [|left].
    rewrite map_fmap. by apply list_elem_of_fmap_2.
  - apply elem_of_cons in HB as [->|HB]; [lia|].
    apply list_elem_of_split in HB as (qb & qc & ->). eauto.
Qed.

(** C6. In a run of OrderBook.cpp, let [A] and [B] rest in one level of
    a side, [A] created before [B] (its id comes first in the log of
    created orders).  When a market order then trades against that side,
    whenever the call makes a trade with [B] it has made before it the
    trade that fills [A] for its whole remaining quantity, and [A] does
    not rest in the book the call leaves: [B] is never filled while [A]
    still rests. *)
Theorem fifo_fairness (rs : list request) (h : history) (side : Side)
    (qty : Qty) (trades pre post : list Trade) (tB : Trade)
    (b' : Basic.OrderBook) (price : Price)
    (level : list (Order (option Price))) (A B : Order (option Price))
    (qA qB : Qty) (log1 log2 log3 : list (OrderId * Qty)) :
  Forall request_in_range rs ->
  Z.of_nat (length rs) < 2 ^ 64 - 1 ->
  run rs start = Returned h ->
  0 <= qty < 2 ^ 32 ->
  (price, level) ∈ BasicObs.opposing side (hist_book h) ->
  A ∈ level -> B ∈ level ->
  hist_orders h = log1 ++ (id_ A, qA) :: log2 ++ (id_ B, qB) :: log3 ->
  Basic.add_market side qty (hist_book h) = Returned (trades, b') ->
  trades = pre ++ tB :: post ->
  resting_id side tB = id_ B ->
  market_trade side (Basic.nextOrderId_ (hist_book h)) (id_ A) price
    (remainingQty_ A) ∈ pre /\
  id_ A ∉ map id_ (orders_of (BasicObs.opposing side b')).
Proof.
  intros Hr Hlen Hrun Hq Hlevel HA HB Hlog Hm Htrades HtB.
  destruct (reachable_well_formed rs h Hr Hlen Hrun)
    as ((_ & _ & _ & _ & Hok & _) & (Hka & Hkb & Hla & Hlb & Hnd & _ & Hsorted)
        & _).
  assert (id_ A < id_ B) as Hlt.
  { rewrite Hlog, map_app in Hsorted. simpl in Hsorted.
    apply StronglySorted_app in Hsorted as (_ & _ & Hs).
    apply StronglySorted_inv in Hs as [_ Hf].
    rewrite Forall_forall in Hf. apply Hf.
    rewrite map_app. apply elem_of_app. right. left. }
  assert (StronglySorted Z.lt (map id_ level)) as Hids.
  { destruct side; simpl in Hlevel.
    - rewrite Forall_forall in Hla. by destruct (Hla _ Hlevel) as (_ & ? & _).
    - rewrite Forall_forall in Hlb. by destruct (Hlb _ Hlevel) as (_ & ? & _). }
  destruct (sorted_split level A B Hids HA HB Hlt) as (qa & qb & qc & ->).
  pose proof (Permutation_map id_ (resting_orders_sides side (hist_book h))) as Hp.
  rewrite Hp, map_app in Hnd. apply NoDup_app in Hnd as (Hnd & _ & _).
  rewrite (resting_orders_sides side) in Hok. apply Forall_app in Hok as [Hok _].
  eapply fifo_in_queue; eauto.
  eapply Forall_impl; [exact Hok|]. intros o [? ?]. simpl. lia.
Qed.

Lemma fifo_fairness_witness :
  let A := mkOrder 1 LIMIT SELL (Some 100) 10 10 in
  let B := mkOrder 2 LIMIT SELL (Some 100) 20 20 in
  let tA := market_trade BUY 4 1 100 10 in
  let tB := market_trade BUY 4 2 100 2 in
  let h := mkHistory Samples.asks60 [] [(1, 10); (2, 20); (3, 30)] in
  Forall request_in_range Samples.three_asks /\
  run Samples.three_asks start = Returned h /\
  (100, [A; B]) ∈ BasicObs.opposing BUY (hist_book h) /\
  hist_orders h = [] ++ (id_ A, 10) :: [] ++ (id_ B, 20) :: [(3, 30)] /\
  exists b',
    Basic.add_market BUY 12 (hist_book h) = Returned ([tA] ++ tB :: [], b') /\
    resting_id BUY tB = id_ B /\
    market_trade BUY (Basic.nextOrderId_ (hist_book h)) (id_ A) 100
      (remainingQty_ A) ∈ [tA] /\
    id_ A ∉ map id_ (orders_of (BasicObs.opposing BUY b')).
Proof.
  intros A B tA tB h.
  assert (Forall request_in_range Samples.three_asks) as Hr.
  { unfold Samples.three_asks. repeat constructor; simpl; lia. }
  assert (run Samples.three_asks start = Returned h) as Hrun by reflexivity.
  assert ((100, [A; B]) ∈ BasicObs.opposing BUY (hist_book h)) as Hlevel
    by (vm_compute; left).
  split; [exact Hr|]. split; [exact Hrun|]. split; [exact Hlevel|].
  split; [reflexivity|].
  eexists. split; [vm_compute; reflexivity|]. split; [reflexivity|].
  eapply (fifo_fairness Samples.three_asks h BUY 12 _ [tA] [] tB _ 100 [A; B]
            A B 10 20 [] [] [(3, 30)] Hr).
  - simpl. lia.
  - exact Hrun.
  - lia.
  - exact Hlevel.
  - left.
  - right. left.
  - reflexivity.
  - vm_compute. reflexivity.
  - reflexivity.
  - reflexivity.
Defined.

(** ** Further facts about the two files *)

(** [add_limit] of OrderBook.cpp puts the order at the back of the queue
    of its price, which it creates when absent. *)
Lemma level_at_push {L : Type} before (dflt : L) k (f : L -> L)
    (m : list (Price * L)) :
  (forall a, before a a = false) ->
  level_at before k (at_key before k f (subscript before dflt k m)) =
  Some (f (default dflt (level_at before k m))).
Proof.
  intros Hirr. induction m as [|[k' l] m IH]; simpl.
  - rewrite Hirr. simpl. by rewrite Hirr.
  - destruct (before k k') eqn:E1; simpl.
    + rewrite Hirr. simpl. by rewrite Hirr.
    + destruct (before k' k) eqn:E2; simpl; rewrite E1, E2; simpl;
        rewrite ?E1, ?E2; [apply IH|done].
Qed.

Lemma add_limit_rests_at_back side price qty b :
  let o := mkOrder (Basic.nextOrderId_ b) LIMIT side (Some price) qty qty in
  let b' := (Basic.add_limit side price qty b).2 in
  let before := match side with BUY => greater | SELL => less end in
  level_at before price (BasicObs.own side b') =
    Some (default [] (level_at before price (BasicObs.own side b)) ++ [o]) /\
  BasicObs.opposing side b' = BasicObs.opposing side b.
Proof.
  destruct side; simpl; (split; [|done]).
  - by rewrite (level_at_push greater) by apply greater_irrefl.
  - by rewrite (level_at_push less) by apply less_irrefl.
Qed.

(** When the crossing loop of OrderBookOptimized.cpp returns, both sides
    are non-empty and the best ask is above the best bid. *)
Lemma match_loop_ends fuel c c' :
  Optimized.match_loop fuel c = Returned c' ->
  Optimized.match_step c' = Returned (inl c').
Proof.
  revert c. induction fuel as [|fuel IH]; intros c; simpl;
    destruct (Optimized.match_step c) as [[c1|c1]|] eqn:Hs; simpl;
    try discriminate.
  - pose proof (match_step_break _ _ Hs) as ->. by intros [= <-].
  - pose proof (match_step_break _ _ Hs) as ->. by intros [= <-].
  - apply IH.
Qed.

Lemma matchOrders_uncrossed b trades b' :
  Optimized.matchOrders b = Returned (trades, b') ->
  exists ask bid,
    best_price (Optimized.asks_ b') = Some ask /\
    best_price (Optimized.bids_ b') = Some bid /\ bid < ask.
Proof.
  unfold Optimized.matchOrders.
  destruct (Optimized.match_loop _ _) as [c|] eqn:Hloop; [|done].
  simpl. intros [= _ <-]. simpl.
  apply match_loop_ends in Hloop. unfold Optimized.match_step in Hloop.
  destruct (Optimized.c_asks c) as [|[bestAsk asks] arest]; [done|].
  destruct (Optimized.c_bids c) as [|[bestBid bids] brest]; [done|].
  exists bestAsk, bestBid. split; [done|]. split; [done|].
  destruct (Z.gtb_spec bestAsk bestBid); [lia|].
  destruct bids as [|bid bids_tl]; [done|].
  destruct asks as [|ask asks_tl]; [done|].
  unfold getRemainingQty in Hloop.
  rewrite (fill_le _ bid), (fill_le _ ask) in Hloop by lia. simpl in Hloop.
  repeat match type of Hloop with
         | context [if ?x then _ else _] => destruct x
         end; discriminate.
Qed.

(** Every [add_limit] of OrderBookOptimized.cpp on a book with an empty
    opposite map ends in the dereference of [begin()]. *)
Lemma optimized_add_limit_on_one_sided_book side price qty b :
  OptimizedObs.opposing side b = [] ->
  Optimized.add_limit side price qty b = Faulted DerefEnd.
Proof.
  assert (forall fuel c,
            Optimized.c_asks c = [] \/ Optimized.c_bids c = [] ->
            Optimized.match_loop fuel c = Faulted DerefEnd) as Hloop.
  { intros fuel c H.
    assert (Optimized.match_step c = Faulted DerefEnd) as Hs.
    { unfold Optimized.match_step.
      destruct H as [->| ->]; [done|].
      by destruct (Optimized.c_asks c) as [|[? ?] ?]. }
    destruct fuel; simpl; by rewrite Hs. }
  unfold Optimized.add_limit, Optimized.matchOrders. simpl.
  destruct side; simpl; intros ->; rewrite Hloop; simpl; auto.
Qed.

(** In runs of OrderBook.cpp whose limit orders have a positive quantity,
    the index holds exactly the ids of the resting orders, and these are
    live. *)
Lemma leftover_live {P : Type} q (queue : list (Order P)) :
  walk_in_range q queue ->
  Forall live queue -> Forall live (leftover q queue).
Proof.
  revert q. induction queue as [|o rest IH]; intros q [Hq Hr] Hl; simpl; [done|].
  apply Forall_cons in Hr as [Ho Hr]. apply Forall_cons in Hl as [Hlo Hl].
  destruct (Z.gtb_spec q 0) as [Hpos|Hnp]; [|by apply Forall_cons].
  set (exec := Z.min q (remainingQty_ o)).
  assert (0 <= exec <= q /\ exec <= remainingQty_ o) as He by (unfold exec; lia).
  rewrite (wrap32_id (q - exec)), (wrap32_id (remainingQty_ o - exec)) by lia.
  assert (Forall live (leftover (q - exec) rest)) as Hrest.
  { apply IH; [split; [lia|done]|done]. }
  destruct (Z.eqb_spec (remainingQty_ o - exec) 0); [done|].
  apply Forall_cons. split; [|done]. unfold live. simpl. lia.
Qed.

Lemma serve_live n r h h' :
  request_in_range r -> request_positive r -> conserved (S n) h ->
  Forall live (resting_orders (hist_book h)) ->
  serve r h = Returned h' ->
  Forall live (resting_orders (hist_book h')).
Proof.
  intros Hr Hpos (_ & _ & _ & _ & Hok & _) Hl.
  destruct r as [side price qty|side qty|id]; simpl in Hr, Hpos; unfold serve.
  - destruct (add_limit_resting side price qty (hist_book h)) as [Hperm _].
    destruct (Basic.add_limit side price qty (hist_book h)) as [r b'].
    intros [= <-]. simpl in *. rewrite Hperm. by apply Forall_cons.
  - destruct (Basic.add_market side qty (hist_book h)) as [[trades b']|] eqn:E;
      [|done].
    simpl. intros [= <-]. simpl.
    destruct (Z.eqb_spec qty 0) as [Hz|Hz].
    { rewrite add_market_zero_basic in E by done. by injection E as <- <-. }
    destruct (basic_add_market_walk side qty (hist_book h) Hz)
      as (b1 & E1 & Hleft & Hown & _).
    rewrite E in E1. injection E1 as _ <-.
    rewrite (resting_orders_sides side) in Hl, Hok.
    rewrite (resting_orders_sides side b'), Hleft, Hown.
    apply Forall_app in Hl as [Hlo Hlown]. apply Forall_app in Hok as [Hoo _].
    apply Forall_app. split; [|done].
    apply leftover_live; [|done]. split; [done|].
    eapply Forall_impl; [exact Hoo|]. intros o [? ?]. simpl. lia.
  - simpl. by intros [= <-].
Qed.

Lemma run_live rs h h' :
  Forall request_in_range rs -> Forall request_positive rs ->
  conserved (length rs) h ->
  Forall live (resting_orders (hist_book h)) ->
  run rs h = Returned h' ->
  Forall live (resting_orders (hist_book h')).
Proof.
  revert h. induction rs as [|r rs IH]; intros h Hr Hpos Hc Hl; simpl.
  - by intros [= <-].
  - apply Forall_cons in Hr as [Hr Hrs]. apply Forall_cons in Hpos as [Hp Hps].
    destruct (serve_conserved _ r h Hr Hc) as (h1 & E & Hc1).
    rewrite E. simpl. apply IH; try done.
    eapply serve_live; eauto.
Qed.

Lemma basic_index_matches_ledger rs h :
  Forall request_in_range rs -> Forall request_positive rs ->
  Z.of_nat (length rs) < 2 ^ 64 - 1 ->
  run rs start = Returned h ->
  forall id,
    is_Some (Basic.orderIdToIterator_ (hist_book h) !! id) <->
    exists o, o ∈ resting_orders (hist_book h) /\ id_ o = id /\ live o.
Proof.
  intros Hr Hpos Hlen Hrun id.
  destruct (reachable_well_formed rs h Hr Hlen Hrun)
    as (_ & (_ & _ & _ & _ & _ & Hidx & _) & _).
  assert (Forall live (resting_orders (hist_book h))) as Hl.
  { eapply (run_live rs start); try done.
    apply start_conserved. lia. }
  rewrite Hidx, map_fmap, list_elem_of_fmap. rewrite Forall_forall in Hl.
  split.
  - intros (o & -> & Ho). eauto.
  - intros (o & Ho & <- & _). eauto.
Qed.

(** The crossing loop stops: each pass pops an order, so the bound given to
    the loop is never reached, and [fill] never throws in it; the only
    ways not to return are the dereference of [begin()] of an empty map
    and [front()] of an empty level. *)
Lemma match_step_faults c f :
  Optimized.match_step c = Faulted f -> f = DerefEnd \/ f = FrontOfEmpty.
Proof.
  unfold Optimized.match_step.
  destruct (Optimized.c_asks c) as [|[bestAsk asks] arest];
    [intros [= <-]; by left|].
  destruct (Optimized.c_bids c) as [|[bestBid bids] brest];
    [intros [= <-]; by left|].
  destruct (bestAsk >? bestBid); [done|].
  destruct bids as [|bid bids_tl]; [intros [= <-]; by right|].
  destruct asks as [|ask asks_tl]; [intros [= <-]; by right|].
  unfold getRemainingQty.
  rewrite (fill_le _ bid), (fill_le _ ask) by lia. simpl.
  repeat match goal with |- context [if ?x then _ else _] => destruct x end;
    discriminate.
Qed.

Lemma match_step_pops c c' :
  Optimized.match_step c = Returned (inr c') ->
  (Optimized.resting (Optimized.c_asks c') +
   Optimized.resting (Optimized.c_bids c') <
   Optimized.resting (Optimized.c_asks c) +
   Optimized.resting (Optimized.c_bids c))%nat.
Proof.
  intros (bestAsk & ask & asks_tl & arest & bestBid & bid & bids_tl & brest
          & -> & -> & _ & -> & -> & _)%match_step_next.
  unfold Optimized.resting.
  rewrite !orders_of_after_fill, !orders_of_cons, !length_app. simpl.
  unfold isFilled. simpl.
  destruct (Z.min_spec (remainingQty_ bid) (remainingQty_ ask)) as [[_ E]|[_ E]];
    rewrite E, Z.sub_diag, wrap32_0; simpl;
    repeat match goal with |- context [if ?x then _ else _] => destruct x end;
    simpl; lia.
Qed.

Lemma match_loop_faults fuel c f :
  (Optimized.resting (Optimized.c_asks c) +
   Optimized.resting (Optimized.c_bids c) <= fuel)%nat ->
  Optimized.match_loop fuel c = Faulted f ->
  f = DerefEnd \/ f = FrontOfEmpty.
Proof.
  revert c. induction fuel as [|fuel IH]; intros c Hfuel; simpl;
    destruct (Optimized.match_step c) as [[c1|c1]|f0] eqn:Hs; simpl;
    try discriminate.
  - apply match_step_pops in Hs. lia.
  - intros [= <-]. by eapply match_step_faults.
  - apply IH. apply match_step_pops in Hs. lia.
  - intros [= <-]. by eapply match_step_faults.
Qed.

Lemma matchOrders_faults b f :
  Optimized.matchOrders b = Faulted f -> f = DerefEnd \/ f = FrontOfEmpty.
Proof.
  unfold Optimized.matchOrders.
  destruct (Optimized.match_loop _ _) as [c|f0] eqn:Hloop; [done|].
  simpl. intros [= <-]. eapply match_loop_faults; [|exact Hloop]. done.
Qed.

(** A market order larger than the opposing side, for the copy of
    [add_market] in OrderBookOptimized.cpp. *)
Lemma optimized_market_order_exhausts_opposing_side side qty b :
  side_in_range (OptimizedObs.opposing side b) ->
  qty < 2 ^ 32 ->
  available (OptimizedObs.opposing side b) < qty ->
  exists b',
    Optimized.add_market side qty b =
      Returned (sweep side (Optimized.nextOrderId_ b)
                  (OptimizedObs.opposing side b), b') /\
    OptimizedObs.opposing side b' = [] /\
    OptimizedObs.own side b' = OptimizedObs.own side b /\
    Optimized.orderIdToIterator_ b' ⊆ Optimized.orderIdToIterator_ b.
Proof.
  intros Hr Hq Ha.
  pose proof (available_nonneg _ Hr) as Hn.
  unfold Optimized.add_market.
  destruct (Z.eqb_spec qty 0) as [->|_]; [lia|]. simpl.
  destruct side; simpl in *;
    (rewrite consume_exhaust by (done || (simpl; lia))); simpl;
    eexists; (split; [reflexivity|]); simpl;
    repeat split; apply erase_all_subseteq.
Qed.

(** ** [Order::fill], [OrderPool::allocate] and [nextId] *)

(** X1. [fill] throws exactly when asked for more than the remaining
    quantity; otherwise it lowers the remaining quantity by the executed
    amount and changes nothing else.  Two fills in a row are one fill of
    the sum, the filled quantity grows by what was executed, and the order
    is filled exactly when the whole remainder was executed. *)
Theorem fill_composes {P : Type} (o : Order P) (a b : Qty) :
  0 <= a -> 0 <= b -> a + b <= remainingQty_ o ->
  remainingQty_ o <= initialQty_ o -> initialQty_ o < 2 ^ 32 ->
  (forall exec, remainingQty_ o < exec ->
                fill exec o = Faulted (LogicError "overfill")) /\
  (o1 ← fill a o; fill b o1) = fill (a + b) o /\
  exists o',
    fill (a + b) o = Returned o' /\
    same_order o' o /\
    remainingQty_ o' = remainingQty_ o - (a + b) /\
    getFilledQty o' = getFilledQty o + (a + b) /\
    (isFilled o' = true <-> a + b = remainingQty_ o).
Proof.
  intros Ha Hb Hab Hri Hi. split; [|split].
  - intros exec He. unfold fill.
    destruct (Z.gtb_spec exec (remainingQty_ o)); [done|lia].
  - rewrite (fill_le a o), (fill_le (a + b) o) by lia. simpl.
    rewrite fill_le; simpl; rewrite (wrap32_id (remainingQty_ o - a)) by lia;
      [|lia].
    unfold set_remaining. simpl. do 3 f_equal. lia.
  - rewrite (fill_le (a + b) o) by lia. eexists. split; [done|].
    split; [apply same_order_set_remaining|].
    unfold getFilledQty, isFilled. simpl.
    rewrite !wrap32_id by lia. split; [done|]. split; [lia|].
    rewrite Z.eqb_eq. lia.
Qed.

Lemma fill_composes_witness :
  let o := mkOrder 1 LIMIT BUY (Some 100) 10 10 in
  (forall exec, 10 < exec -> fill exec o = Faulted (LogicError "overfill")) /\
  (o1 ← fill 3 o; fill 4 o1) = fill 7 o /\
  exists o',
    fill 7 o = Returned o' /\ same_order o' o /\
    remainingQty_ o' = 3 /\ getFilledQty o' = 7 /\
    (isFilled o' = true <-> 3 + 4 = 10).
Proof.
  intros o.
  apply (fill_composes o 3 4); simpl; lia.
Defined.

Lemma removelast_snoc {A : Type} (l : list A) x : removelast (l ++ [x]) = l.
Proof. apply removelast_last. Qed.

Lemma last_snoc_pool {A : Type} (l : list A) x : last (l ++ [x]) = Some x.
Proof. apply last_snoc. Qed.

Lemma length_removelast_snoc {A : Type} (l : list A) x :
  l <> [] -> length (removelast l ++ [x]) = length l.
Proof.
  intros Hl. destruct (exists_last Hl) as (l' & y & ->).
  by rewrite removelast_last, !length_app.
Qed.

(** X2. [allocate] hands out the order at the back of the pool with every
    field set from its arguments, whatever the slot held before, and
    refills an empty pool with [defaultNumOrders] orders first.  It leaves
    that order in the pool: the next allocation takes the same slot and
    overwrites it, the pool keeps its length and its other slots, so the
    order handed out first is no longer what its slot holds. *)
Theorem allocate_reuses_back_slot (id1 id2 : OrderId) (side1 side2 : Side)
    (type1 type2 : OrderType) (qty1 qty2 : Qty) (price1 price2 : Price)
    (pool : list (Order Price)) :
  let r1 := Optimized.allocate id1 side1 type1 qty1 price1 pool in
  let r2 := Optimized.allocate id2 side2 type2 qty2 price2 r1.2 in
  r1.1 = mkOrder id1 type1 side1 price1 qty1 qty1 /\
  last r1.2 = Some r1.1 /\
  length r1.2 =
    match pool with
    | [] => Optimized.defaultNumOrders
    | _ :: _ => length pool
    end /\
  r2.1 = mkOrder id2 type2 side2 price2 qty2 qty2 /\
  last r2.2 = Some r2.1 /\
  length r2.2 = length r1.2 /\
  removelast r2.2 = removelast r1.2.
Proof.
  unfold Optimized.allocate. simpl.
  set (o1 := mkOrder id1 type1 side1 price1 qty1 qty1).
  set (o2 := mkOrder id2 type2 side2 price2 qty2 qty2).
  set (p := match pool with
            | [] => Optimized.generateOrders Optimized.defaultNumOrders
            | _ :: _ => pool
            end).
  assert (p <> []) as Hp by (unfold p; by destruct pool).
  assert (removelast p ++ [o1] <> []) as Hp1 by (by destruct (removelast p)).
  destruct (removelast p ++ [o1]) as [|x p1] eqn:E1; [done|]. rewrite <- E1.
  rewrite !removelast_snoc, !last_snoc_pool.
  repeat split.
  - rewrite length_removelast_snoc by done. unfold p.
    destruct pool; [|done]. unfold Optimized.generateOrders.
    by rewrite repeat_length.
  - by rewrite !length_app.
Qed.

(** ** Ids in the runs of OrderBook.cpp *)

Lemma serve_ids r h h' :
  0 <= Basic.nextOrderId_ (hist_book h) < 2 ^ 64 - 1 ->
  serve r h = Returned h' ->
  Basic.nextOrderId_ (hist_book h') =
    Basic.nextOrderId_ (hist_book h) + (if consumes_id r then 1 else 0) /\
  map fst (hist_orders h') =
    map fst (hist_orders h) ++
    (if consumes_id r then [Basic.nextOrderId_ (hist_book h)] else []).
Proof.
  intros Hn. destruct r as [side price qty|side qty|id]; unfold serve;
    cbn [consumes_id].
  - destruct (add_limit_resting side price qty (hist_book h)) as [_ Hnext].
    destruct (Basic.add_limit side price qty (hist_book h)) as [r b'].
    simpl in Hnext. rewrite wrap64_id in Hnext by lia.
    intros [= <-]. simpl. by rewrite map_app.
  - destruct (Basic.add_market side qty (hist_book h)) as [[trades b']|] eqn:E;
      [|done].
    cbn [mbind outcome_bind]. intros [= <-]. cbn [hist_book hist_orders].
    destruct (Z.eqb_spec qty 0) as [Hz|Hz]; cbn [negb].
    + rewrite add_market_zero_basic in E by done. injection E as <- <-.
      split; [lia|by rewrite !app_nil_r].
    + destruct (basic_add_market_walk side qty (hist_book h) Hz)
        as (b1 & E1 & _ & _ & _ & Hnext).
      rewrite E in E1. injection E1 as _ <-.
      rewrite wrap64_id in Hnext by lia. by rewrite map_app.
  - simpl. intros [= <-]. simpl. split; [lia|by rewrite app_nil_r].
Qed.

Lemma run_ids rs h h' :
  0 <= Basic.nextOrderId_ (hist_book h) ->
  Basic.nextOrderId_ (hist_book h) + Z.of_nat (length rs) < 2 ^ 64 ->
  run rs h = Returned h' ->
  let k := length (List.filter consumes_id rs) in
  Basic.nextOrderId_ (hist_book h') =
    Basic.nextOrderId_ (hist_book h) + Z.of_nat k /\
  map fst (hist_orders h') =
    map fst (hist_orders h) ++
    map (fun i => Basic.nextOrderId_ (hist_book h) + Z.of_nat i) (seq 0 k).
Proof.
  revert h. induction rs as [|r rs IH]; intros h H0 Hlen; simpl.
  - intros [= <-]. split; [lia|by rewrite app_nil_r].
  - destruct (serve r h) as [h1|] eqn:E; [|done]. simpl. intros Hrun.
    destruct (serve_ids r h h1) as [Hn Hl]; [simpl in Hlen; lia|done|].
    destruct (IH h1) as [Hn' Hl']; [destruct (consumes_id r); lia| |done|].
    { simpl in Hlen. destruct (consumes_id r); lia. }
    rewrite Hn', Hl', Hn, Hl. destruct (consumes_id r); simpl.
    + split; [lia|]. rewrite <- app_assoc. simpl. f_equal.
      rewrite Z.add_0_r. f_equal. rewrite <- seq_shift, map_map.
      apply map_ext. intros i. lia.
    + split; [lia|]. by rewrite app_nil_r, Z.add_0_r.
Qed.

(** X3. Ids are handed out in sequence from 1: after a run of
    OrderBook.cpp from the empty book, the orders created carry the ids
    1, 2, ..., k in the order of their creation and the counter stands at
    k + 1, where k counts the limit orders and the market orders of
    non-zero quantity; a market order of quantity 0 and a cancel take no
    id. *)
Theorem ids_are_consecutive (rs : list request) (h : history) :
  Z.of_nat (length rs) < 2 ^ 64 - 1 ->
  run rs start = Returned h ->
  Basic.nextOrderId_ (hist_book h) =
    Z.of_nat (S (length (List.filter consumes_id rs))) /\
  map fst (hist_orders h) =
    map Z.of_nat (seq 1 (length (List.filter consumes_id rs))).
Proof.
  intros Hlen Hrun.
  destruct (run_ids rs start h) as [Hn Hl]; [simpl; lia|simpl; lia|done|].
  simpl in Hn, Hl. split; [lia|].
  rewrite Hl, <- seq_shift, map_map. apply map_ext. intros i. lia.
Qed.

Lemma ids_are_consecutive_witness :
  Z.of_nat (length Samples.session) < 2 ^ 64 - 1 /\
  exists h,
    run Samples.session start = Returned h /\
    Basic.nextOrderId_ (hist_book h) = 4 /\
    map fst (hist_orders h) = [1; 2; 3].
Proof.
  assert (Z.of_nat (length Samples.session) < 2 ^ 64 - 1) as Hlen
    by (simpl; lia).
  split; [exact Hlen|].
  eexists. split; [vm_compute; reflexivity|].
  eapply (ids_are_consecutive Samples.session _ Hlen).
  vm_compute. reflexivity.
Defined.

(** ** How much a market order trades, and what it leaves *)

Lemma sum_Z_cons x l : sum_Z (x :: l) = x + sum_Z l.
Proof. done. Qed.

Lemma trade_qty_market_trade side marketId restingId price exec :
  trade_qty (market_trade side marketId restingId price exec) = exec.
Proof. by destruct side. Qed.

Lemma walk_totals {P : Type} side marketId q (queue : list (Price * Order P)) :
  walk_in_range q (map snd queue) ->
  unspent q (map snd queue) =
    q - Z.min q (sum_Z (map remainingQty_ (map snd queue))) /\
  sum_Z (map remainingQty_ (leftover q (map snd queue))) =
    sum_Z (map remainingQty_ (map snd queue)) -
    Z.min q (sum_Z (map remainingQty_ (map snd queue))) /\
  sum_Z (map trade_qty (fills side marketId q queue)) =
    Z.min q (sum_Z (map remainingQty_ (map snd queue))) /\
  Forall (fun o : Order P => 0 <= remainingQty_ o < 2 ^ 32)
         (leftover q (map snd queue)).
Proof.
  revert q. induction queue as [|[p o] rest IH]; intros q [Hq Hr];
    cbn -[sum_Z].
  - unfold sum_Z. simpl. repeat split; [lia..|done].
  - cbn -[sum_Z] in Hr. pose proof Hr as [Ho Hrest]%Forall_cons.
    pose proof (level_sum_nonneg _ Hrest) as Hnn.
    rewrite !sum_Z_cons.
    destruct (Z.gtb_spec q 0) as [Hpos|Hnp].
    + set (exec := Z.min q (remainingQty_ o)).
      assert (0 <= exec <= q /\ exec <= remainingQty_ o) as He
        by (unfold exec; lia).
      rewrite (wrap32_id (q - exec)), (wrap32_id (remainingQty_ o - exec))
        by lia.
      destruct (IH (q - exec)) as (Hu & Hl & Ht & Hf); [split; [lia|done]|].
      cbn -[sum_Z]. rewrite sum_Z_cons, trade_qty_market_trade, Hu, Ht.
      destruct (Z.eqb_spec (remainingQty_ o - exec) 0) as [E|E].
      * rewrite Hl. repeat split; [unfold exec in *; lia..|done].
      * cbn -[sum_Z]. rewrite sum_Z_cons, Hl. cbn -[sum_Z].
        repeat split; [unfold exec in *; lia..|].
        apply Forall_cons. split; [simpl; lia|done].
    + cbn -[sum_Z]. rewrite !sum_Z_cons. change (sum_Z []) with 0.
      repeat split; [lia..|done].
Qed.

(** X4. A market order trades the smaller of its quantity and the
    quantity available on the opposing side: the quantities of the trades
    returned add up to exactly that, and the opposing side loses exactly
    that much remaining quantity. *)
Theorem market_order_trades_what_is_available (side : Side) (qty : Qty)
    (b : Basic.OrderBook) :
  side_in_range (BasicObs.opposing side b) ->
  0 <= qty < 2 ^ 32 ->
  exists trades b',
    Basic.add_market side qty b = Returned (trades, b') /\
    sum_Z (map trade_qty trades) =
      Z.min qty (available (BasicObs.opposing side b)) /\
    available (BasicObs.opposing side b') =
      available (BasicObs.opposing side b) -
      Z.min qty (available (BasicObs.opposing side b)) /\
    side_in_range (BasicObs.opposing side b').
Proof.
  intros Hr Hq. pose proof (available_nonneg _ Hr) as Hnn.
  destruct (decide (qty = 0)) as [->|Hz].
  { exists [], b. rewrite add_market_zero_basic by done.
    split; [done|]. unfold sum_Z at 1. simpl. repeat split; [lia..|done]. }
  destruct (basic_add_market_walk side qty b Hz) as (b' & E & Hleft & _).
  eexists _, b'. split; [exact E|].
  destruct (walk_totals side (Basic.nextOrderId_ b) qty
              (priced_orders (BasicObs.opposing side b)))
    as (_ & Hl & Ht & Hf).
  { split; [done|]. by rewrite map_snd_priced_orders. }
  rewrite map_snd_priced_orders in Hl, Ht, Hf.
  unfold available, side_in_range. rewrite Hleft. done.
Qed.

Lemma market_order_trades_what_is_available_witness :
  side_in_range (BasicObs.opposing BUY Samples.asks60) /\
  exists trades b',
    Basic.add_market BUY 12 Samples.asks60 = Returned (trades, b') /\
    sum_Z (map trade_qty trades) = 12 /\
    available (BasicObs.opposing BUY b') = 48 /\
    side_in_range (BasicObs.opposing BUY b').
Proof.
  assert (side_in_range (BasicObs.opposing BUY Samples.asks60)) as Hr.
  { unfold side_in_range. simpl. repeat constructor; simpl; lia. }
  split; [exact Hr|].
  apply (market_order_trades_what_is_available BUY 12 Samples.asks60 Hr). lia.
Defined.

Lemma leftover_shape {P : Type} side marketId q (queue : list (Price * Order P)) :
  walk_in_range q (map snd queue) ->
  exists n,
    filled_ids q (map snd queue) = map id_ (take n (map snd queue)) /\
    ((leftover q (map snd queue) = drop n (map snd queue) /\
      length (fills side marketId q queue) = n) \/
     (exists o rest left,
        drop n (map snd queue) = o :: rest /\
        leftover q (map snd queue) = set_remaining o left :: rest /\
        0 < left < remainingQty_ o /\
        length (fills side marketId q queue) = S n)).
Proof.
  revert q. induction queue as [|[p o] rest IH]; intros q [Hq Hr]; simpl.
  - exists 0%nat. split; [done|]. by left.
  - simpl in Hr. apply Forall_cons in Hr as [Ho Hrest].
    destruct (Z.gtb_spec q 0) as [Hpos|Hnp]; [|exists 0%nat; split; [done|by left]].
    set (exec := Z.min q (remainingQty_ o)).
    assert (0 <= exec <= q /\ exec <= remainingQty_ o) as He
      by (unfold exec; lia).
    rewrite (wrap32_id (q - exec)), (wrap32_id (remainingQty_ o - exec)) by lia.
    destruct (Z.eqb_spec (remainingQty_ o - exec) 0) as [E|E].
    + destruct (IH (q - exec)) as (n & Hf & Hshape); [split; [lia|done]|].
      exists (S n). simpl. rewrite Hf. split; [done|].
      destruct Hshape as [[Hl Hlen]|(o' & r & left & Hd & Hl & Hleft & Hlen)].
      * left. by rewrite Hlen.
      * right. exists o', r, left. by rewrite Hlen.
    + assert (exec = q) as Heq by (unfold exec in *; lia).
      exists 0%nat. simpl.
      rewrite Heq, Z.sub_diag, filled_ids_stop, leftover_stop, fills_stop
        by done.
      split; [done|]. right. exists o, (map snd rest), (remainingQty_ o - q).
      repeat split; lia.
Qed.

(** X5. A market order takes a front part of the opposing queue (levels
    from the best price, each level from its front): it erases the first n
    orders from ledger and index, leaves the rest as it was, except that
    the first order left may be partly filled, to a remaining quantity
    above 0 and below what it had; one trade is returned per order
    touched.  The own side is not changed. *)
Theorem market_order_leaves_a_suffix (side : Side) (qty : Qty)
    (b : Basic.OrderBook) :
  side_in_range (BasicObs.opposing side b) ->
  0 <= qty < 2 ^ 32 ->
  exists trades b' n,
    Basic.add_market side qty b = Returned (trades, b') /\
    BasicObs.own side b' = BasicObs.own side b /\
    Basic.orderIdToIterator_ b' =
      erase_all (map id_ (take n (orders_of (BasicObs.opposing side b))))
                (Basic.orderIdToIterator_ b) /\
    ((orders_of (BasicObs.opposing side b') =
        drop n (orders_of (BasicObs.opposing side b)) /\
      length trades = n) \/
     (exists o rest left,
        drop n (orders_of (BasicObs.opposing side b)) = o :: rest /\
        orders_of (BasicObs.opposing side b') = set_remaining o left :: rest /\
        0 < left < remainingQty_ o /\
        length trades = S n)).
Proof.
  intros Hr Hq.
  destruct (decide (qty = 0)) as [->|Hz].
  { exists [], b, 0%nat. rewrite add_market_zero_basic by done.
    repeat split. by left. }
  destruct (basic_add_market_walk side qty b Hz)
    as (b' & E & Hleft & Hown & Hidx & _).
  destruct (leftover_shape side (Basic.nextOrderId_ b) qty
              (priced_orders (BasicObs.opposing side b)))
    as (n & Hf & Hshape).
  { split; [done|]. by rewrite map_snd_priced_orders. }
  rewrite map_snd_priced_orders in Hf, Hshape.
  eexists _, b', n. split; [exact E|]. split; [done|].
  rewrite Hidx, Hf, Hleft. done.
Qed.

Lemma market_order_leaves_a_suffix_witness :
  side_in_range (BasicObs.opposing BUY Samples.asks60) /\
  exists trades b' n,
    Basic.add_market BUY 12 Samples.asks60 = Returned (trades, b') /\
    BasicObs.own BUY b' = BasicObs.own BUY Samples.asks60 /\
    Basic.orderIdToIterator_ b' =
      erase_all (map id_ (take n (orders_of (BasicObs.opposing BUY Samples.asks60))))
                (Basic.orderIdToIterator_ Samples.asks60) /\
    ((orders_of (BasicObs.opposing BUY b') =
        drop n (orders_of (BasicObs.opposing BUY Samples.asks60)) /\
      length trades = n) \/
     (exists o rest left,
        drop n (orders_of (BasicObs.opposing BUY Samples.asks60)) = o :: rest /\
        orders_of (BasicObs.opposing BUY b') = set_remaining o left :: rest /\
        0 < left < remainingQty_ o /\
        length trades = S n)).
Proof.
  assert (side_in_range (BasicObs.opposing BUY Samples.asks60)) as Hr.
  { unfold side_in_range. simpl. repeat constructor; simpl; lia. }
  split; [exact Hr|].
  apply (market_order_leaves_a_suffix BUY 12 Samples.asks60 Hr). lia.
Defined.

(** X6. A resting order whose remaining quantity is 0 (a limit order of
    quantity 0 is accepted) is served like any other: a market order that
    finds it at the front of the best level returns a trade of quantity 0
    with it first and erases it from the index. *)
Theorem market_order_trades_zero_with_empty_order (side : Side) (qty : Qty)
    (b : Basic.OrderBook) (price : Price) (o : Order (option Price))
    (level : list (Order (option Price)))
    (others : list (Price * list (Order (option Price)))) :
  0 < qty < 2 ^ 32 ->
  BasicObs.opposing side b = (price, o :: level) :: others ->
  remainingQty_ o = 0 ->
  exists trades b',
    Basic.add_market side qty b =
      Returned (market_trade side (Basic.nextOrderId_ b) (id_ o) price 0
                  :: trades, b') /\
    Basic.orderIdToIterator_ b' !! id_ o = None.
Proof.
  intros Hq Hopp Hrem.
  destruct (basic_add_market_walk side qty b) as (b' & E & _ & _ & Hidx & _);
    [lia|].
  rewrite Hopp in E, Hidx. simpl in E, Hidx.
  destruct (Z.gtb_spec qty 0) as [_|]; [|lia].
  rewrite Hrem in E, Hidx. rewrite Z.min_r in E, Hidx by lia.
  simpl in Hidx. eexists _, b'. split; [exact E|].
  destruct (Basic.orderIdToIterator_ b' !! id_ o) as [hd|] eqn:El; [|done].
  assert (is_Some (Basic.orderIdToIterator_ b' !! id_ o)) as Hs by by rewrite El.
  rewrite Hidx in Hs. change (delete ?i ?m) with (erase_all [i] m) in Hs.
  rewrite <- erase_all_app in Hs. apply erase_all_lookup in Hs as [_ Hnot].
  destruct Hnot. simpl. left.
Qed.

Lemma market_order_trades_zero_with_empty_order_witness :
  BasicObs.opposing SELL Samples.zero_bid =
    (100, mkOrder 1 LIMIT BUY (Some 100) 0 0 :: []) :: [] /\
  exists trades b',
    Basic.add_market SELL 5 Samples.zero_bid =
      Returned (market_trade SELL 2 1 100 0 :: trades, b') /\
    Basic.orderIdToIterator_ b' !! 1 = None.
Proof.
  split; [reflexivity|].
  apply (market_order_trades_zero_with_empty_order SELL 5 Samples.zero_bid 100
           (mkOrder 1 LIMIT BUY (Some 100) 0 0) [] []); [lia|reflexivity..].
Defined.

(** ** The order of the trades of a market order *)

Lemma fills_prefix {P : Type} side marketId q (queue : list (Price * Order P)) :
  map (resting_id side) (fills side marketId q queue)
    `prefix_of` map id_ (map snd queue) /\
  map trade_price (fills side marketId q queue) `prefix_of` map fst queue /\
  Forall (fun t => market_leg_id side t = marketId /\
                   ti_price (getBuy t) = ti_price (getSell t))
         (fills side marketId q queue).
Proof.
  revert q. induction queue as [|[p o] rest IH]; intros q; simpl.
  - repeat split; [apply prefix_nil..|done].
  - destruct (q >? 0); simpl; [|repeat split; [apply prefix_nil..|done]].
    destruct (IH (wrap32 (q - Z.min q (remainingQty_ o)))) as (H1 & H2 & H3).
    split; [|split].
    + destruct (market_trade_prices side marketId (id_ o) p
                  (Z.min q (remainingQty_ o))) as (_ & _ & ->).
      by apply prefix_cons.
    + unfold trade_price at 1.
      destruct (market_trade_prices side marketId (id_ o) p
                  (Z.min q (remainingQty_ o))) as (-> & _ & _).
      by apply prefix_cons.
    + apply Forall_cons. split; [by destruct side|done].
Qed.

Lemma market_prices_prefix side qty b b' trades :
  Basic.add_market side qty b = Returned (trades, b') ->
  map trade_price trades
    `prefix_of` map fst (priced_orders (BasicObs.opposing side b)).
Proof.
  intros Hm. destruct (decide (qty = 0)) as [Hz|Hz].
  { rewrite add_market_zero_basic in Hm by done. injection Hm as <- <-.
    apply prefix_nil. }
  destruct (basic_add_market_walk side qty b Hz) as (b1 & E & _).
  rewrite E in Hm. injection Hm as <- <-. apply fills_prefix.
Qed.

(** X7. The trades a market order returns follow the opposing queue: the
    resting orders they name are, in order, the first orders of the queue
    (levels from [begin()], each level from its front), each at the price
    of its level on both legs, and every trade carries on the leg of the
    submitted side the id the counter held before the call. *)
Theorem market_trades_follow_the_queue (side : Side) (qty : Qty)
    (b b' : Basic.OrderBook) (trades : list Trade) :
  Basic.add_market side qty b = Returned (trades, b') ->
  map (resting_id side) trades
    `prefix_of` map id_ (orders_of (BasicObs.opposing side b)) /\
  map trade_price trades
    `prefix_of` map fst (priced_orders (BasicObs.opposing side b)) /\
  Forall (fun t => market_leg_id side t = Basic.nextOrderId_ b /\
                   ti_price (getBuy t) = ti_price (getSell t))
         trades.
Proof.
  intros Hm. destruct (decide (qty = 0)) as [Hz|Hz].
  { rewrite add_market_zero_basic in Hm by done. injection Hm as <- <-.
    repeat split; [apply prefix_nil..|done]. }
  destruct (basic_add_market_walk side qty b Hz) as (b1 & E & _).
  rewrite E in Hm. injection Hm as <- <-.
  rewrite <- map_snd_priced_orders. apply fills_prefix.
Qed.

Lemma market_trades_follow_the_queue_witness :
  exists trades b',
    Basic.add_market BUY 12 Samples.asks60 = Returned (trades, b') /\
    map (resting_id BUY) trades = [1; 2] /\
    map (resting_id BUY) trades
      `prefix_of` map id_ (orders_of (BasicObs.opposing BUY Samples.asks60)) /\
    map trade_price trades
      `prefix_of` map fst (priced_orders (BasicObs.opposing BUY Samples.asks60)) /\
    Forall (fun t => market_leg_id BUY t = Basic.nextOrderId_ Samples.asks60 /\
                     ti_price (getBuy t) = ti_price (getSell t))
           trades.
Proof.
  eexists _, _. split; [vm_compute; reflexivity|]. split; [reflexivity|].
  eapply (market_trades_follow_the_queue BUY 12 Samples.asks60).
  vm_compute. reflexivity.
Defined.

Lemma priced_keys_sorted {P : Type} (R R' : relation Price)
    (m : list (Price * list (Order P))) :
  (forall a b, R a b -> R' a b) -> (forall a, R' a a) ->
  StronglySorted R (map fst m) ->
  StronglySorted R' (map fst (priced_orders m)).
Proof.
  intros Hsub Hrefl. induction m as [|[p l] m IH]; [simpl; constructor|].
  intros Hs. simpl in Hs. apply StronglySorted_inv in Hs as [Hs Hf].
  rewrite priced_orders_cons, map_app. apply StronglySorted_app.
  split; [|split; [|by apply IH]].
  - intros x1 x2 Hx1 Hx2.
    rewrite map_fmap in Hx1. apply list_elem_of_fmap in Hx1 as ([p1 o1] & -> & H1).
    rewrite map_fmap in H1. apply list_elem_of_fmap in H1 as (o & [= -> ->] & _).
    rewrite map_fmap in Hx2. apply list_elem_of_fmap in Hx2 as ([p2 o2] & -> & H2).
    apply elem_of_priced_orders in H2 as (l2 & Hl2 & _).
    rewrite Forall_forall in Hf. apply Hsub, Hf. simpl.
    rewrite map_fmap. apply list_elem_of_fmap. by exists (p2, l2).
  - clear -Hrefl. induction l as [|o l IHl]; simpl; [constructor|].
    constructor; [done|]. apply Forall_forall. intros x Hx.
    rewrite map_fmap in Hx. apply list_elem_of_fmap in Hx as ([p1 o1] & -> & H1).
    rewrite map_fmap in H1. apply list_elem_of_fmap in H1 as (o' & [= -> ->] & _).
    apply Hrefl.
Qed.

Lemma StronglySorted_prefix {A : Type} (R : relation A) (l1 l2 : list A) :
  l1 `prefix_of` l2 -> StronglySorted R l2 -> StronglySorted R l1.
Proof. intros [k ->]. by intros (_ & ? & _)%StronglySorted_app. Qed.

(** X8. Best price first: in a book reached by a run of OrderBook.cpp, the
    trades of a market buy come at prices that never decrease along the
    returned sequence, and the trades of a market sell at prices that
    never increase. *)
Theorem market_trades_best_price_first (rs : list request) (h : history)
    (side : Side) (qty : Qty) (trades : list Trade) (b' : Basic.OrderBook) :
  Forall request_in_range rs ->
  Z.of_nat (length rs) < 2 ^ 64 - 1 ->
  run rs start = Returned h ->
  Basic.add_market side qty (hist_book h) = Returned (trades, b') ->
  StronglySorted (priority side) (map trade_price trades).
Proof.
  intros Hr Hlen Hrun Hm.
  destruct (reachable_well_formed rs h Hr Hlen Hrun)
    as (_ & (Hka & Hkb & _) & _).
  pose proof (market_prices_prefix side qty (hist_book h) b' trades Hm) as Hp.
  eapply StronglySorted_prefix; [exact Hp|].
  destruct side; simpl.
  - apply (priced_keys_sorted Z.lt Z.le); [lia|lia|done].
  - apply (priced_keys_sorted Z.gt Z.ge); [lia|lia|done].
Qed.

Lemma market_trades_best_price_first_witness :
  Forall request_in_range Samples.three_asks /\
  exists trades b',
    run Samples.three_asks start =
      Returned (mkHistory Samples.asks60 [] [(1, 10); (2, 20); (3, 30)]) /\
    Basic.add_market BUY 40 Samples.asks60 = Returned (trades, b') /\
    map trade_price trades = [100; 100; 101] /\
    StronglySorted (priority BUY) (map trade_price trades).
Proof.
  assert (Forall request_in_range Samples.three_asks) as Hr.
  { unfold Samples.three_asks. repeat constructor; simpl; lia. }
  split; [exact Hr|].
  eexists _, _. split; [reflexivity|]. split; [vm_compute; reflexivity|].
  split; [reflexivity|].
  eapply (market_trades_best_price_first Samples.three_asks
            (mkHistory Samples.asks60 [] [(1, 10); (2, 20); (3, 30)])
            BUY 40 _ _ Hr).
  - simpl. lia.
  - reflexivity.
  - vm_compute. reflexivity.
Defined.

(** ** [add_limit] of OrderBook.cpp *)

Section OtherKeys.
Context {L : Type}.
Variable before : Price -> Price -> bool.
Hypothesis before_trans :
  forall a b c, before a b = true -> before b c = true -> before a c = true.
Hypothesis before_total :
  forall a b, before a b = false -> before b a = false -> a = b.

(** [m[k]] and a write through it leave the other keys as they were. *)
Lemma level_at_push_other (dflt : L) k k' (f : L -> L) (m : list (Price * L)) :
  k' <> k ->
  level_at before k' (at_key before k f (subscript before dflt k m)) =
  level_at before k' m.
Proof.
  intros Hne. induction m as [|[k1 l] m IH]; simpl.
  - destruct (before k k) eqn:Ekk; simpl;
      destruct (before k' k) eqn:E1; try done;
      destruct (before k k') eqn:E2; try done;
      destruct Hne; by apply before_total.
  - destruct (before k k1) eqn:Ek; simpl.
    + destruct (before k k) eqn:Ekk; simpl.
      * destruct (before k' k) eqn:E1.
        { by rewrite (before_trans _ _ _ E1 Ek). }
        destruct (before k k') eqn:E2; [done|].
        destruct Hne; by apply before_total.
      * destruct (before k' k) eqn:E1.
        { by rewrite (before_trans _ _ _ E1 Ek). }
        destruct (before k k') eqn:E2; [done|].
        destruct Hne; by apply before_total.
    + destruct (before k1 k) eqn:Ek'; simpl; rewrite Ek, Ek'; simpl.
      * destruct (before k' k1); [done|]. destruct (before k1 k'); [apply IH|done].
      * destruct (before k' k1) eqn:E1; [done|].
        destruct (before k1 k') eqn:E2; [done|].
        destruct Hne. rewrite (before_total _ _ Ek Ek').
        by apply before_total.
Qed.
End OtherKeys.

Lemma less_trans a b c : less a b = true -> less b c = true -> less a c = true.
Proof. rewrite !less_spec. lia. Qed.

Lemma greater_trans a b c :
  greater a b = true -> greater b c = true -> greater a c = true.
Proof. rewrite !greater_spec. lia. Qed.

(** X9. [add_limit] of OrderBook.cpp, on any book: the order, with the id
    the counter held and its whole quantity remaining, becomes the last
    order of the level of its price on its own side (a level of its own
    when the price was absent); the levels of all other prices and the
    opposite side stay as they were; the counter moves on by one; the id
    is entered in the index with the order's side and price unless the id
    is already a key, in which case the index is left as it was; and no
    trades value is produced. *)
Theorem add_limit_appends_to_its_level (side : Side) (price : Price)
    (qty : Qty) (b : Basic.OrderBook) :
  let o := mkOrder (Basic.nextOrderId_ b) LIMIT side (Some price) qty qty in
  let handle := mkHandle side price (NodeOf (Basic.nextOrderId_ b)) in
  let b' := (Basic.add_limit side price qty b).2 in
  let before := match side with BUY => greater | SELL => less end in
  level_at before price (BasicObs.own side b') =
    Some (default [] (level_at before price (BasicObs.own side b)) ++ [o]) /\
  (forall k, k <> price ->
     level_at before k (BasicObs.own side b') =
     level_at before k (BasicObs.own side b)) /\
  BasicObs.opposing side b' = BasicObs.opposing side b /\
  Basic.nextOrderId_ b' = wrap64 (Basic.nextOrderId_ b + 1) /\
  Basic.orderIdToIterator_ b' =
    match Basic.orderIdToIterator_ b !! Basic.nextOrderId_ b with
    | Some _ => Basic.orderIdToIterator_ b
    | None => <[Basic.nextOrderId_ b := handle]> (Basic.orderIdToIterator_ b)
    end /\
  (Basic.add_limit side price qty b).1 = None.
Proof.
  destruct side; simpl; repeat split.
  - by rewrite (level_at_push greater) by apply greater_irrefl.
  - intros k Hk.
    apply (level_at_push_other greater greater_trans greater_total); done.
  - by rewrite (level_at_push less) by apply less_irrefl.
  - intros k Hk.
    apply (level_at_push_other less less_trans less_total); done.
Qed.

(** ** The books and the index that runs of OrderBook.cpp reach *)

(** X10. Shape of the book after any run of OrderBook.cpp from the empty
    book: the ask prices are strictly ascending and the bid prices
    strictly descending; no level is empty; every order sits in the level
    of its own price on the side of its own side, is a limit order, and
    has an id between 1 and the counter; within a level the ids increase
    from front to back, and no id rests twice in the book. *)
Theorem reachable_book_shape (rs : list request) (h : history) :
  Forall request_in_range rs ->
  Z.of_nat (length rs) < 2 ^ 64 - 1 ->
  run rs start = Returned h ->
  StronglySorted Z.lt (map fst (Basic.asks_ (hist_book h))) /\
  StronglySorted Z.gt (map fst (Basic.bids_ (hist_book h))) /\
  (forall side price level,
     (price, level) ∈ BasicObs.own side (hist_book h) ->
     level <> [] /\
     StronglySorted Z.lt (map id_ level) /\
     forall o, o ∈ level ->
       price_ o = Some price /\ side_ o = side /\ type_ o = LIMIT /\
       1 <= id_ o < Basic.nextOrderId_ (hist_book h)) /\
  NoDup (map id_ (resting_orders (hist_book h))).
Proof.
  intros Hr Hlen Hrun.
  destruct (reachable_well_formed rs h Hr Hlen Hrun)
    as (_ & (Hka & Hkb & Hla & Hlb & Hnd & _) & _).
  split; [done|]. split; [done|]. split; [|done].
  intros side price level Hin.
  assert (level_wf side (Basic.nextOrderId_ (hist_book h)) (price, level))
    as (Hne & Hs & Hf).
  { destruct side; simpl in Hin.
    - rewrite Forall_forall in Hlb. by apply Hlb.
    - rewrite Forall_forall in Hla. by apply Hla. }
  simpl in *. split; [done|]. split; [done|].
  intros o Ho. rewrite Forall_forall in Hf. by apply Hf.
Qed.

Lemma reachable_book_shape_witness :
  Forall request_in_range Samples.three_asks /\
  let h := mkHistory Samples.asks60 [] [(1, 10); (2, 20); (3, 30)] in
  run Samples.three_asks start = Returned h /\
  StronglySorted Z.lt (map fst (Basic.asks_ (hist_book h))) /\
  StronglySorted Z.gt (map fst (Basic.bids_ (hist_book h))) /\
  (forall side price level,
     (price, level) ∈ BasicObs.own side (hist_book h) ->
     level <> [] /\
     StronglySorted Z.lt (map id_ level) /\
     forall o, o ∈ level ->
       price_ o = Some price /\ side_ o = side /\ type_ o = LIMIT /\
       1 <= id_ o < Basic.nextOrderId_ (hist_book h)) /\
  NoDup (map id_ (resting_orders (hist_book h))).
Proof.
  assert (Forall request_in_range Samples.three_asks) as Hr.
  { unfold Samples.three_asks. repeat constructor; simpl; lia. }
  split; [exact Hr|]. intros h. split; [reflexivity|].
  apply (reachable_book_shape Samples.three_asks h Hr); [simpl; lia|reflexivity].
Defined.

Lemma StronglySorted_weaken {A : Type} (R R' : relation A) (l : list A) :
  (forall a b, R a b -> R' a b) -> StronglySorted R l -> StronglySorted R' l.
Proof.
  intros HR. induction 1 as [|a l Hs IH Hf]; constructor; [done|].
  eapply Forall_impl; [exact Hf|]. intros b. apply HR.
Qed.

(** [find] on a map with distinct sorted keys returns the level stored
    with the key. *)
Lemma level_at_elem {L : Type} (before : Price -> Price -> bool)
    (m : list (Price * L)) k l :
  (forall a, before a a = false) ->
  (forall a b, before a b = true -> before b a = false) ->
  StronglySorted (fun a b => before a b = true) (map fst m) ->
  (k, l) ∈ m -> level_at before k m = Some l.
Proof.
  intros Hirr Hasym. induction m as [|[k1 l1] m IH]; simpl; intros Hs Hin.
  - by apply elem_of_nil in Hin.
  - apply StronglySorted_inv in Hs as [Hs Hf].
    apply elem_of_cons in Hin as [[= -> ->]|Hin].
    + by rewrite Hirr.
    + assert (before k1 k = true) as Hb.
      { rewrite Forall_forall in Hf. apply Hf.
        rewrite map_fmap. apply list_elem_of_fmap. by exists (k, l). }
      rewrite (Hasym _ _ Hb), Hb. by apply IH.
Qed.

Lemma NoDup_map_inj {A B : Type} (f : A -> B) (l : list A) x y :
  NoDup (map f l) -> x ∈ l -> y ∈ l -> f x = f y -> x = y.
Proof.
  intros Hnd (i & Hi)%list_elem_of_lookup_1 (j & Hj)%list_elem_of_lookup_1 Hf.
  assert (i = j) as ->.
  { eapply NoDup_lookup; [exact Hnd| |]; rewrite map_fmap, list_lookup_fmap.
    - by rewrite Hi.
    - rewrite Hj. simpl. by rewrite Hf. }
  congruence.
Qed.

Lemma serve_handles n r h h' :
  request_in_range r -> conserved (S n) h -> well_formed h ->
  handles_agree (hist_book h) ->
  serve r h = Returned h' -> handles_agree (hist_book h').
Proof.
  intros Hr Hc (_ & _ & Hla & Hlb & _ & Hidx & _) Hag.
  destruct r as [side price qty|side qty|id0]; unfold serve.
  - destruct (add_limit_resting side price qty (hist_book h)) as [Hperm _].
    destruct (add_limit_fields side price qty (hist_book h))
      as (_ & _ & Hindex & _).
    destruct (Basic.add_limit side price qty (hist_book h)) as [r b'].
    intros [= <-]. simpl in *.
    assert (Forall (fun o => 1 <= id_ o < Basic.nextOrderId_ (hist_book h))
                   (resting_orders (hist_book h))) as Hbelow.
    { apply Forall_app. split; eapply side_ids_below; eauto. }
    rewrite Forall_forall in Hbelow.
    assert (Basic.orderIdToIterator_ (hist_book h)
              !! Basic.nextOrderId_ (hist_book h) = None) as Hfresh.
    { apply eq_None_not_Some. rewrite Hidx, map_fmap, list_elem_of_fmap.
      intros (o & E & Ho). specialize (Hbelow _ Ho). lia. }
    unfold map_insert in Hindex. rewrite Hfresh in Hindex.
    intros id hd. rewrite Hindex.
    destruct (decide (id = Basic.nextOrderId_ (hist_book h))) as [->|Hne].
    + rewrite lookup_insert_eq. intros [= <-]. simpl. split; [done|].
      intros o Ho Hid. rewrite Hperm in Ho.
      apply elem_of_cons in Ho as [->|Ho]; [done|].
      specialize (Hbelow _ Ho). lia.
    + rewrite lookup_insert_ne by done. intros Hl.
      destruct (Hag _ _ Hl) as [Hit Hres]. split; [done|].
      intros o Ho Hid. rewrite Hperm in Ho.
      apply elem_of_cons in Ho as [->|Ho]; [done|]. by apply Hres.
  - destruct (Basic.add_market side qty (hist_book h)) as [[trades b']|] eqn:E;
      [|done].
    simpl. intros [= <-]. simpl.
    destruct (Z.eqb_spec qty 0) as [Hz|Hz].
    { rewrite add_market_zero_basic in E by done. by injection E as <- <-. }
    destruct (basic_add_market_walk side qty (hist_book h) Hz)
      as (b1 & E1 & Hleft & Hown & Hindex & _).
    rewrite E in E1. injection E1 as _ <-.
    intros id hd Hl. rewrite Hindex in Hl.
    eapply lookup_weaken in Hl; [|apply erase_all_subseteq].
    destruct (Hag _ _ Hl) as [Hit Hres]. split; [done|].
    intros o Ho Hid.
    rewrite (resting_orders_sides side b'), Hleft, Hown in Ho.
    apply elem_of_app in Ho as [Ho|Ho].
    + apply leftover_descend in Ho as (o0 & Ho0 & Hid0 & Hp & Hsd & _).
      rewrite Hp, Hsd. apply Hres; [|congruence].
      rewrite (resting_orders_sides side). apply elem_of_app. by left.
    + apply Hres; [|done].
      rewrite (resting_orders_sides side). apply elem_of_app. by right.
  - simpl. by intros [= <-].
Qed.

Lemma run_handles rs h h' :
  Forall request_in_range rs -> conserved (length rs) h -> well_formed h ->
  handles_agree (hist_book h) ->
  run rs h = Returned h' -> handles_agree (hist_book h').
Proof.
  revert h. induction rs as [|r rs IH]; intros h Hr Hc Hwf Hag; simpl.
  - by intros [= <-].
  - apply Forall_cons in Hr as [Hr Hrs].
    destruct (serve_conserved _ r h Hr Hc) as (h1 & E & Hc1).
    rewrite E. simpl. apply IH; try done.
    + eapply serve_well_formed; eauto.
    + eapply serve_handles; eauto.
Qed.

(** X11. The index of OrderBook.cpp after any run from the empty book:
    the handle stored under an id carries the iterator of the node of
    that id, and the side and price of the handle lead to it: the level
    found at the handle's price in the map of the handle's side holds
    an order of that id, and no other resting order has the id.
    Conversely every resting order is a key of the index. *)
Theorem index_locates_resting_orders (rs : list request) (h : history) :
  Forall request_in_range rs ->
  Z.of_nat (length rs) < 2 ^ 64 - 1 ->
  run rs start = Returned h ->
  (forall id hd,
     Basic.orderIdToIterator_ (hist_book h) !! id = Some hd ->
     h_it hd = NodeOf id /\
     exists level o,
       level_at (match h_side hd with BUY => greater | SELL => less end)
                (h_price hd) (BasicObs.own (h_side hd) (hist_book h))
         = Some level /\
       o ∈ level /\ id_ o = id /\
       forall o', o' ∈ resting_orders (hist_book h) -> id_ o' = id -> o' = o) /\
  (forall o, o ∈ resting_orders (hist_book h) ->
     is_Some (Basic.orderIdToIterator_ (hist_book h) !! id_ o)).
Proof.
  intros Hr Hlen Hrun.
  destruct (reachable_well_formed rs h Hr Hlen Hrun)
    as (_ & (Hka & Hkb & Hla & Hlb & Hnd & Hidx & _) & _).
  assert (handles_agree (hist_book h)) as Hag.
  { eapply (run_handles rs start); try done.
    - apply start_conserved. lia.
    - apply start_well_formed. }
  split.
  - intros id hd Hl. destruct (Hag _ _ Hl) as [Hit Hres]. split; [done|].
    assert (id ∈ map id_ (resting_orders (hist_book h))) as Hin.
    { apply Hidx. by eexists. }
    rewrite map_fmap in Hin. apply list_elem_of_fmap in Hin as (o & -> & Ho).
    destruct (Hres o Ho eq_refl) as [Hsd Hp].
    assert (forall o', o' ∈ resting_orders (hist_book h) ->
                       id_ o' = id_ o -> o' = o) as Huniq.
    { intros o' Ho' Hid. by apply (NoDup_map_inj id_ _ _ _ Hnd). }
    unfold resting_orders in Ho. apply elem_of_app in Ho as [Ho|Ho];
      apply elem_of_orders_of in Ho as (price & level & Hpl & Hol).
    + rewrite Forall_forall in Hla.
      destruct (Hla _ Hpl) as (_ & _ & Hf). simpl in Hf.
      rewrite Forall_forall in Hf. destruct (Hf _ Hol) as (Hp' & Hs' & _).
      rewrite <- Hsd, Hs'. simpl.
      assert (h_price hd = price) as -> by congruence.
      exists level, o. split; [|done].
      apply level_at_elem; [apply less_irrefl| |
        eapply StronglySorted_weaken; [|exact Hka]|done].
      * intros a b. rewrite less_spec. intros ?.
        apply not_true_is_false. rewrite less_spec. lia.
      * intros a b ?. apply less_spec. done.
    + rewrite Forall_forall in Hlb.
      destruct (Hlb _ Hpl) as (_ & _ & Hf). simpl in Hf.
      rewrite Forall_forall in Hf. destruct (Hf _ Hol) as (Hp' & Hs' & _).
      rewrite <- Hsd, Hs'. simpl.
      assert (h_price hd = price) as -> by congruence.
      exists level, o. split; [|done].
      apply level_at_elem; [apply greater_irrefl| |
        eapply StronglySorted_weaken; [|exact Hkb]|done].
      * intros a b. rewrite greater_spec. intros ?.
        apply not_true_is_false. rewrite greater_spec. lia.
      * intros a b ?. apply greater_spec. done.
  - intros o Ho. apply Hidx. rewrite map_fmap. by apply list_elem_of_fmap_2.
Qed.

Lemma index_locates_resting_orders_witness :
  Forall request_in_range Samples.session /\
  let h := mkHistory
             {| Basic.asks_ := [(100, [mkOrder 2 LIMIT SELL (Some 100) 5 3])];
                Basic.bids_ := [];
                Basic.orderIdToIterator_ :=
                  {[ 2 := mkHandle SELL 100 (NodeOf 2) ]};
                Basic.nextOrderId_ := 4 |}
             [market_trade BUY 3 1 100 10; market_trade BUY 3 2 100 2]
             [(1, 10); (2, 5); (3, 12)] in
  run Samples.session start = Returned h /\
  (forall id hd,
     Basic.orderIdToIterator_ (hist_book h) !! id = Some hd ->
     h_it hd = NodeOf id /\
     exists level o,
       level_at (match h_side hd with BUY => greater | SELL => less end)
                (h_price hd) (BasicObs.own (h_side hd) (hist_book h))
         = Some level /\
       o ∈ level /\ id_ o = id /\
       forall o', o' ∈ resting_orders (hist_book h) -> id_ o' = id -> o' = o) /\
  (forall o, o ∈ resting_orders (hist_book h) ->
     is_Some (Basic.orderIdToIterator_ (hist_book h) !! id_ o)).
Proof.
  assert (Forall request_in_range Samples.session) as Hr.
  { unfold Samples.session. repeat constructor; simpl; lia. }
  split; [exact Hr|]. intros h.
  assert (run Samples.session start = Returned h) as Hrun.
  { vm_compute. reflexivity. }
  split; [exact Hrun|].
  apply (index_locates_resting_orders Samples.session h Hr); [simpl; lia|exact Hrun].
Defined.

(** X12. In runs of OrderBook.cpp from the empty book whose limit orders
    have a positive quantity, every resting order has a positive remaining
    quantity, and an order whose trades add up to its initial quantity is
    neither in the book nor in the index. *)
Theorem filled_orders_leave_the_book (rs : list request) (h : history) :
  Forall request_in_range rs -> Forall request_positive rs ->
  Z.of_nat (length rs) < 2 ^ 64 - 1 ->
  run rs start = Returned h ->
  Forall (fun o => 0 < remainingQty_ o <= initialQty_ o)
         (resting_orders (hist_book h)) /\
  forall id qty,
    (id, qty) ∈ hist_orders h ->
    traded id (hist_trades h) = qty ->
    (id ∉ map id_ (resting_orders (hist_book h))) /\
    Basic.orderIdToIterator_ (hist_book h) !! id = None.
Proof.
  intros Hr Hpos Hlen Hrun.
  destruct (reachable_well_formed rs h Hr Hlen Hrun)
    as ((_ & _ & Hndo & Hsum & Hok & _) & (_ & _ & _ & _ & Hnd & Hidx & _) & _).
  assert (Forall live (resting_orders (hist_book h))) as Hl.
  { eapply (run_live rs start); try done.
    apply start_conserved. lia. }
  rewrite Forall_forall in Hl, Hok.
  split.
  - apply Forall_forall. intros o Ho.
    specialize (Hl _ Ho). destruct (Hok _ Ho) as [? _]. unfold live in Hl. lia.
  - intros id qty Hin Htr.
    assert (id ∉ map id_ (resting_orders (hist_book h))) as Hnot.
    { rewrite map_fmap, list_elem_of_fmap. intros (o & -> & Ho).
      destruct (Hsum (id_ o)) as [_ Hle].
      rewrite (initial_qty_NoDup _ qty) in Hle by done.
      rewrite resting_qty_unique in Hle by done.
      specialize (Hl _ Ho). unfold live in Hl. lia. }
    split; [done|].
    apply eq_None_not_Some. by rewrite Hidx.
Qed.

Lemma filled_orders_leave_the_book_witness :
  Forall request_in_range Samples.session /\
  Forall request_positive Samples.session /\
  exists h,
    run Samples.session start = Returned h /\
    (1, 10) ∈ hist_orders h /\ traded 1 (hist_trades h) = 10 /\
    Forall (fun o => 0 < remainingQty_ o <= initialQty_ o)
           (resting_orders (hist_book h)) /\
    forall id qty,
      (id, qty) ∈ hist_orders h ->
      traded id (hist_trades h) = qty ->
      (id ∉ map id_ (resting_orders (hist_book h))) /\
      Basic.orderIdToIterator_ (hist_book h) !! id = None.
Proof.
  assert (Forall request_in_range Samples.session) as Hr.
  { unfold Samples.session. repeat constructor; simpl; lia. }
  assert (Forall request_positive Samples.session) as Hp.
  { unfold Samples.session. repeat constructor; simpl; lia. }
  split; [exact Hr|]. split; [exact Hp|].
  eexists. split; [vm_compute; reflexivity|].
  split; [apply elem_of_cons; by left|]. split; [reflexivity|].
  eapply (filled_orders_leave_the_book Samples.session _ Hr Hp); [simpl; lia|].
  vm_compute. reflexivity.
Defined.

(** ** Calls on OrderBookOptimized.cpp from the empty book *)

Lemma wrap64_succ n : wrap64 (wrap64 n + 1) = wrap64 (n + 1).
Proof. unfold wrap64. apply Zplus_mod_idemp_l. Qed.

Lemma run_optimized_vacant rs ts n :
  run_optimized rs (ts, vacant (wrap64 n)) =
  match List.find (fun r => negb (is_market r)) rs with
  | None =>
      Returned
        (ts, vacant (wrap64 (n + Z.of_nat (length (List.filter consumes_id rs)))))
  | Some (SubmitLimit _ _ _) => Faulted DerefEnd
  | Some _ => Faulted BadIterator
  end.
Proof.
  revert ts n. induction rs as [|[side price qty|side qty|id] rs IH];
    intros ts n.
  - simpl. by rewrite Z.add_0_r.
  - cbn [run_optimized serve_optimized List.find is_market negb].
    rewrite optimized_add_limit_on_one_sided_book; [done|by destruct side].
  - cbn [run_optimized serve_optimized List.find is_market negb
         List.filter consumes_id].
    unfold Optimized.add_market. cbn [snd fst].
    destruct (Z.eqb_spec qty 0) as [Hz|Hz].
    + cbn [mbind outcome_bind negb]. rewrite app_nil_r. apply IH.
    + assert (forall next,
          Optimized.nextId (vacant next) = (next, vacant (wrap64 (next + 1))))
        as -> by done.
      replace (match side with
               | BUY => _
               | SELL => _
               end)
        with (Returned ([] : list Trade, vacant (wrap64 (wrap64 n + 1))))
        by (by destruct side).
      cbn [mbind outcome_bind negb]. rewrite app_nil_r, wrap64_succ, IH.
      cbn [length]. by rewrite Nat2Z.inj_succ, <- Z.add_succ_comm.
  - done.
Qed.

(** X13. A sequence of calls on OrderBookOptimized.cpp starting from
    the empty book.  As long as the calls are market orders they return
    without a trade and leave the maps, the index and the pool empty, each
    one of non-zero quantity taking an id.  The first call that is not a
    market order does not return: [add_limit] dereferences [begin()] of
    the empty opposing map in the crossing loop, and [cancel] erases
    through the value-initialised iterator that [operator[]] has just
    inserted. *)
Theorem optimized_calls_from_empty_book (rs : list request) :
  run_optimized rs ([], Optimized.empty_book) =
  match List.find (fun r => negb (is_market r)) rs with
  | None =>
      Returned
        ([], vacant (wrap64 (1 + Z.of_nat (length (List.filter consumes_id rs)))))
  | Some (SubmitLimit _ _ _) => Faulted DerefEnd
  | Some _ => Faulted BadIterator
  end.
Proof. apply (run_optimized_vacant rs [] 1). Qed.

(** ** [cancel] of OrderBookOptimized.cpp *)

Section Subscript.
Context {L : Type}.
Variable before : Price -> Price -> bool.
Hypothesis before_irrefl : forall k, before k k = false.

(** [m[k]] on a key that is present inserts nothing. *)
Lemma subscript_present (dflt : L) k (m : list (Price * L)) l :
  level_at before k m = Some l -> subscript before dflt k m = m.
Proof.
  induction m as [|[k1 l1] m IH]; simpl; [done|].
  destruct (before k k1); [done|].
  destruct (before k1 k); [|done].
  intros H. by rewrite IH.
Qed.

(** The level behind the reference [m[k]]. *)
Lemma level_at_subscript (dflt : L) k (m : list (Price * L)) :
  level_at before k (subscript before dflt k m) =
  Some (default dflt (level_at before k m)).
Proof.
  induction m as [|[k1 l1] m IH]; simpl.
  - by rewrite before_irrefl.
  - destruct (before k k1) eqn:E1; simpl.
    + by rewrite before_irrefl.
    + destruct (before k1 k) eqn:E2; simpl; by rewrite E1, E2.
Qed.
End Subscript.

Lemma erase_node_middle id (front back : list (Order Price)) o :
  id_ o = id -> id ∉ map id_ front ->
  Optimized.erase_node id (front ++ o :: back) = Some (front ++ back).
Proof.
  intros Hid. induction front as [|o1 front IH]; simpl; intros Hnot.
  - unfold getOrderId. by rewrite Hid, Z.eqb_refl.
  - apply not_elem_of_cons in Hnot as [Hne Hnot]. unfold getOrderId.
    destruct (Z.eqb_spec (id_ o1) id) as [E|_]; [by destruct Hne|].
    by rewrite IH.
Qed.

Lemma erase_node_is_Some id (level : list (Order Price)) :
  is_Some (Optimized.erase_node id level) <-> id ∈ map id_ level.
Proof.
  induction level as [|o1 level IH]; simpl.
  - split; [by intros [? ?]|by intros ?%elem_of_nil].
  - unfold getOrderId. rewrite elem_of_cons.
    destruct (Z.eqb_spec (id_ o1) id) as [E|Hne].
    + split; [by left|by eexists].
    + rewrite <- IH, fmap_is_Some. split; [by right|].
      intros [?|?]; [congruence|done].
Qed.

Lemma cancel_faults id b :
  ~ locates id b -> Optimized.cancel id b = Faulted BadIterator.
Proof.
  unfold locates, Optimized.cancel. intros Hno.
  destruct (Optimized.orderIdToIterator_ b !! id) as [[side price it]|];
    [|done].
  simpl in *.
  assert (forall n, it = NodeOf n ->
            Optimized.erase_node n
              (default []
                 (level_at (match side with BUY => greater | SELL => less end)
                    price (OptimizedObs.own side b))) = None) as Hnone.
  { intros n ->. apply eq_None_not_Some. rewrite erase_node_is_Some.
    intros Hin. apply Hno. by eexists _, n. }
  destruct side; simpl in *;
    rewrite ?(level_at_subscript greater greater_irrefl),
            ?(level_at_subscript less less_irrefl); simpl;
    destruct it as [|n|n]; simpl; try done;
    by rewrite Hnone.
Qed.

Lemma cancel_returns id b :
  locates id b ->
  exists b',
    Optimized.cancel id b = Returned b' /\
    Optimized.orderIdToIterator_ b' = delete id (Optimized.orderIdToIterator_ b).
Proof.
  intros (hd & n & Hl & Hit & Hin).
  apply erase_node_is_Some in Hin as [level' Hlv].
  unfold Optimized.cancel. rewrite Hl.
  destruct hd as [side price it]. simpl in *. subst it.
  destruct side; simpl in *;
    rewrite ?(level_at_subscript greater greater_irrefl),
            ?(level_at_subscript less less_irrefl); simpl;
    rewrite Hlv; simpl; by eexists.
Qed.

(** X14. [cancel] of OrderBookOptimized.cpp when the handle stored under
    [id] holds the iterator of a node that is in the level at the handle's
    price on the handle's side: the call returns; that node is unlinked
    from wherever it stands in the level and the orders before and after
    it keep their order; the level stays in the map even when this
    empties it; the levels of the other prices and the other side are
    unchanged; the key [id] is erased from the index (whichever order the
    node held); the counter and the pool are unchanged. *)
Theorem cancel_erases_located_order (id n : OrderId) (b : Optimized.OrderBook)
    (hd : Handle) (front back : list (Order Price)) (o : Order Price) :
  let before := match h_side hd with BUY => greater | SELL => less end in
  Optimized.orderIdToIterator_ b !! id = Some hd ->
  h_it hd = NodeOf n ->
  level_at before (h_price hd) (OptimizedObs.own (h_side hd) b) =
    Some (front ++ o :: back) ->
  id_ o = n -> n ∉ map id_ front ->
  exists b',
    Optimized.cancel id b = Returned b' /\
    level_at before (h_price hd) (OptimizedObs.own (h_side hd) b') =
      Some (front ++ back) /\
    (forall k, k <> h_price hd ->
       level_at before k (OptimizedObs.own (h_side hd) b') =
       level_at before k (OptimizedObs.own (h_side hd) b)) /\
    map fst (OptimizedObs.own (h_side hd) b') =
      map fst (OptimizedObs.own (h_side hd) b) /\
    OptimizedObs.opposing (h_side hd) b' = OptimizedObs.opposing (h_side hd) b /\
    Optimized.orderIdToIterator_ b' = delete id (Optimized.orderIdToIterator_ b) /\
    Optimized.nextOrderId_ b' = Optimized.nextOrderId_ b /\
    Optimized.pool_ b' = Optimized.pool_ b.
Proof.
  intros before Hl Hit Hlev Hid Hnot. unfold Optimized.cancel. rewrite Hl.
  destruct hd as [side price it]. simpl in *. subst it.
  destruct side; simpl in *; subst before.
  - rewrite (level_at_subscript greater greater_irrefl), Hlev. simpl.
    rewrite (erase_node_middle n) by done. simpl.
    eexists. split; [reflexivity|]. simpl.
    split; [by rewrite (level_at_push greater) by apply greater_irrefl|].
    split.
    { intros k Hk.
      apply (level_at_push_other greater greater_trans greater_total); done. }
    split; [|done].
    by rewrite (at_key_keys greater),
         (subscript_present greater [] _ _ _ Hlev).
  - rewrite (level_at_subscript less less_irrefl), Hlev. simpl.
    rewrite (erase_node_middle n) by done. simpl.
    eexists. split; [reflexivity|]. simpl.
    split; [by rewrite (level_at_push less) by apply less_irrefl|].
    split.
    { intros k Hk.
      apply (level_at_push_other less less_trans less_total); done. }
    split; [|done].
    by rewrite (at_key_keys less),
         (subscript_present less [] _ _ _ Hlev).
Qed.

Lemma cancel_erases_located_order_witness :
  Optimized.orderIdToIterator_ OptimizedSamples.bid10_ask5 !! 2 =
    Some (mkHandle SELL 100 (NodeOf 2)) /\
  level_at less 100 (Optimized.asks_ OptimizedSamples.bid10_ask5) =
    Some ([] ++ OptimizedSamples.resting_order 2 SELL 100 5 :: []) /\
  exists b',
    let b := OptimizedSamples.bid10_ask5 in
    Optimized.cancel 2 b = Returned b' /\
    level_at less 100 (Optimized.asks_ b') = Some ([] ++ []) /\
    (forall k, k <> 100 ->
       level_at less k (Optimized.asks_ b') = level_at less k (Optimized.asks_ b)) /\
    map fst (Optimized.asks_ b') = map fst (Optimized.asks_ b) /\
    Optimized.bids_ b' = Optimized.bids_ b /\
    Optimized.orderIdToIterator_ b' = delete 2 (Optimized.orderIdToIterator_ b) /\
    Optimized.nextOrderId_ b' = Optimized.nextOrderId_ b /\
    Optimized.pool_ b' = Optimized.pool_ b.
Proof.
  assert (Optimized.orderIdToIterator_ OptimizedSamples.bid10_ask5 !! 2 =
          Some (mkHandle SELL 100 (NodeOf 2))) as Hl.
  { vm_compute. reflexivity. }
  split; [exact Hl|]. split; [reflexivity|].
  apply (cancel_erases_located_order 2 2 OptimizedSamples.bid10_ask5
           (mkHandle SELL 100 (NodeOf 2)) [] []
           (OptimizedSamples.resting_order 2 SELL 100 5) Hl);
    [reflexivity|reflexivity|reflexivity|].
  simpl. apply not_elem_of_nil.
Defined.

(** X15. [cancel] of OrderBookOptimized.cpp returns exactly when the
    index leads it to a node, and then the key is gone from the index;
    in every other case (the id is not a key, so that [operator[]]
    inserts a value-initialised handle; the handle holds a singular or
    dangling iterator; the node is not in the level at the handle's
    price) the call erases through an invalid iterator. *)
Theorem cancel_needs_a_node (id : OrderId) (b : Optimized.OrderBook) :
  match Optimized.cancel id b with
  | Returned b' =>
      locates id b /\
      Optimized.orderIdToIterator_ b' = delete id (Optimized.orderIdToIterator_ b)
  | Faulted f => f = BadIterator /\ ~ locates id b
  end.
Proof.
  destruct (Optimized.cancel id b) as [b'|f] eqn:E.
  - assert (locates id b) as Hloc.
    { unfold locates. revert E. unfold Optimized.cancel.
      destruct (Optimized.orderIdToIterator_ b !! id) as [[side price it]|];
        [|done].
      simpl. intros E. exists (mkHandle side price it). simpl.
      destruct side; simpl in *;
        rewrite ?(level_at_subscript greater greater_irrefl),
                ?(level_at_subscript less less_irrefl) in E; simpl in E;
        destruct it as [|n|n]; simpl in E; try done;
        exists n; (split; [done|]); (split; [done|]);
        apply erase_node_is_Some;
        match type of E with
        | context [Optimized.erase_node ?n ?l] =>
            destruct (Optimized.erase_node n l); [by eexists|done]
        end. }
    split; [done|].
    destruct (cancel_returns id b Hloc) as (b1 & E1 & Hidx). congruence.
  - assert (~ locates id b) as Hno.
    { intros Hloc. destruct (cancel_returns id b Hloc) as (b1 & E1 & _).
      congruence. }
    split; [|done]. rewrite cancel_faults in E by done. by injection E as <-.
Qed.

(** ** The crossing loop and [add_limit] of OrderBookOptimized.cpp *)

Lemma available_after_fill {P : Type} best (front : Order P) queue others :
  available (after_fill best front queue others) =
  remainingQty_ front + sum_Z (map remainingQty_ queue) + available others.
Proof.
  unfold available. rewrite orders_of_after_fill, !map_app, !sum_Z_app.
  unfold isFilled. destruct (Z.eqb_spec (remainingQty_ front) 0) as [E|_];
    simpl; [rewrite E|]; lia.
Qed.

Lemma orders_of_subscript {P : Type} before k
    (m : list (Price * list (Order P))) :
  orders_of (subscript before [] k m) = orders_of m.
Proof.
  induction m as [|[k1 l1] m IH]; simpl; [done|].
  destruct (before k k1); [done|].
  destruct (before k1 k); [|done].
  rewrite !orders_of_cons. by rewrite IH.
Qed.

(** What the crossing loop leaves of the ledger: the orders descend from
    those it started with, and only erasures are made in the index. *)
Lemma matchOrders_ledger b trades b' :
  Optimized.matchOrders b = Returned (trades, b') ->
  Forall (fun o' => exists o, o ∈ orders_of (Optimized.asks_ b) /\ same_order o' o)
         (orders_of (Optimized.asks_ b')) /\
  Forall (fun o' => exists o, o ∈ orders_of (Optimized.bids_ b) /\ same_order o' o)
         (orders_of (Optimized.bids_ b')) /\
  Optimized.orderIdToIterator_ b' ⊆ Optimized.orderIdToIterator_ b /\
  Optimized.nextOrderId_ b' = Optimized.nextOrderId_ b /\
  Optimized.pool_ b' = Optimized.pool_ b.
Proof.
  unfold Optimized.matchOrders.
  destruct (Optimized.match_loop _ _) as [c|] eqn:Hloop; [|done].
  simpl. intros [= _ <-]. simpl.
  set (from := fun (m : list (Price * list (Order Price))) (o' : Order Price) =>
                 exists o, o ∈ orders_of m /\ same_order o' o).
  pose (Inv := fun c : Optimized.crossing =>
          Forall (from (Optimized.asks_ b)) (orders_of (Optimized.c_asks c)) /\
          Forall (from (Optimized.bids_ b)) (orders_of (Optimized.c_bids c)) /\
          Optimized.c_index c ⊆ Optimized.orderIdToIterator_ b).
  cut (Inv c); [by intros (? & ? & ?)|].
  eapply (match_loop_invariant Inv); [|..|exact Hloop].
  - clear. intros c c' (Ha & Hb & Hi) Hs.
    apply match_step_next in Hs
      as (bestAsk & ask & asks_tl & arest & bestBid & bid & bids_tl & brest
          & Ea & Eb & _ & Ea' & Eb' & Ei & _).
    rewrite Ea in Ha. rewrite Eb in Hb. unfold Inv. rewrite Ea', Eb', Ei.
    split; [|split].
    + eapply after_fill_descend; [|exact Ha].
      intros (o & ? & ?). exists o. split; [done|].
      unfold same_order in *. simpl. done.
    + eapply after_fill_descend; [|exact Hb].
      intros (o & ? & ?). exists o. split; [done|].
      unfold same_order in *. simpl. done.
    + repeat match goal with
             | |- context [if ?x then _ else _] => destruct x
             end;
        repeat (etrans; [apply delete_subseteq|]); done.
  - unfold Inv. simpl. repeat split; [| |done].
    + apply Forall_forall. intros o Ho. exists o. split; [done|apply same_order_refl].
    + apply Forall_forall. intros o Ho. exists o. split; [done|apply same_order_refl].
Qed.

(** X16. The crossing loop of OrderBookOptimized.cpp conserves quantity:
    when it returns, each side has lost exactly the total quantity of the
    trades made, every remaining quantity is still a [uint32_t] value,
    and every trade has removed at least one order, so the trades and the
    orders left are together no more than the orders it started with. *)
Theorem crossing_conserves_quantity (b : Optimized.OrderBook)
    (trades : list Trade) (b' : Optimized.OrderBook) :
  side_in_range (Optimized.asks_ b) ->
  side_in_range (Optimized.bids_ b) ->
  Optimized.matchOrders b = Returned (trades, b') ->
  available (Optimized.asks_ b') =
    available (Optimized.asks_ b) - sum_Z (map trade_qty trades) /\
  available (Optimized.bids_ b') =
    available (Optimized.bids_ b) - sum_Z (map trade_qty trades) /\
  side_in_range (Optimized.asks_ b') /\
  side_in_range (Optimized.bids_ b') /\
  (length trades + Optimized.resting (Optimized.asks_ b') +
     Optimized.resting (Optimized.bids_ b') <=
   Optimized.resting (Optimized.asks_ b) +
     Optimized.resting (Optimized.bids_ b))%nat.
Proof.
  intros Hra Hrb. unfold Optimized.matchOrders.
  destruct (Optimized.match_loop _ _) as [c|] eqn:Hloop; [|done].
  simpl. intros [= <- <-]. simpl.
  pose (Inv := fun c : Optimized.crossing =>
          side_in_range (Optimized.c_asks c) /\
          side_in_range (Optimized.c_bids c) /\
          available (Optimized.c_asks c) +
            sum_Z (map trade_qty (Optimized.c_trades c)) =
            available (Optimized.asks_ b) /\
          available (Optimized.c_bids c) +
            sum_Z (map trade_qty (Optimized.c_trades c)) =
            available (Optimized.bids_ b) /\
          (length (Optimized.c_trades c) +
             Optimized.resting (Optimized.c_asks c) +
             Optimized.resting (Optimized.c_bids c) <=
           Optimized.resting (Optimized.asks_ b) +
             Optimized.resting (Optimized.bids_ b))%nat).
  cut (Inv c).
  { intros (? & ? & ? & ? & ?). repeat split; try done; lia. }
  eapply (match_loop_invariant Inv); [|..|exact Hloop].
  - clear. intros c c' (Ha & Hb & Hsa & Hsb & Hn) Hs.
    pose proof (match_step_pops _ _ Hs) as Hpop.
    apply match_step_next in Hs
      as (bestAsk & ask & asks_tl & arest & bestBid & bid & bids_tl & brest
          & Ea & Eb & _ & Ea' & Eb' & _ & Et).
    unfold Inv. rewrite Ea', Eb', Et in *. rewrite Ea in *. rewrite Eb in *.
    clear Ea Eb Ea' Eb' Et.
    assert (0 <= remainingQty_ ask < 2 ^ 32) as Hask.
    { unfold side_in_range in Ha. rewrite orders_of_cons in Ha. simpl in Ha.
      by apply Forall_cons in Ha as [? _]. }
    assert (0 <= remainingQty_ bid < 2 ^ 32) as Hbid.
    { unfold side_in_range in Hb. rewrite orders_of_cons in Hb. simpl in Hb.
      by apply Forall_cons in Hb as [? _]. }
    set (exec := Z.min (remainingQty_ bid) (remainingQty_ ask)) in *.
    assert (0 <= exec /\ exec <= remainingQty_ bid /\ exec <= remainingQty_ ask)
      as He by (unfold exec; lia).
    rewrite available_cons in Hsa, Hsb. simpl in Hsa, Hsb.
    rewrite !available_after_fill. simpl.
    rewrite !(wrap32_id (_ - exec)) by lia.
    rewrite map_app, sum_Z_app. simpl. unfold trade_qty at 2 4. simpl.
    split; [|split; [|split; [|split]]].
    + eapply after_fill_descend; [|exact Ha]. simpl. intros _. lia.
    + eapply after_fill_descend; [|exact Hb]. simpl. intros _. lia.
    + lia.
    + lia.
    + rewrite !(wrap32_id (_ - exec)) in Hpop by lia.
      rewrite length_app. simpl. lia.
  - unfold Inv. simpl. repeat split; try done; lia.
Qed.

Lemma crossing_conserves_quantity_witness :
  side_in_range (Optimized.asks_ OptimizedSamples.bid10_ask5) /\
  side_in_range (Optimized.bids_ OptimizedSamples.bid10_ask5) /\
  exists trades b',
    Optimized.matchOrders OptimizedSamples.bid10_ask5 = Returned (trades, b') /\
    sum_Z (map trade_qty trades) = 5 /\
    available (Optimized.asks_ OptimizedSamples.bid10_ask5) = 6 /\
    available (Optimized.bids_ OptimizedSamples.bid10_ask5) = 10 /\
    available (Optimized.asks_ b') =
      available (Optimized.asks_ OptimizedSamples.bid10_ask5)
      - sum_Z (map trade_qty trades) /\
    available (Optimized.bids_ b') =
      available (Optimized.bids_ OptimizedSamples.bid10_ask5)
      - sum_Z (map trade_qty trades) /\
    side_in_range (Optimized.asks_ b') /\
    side_in_range (Optimized.bids_ b') /\
    (length trades + Optimized.resting (Optimized.asks_ b') +
       Optimized.resting (Optimized.bids_ b') <=
     Optimized.resting (Optimized.asks_ OptimizedSamples.bid10_ask5) +
       Optimized.resting (Optimized.bids_ OptimizedSamples.bid10_ask5))%nat.
Proof.
  assert (side_in_range (Optimized.asks_ OptimizedSamples.bid10_ask5)) as Ha.
  { unfold side_in_range. simpl. repeat constructor; simpl; lia. }
  assert (side_in_range (Optimized.bids_ OptimizedSamples.bid10_ask5)) as Hb.
  { unfold side_in_range. simpl. repeat constructor; simpl; lia. }
  split; [exact Ha|]. split; [exact Hb|].
  eexists _, _. split; [vm_compute; reflexivity|].
  split; [reflexivity|]. split; [reflexivity|]. split; [reflexivity|].
  eapply (crossing_conserves_quantity OptimizedSamples.bid10_ask5 _ _ Ha Hb).
  vm_compute. reflexivity.
Defined.

(** X17. [add_limit] of OrderBookOptimized.cpp never puts its order in the
    book.  When the call returns (and the id it takes was not yet a key of
    the index): every order of the book afterwards is one that was there
    before, with the same id, side, price, type and initial quantity; the
    new order is only in the pool, at the back, with all of its quantity
    remaining; the index holds for the new id, if anything, a handle whose
    iterator pointed into a level copy that no longer exists; so a
    [cancel] of the new id erases through an invalid iterator. *)
Theorem optimized_limit_order_never_rests (side : Side) (price : Price)
    (qty : Qty) (b : Optimized.OrderBook) (trades : list Trade)
    (b' : Optimized.OrderBook) :
  Optimized.orderIdToIterator_ b !! Optimized.nextOrderId_ b = None ->
  Optimized.add_limit side price qty b = Returned (trades, b') ->
  let id := Optimized.nextOrderId_ b in
  Forall (fun o' => exists o, o ∈ optimized_resting b /\ same_order o' o)
         (optimized_resting b') /\
  last (Optimized.pool_ b') = Some (mkOrder id LIMIT side price qty qty) /\
  (Optimized.orderIdToIterator_ b' !! id = None \/
   Optimized.orderIdToIterator_ b' !! id =
     Some (mkHandle side price (Dangling id))) /\
  Optimized.cancel id b' = Faulted BadIterator /\
  Optimized.nextOrderId_ b' = wrap64 (id + 1).
Proof.
  intros Hfresh Hadd id.
  assert (exists b1,
            Optimized.matchOrders b1 = Returned (trades, b') /\
            orders_of (Optimized.asks_ b1) = orders_of (Optimized.asks_ b) /\
            orders_of (Optimized.bids_ b1) = orders_of (Optimized.bids_ b) /\
            Optimized.orderIdToIterator_ b1 =
              <[id := mkHandle side price (Dangling id)]>
                (Optimized.orderIdToIterator_ b) /\
            Optimized.nextOrderId_ b1 = wrap64 (id + 1) /\
            last (Optimized.pool_ b1) =
              Some (mkOrder id LIMIT side price qty qty))
    as (b1 & Hm & Ea & Eb & Ei & En & Ep).
  { unfold Optimized.add_limit in Hadd.
    destruct side; cbn [Optimized.nextId Optimized.allocate] in Hadd;
      (eexists; split; [exact Hadd|]);
      unfold Optimized.with_ledger;
      cbn [Optimized.asks_ Optimized.bids_ Optimized.orderIdToIterator_
           Optimized.nextOrderId_ Optimized.pool_ fst snd];
      rewrite ?orders_of_subscript; unfold map_insert; rewrite Hfresh;
      repeat split; apply last_snoc. }
  apply matchOrders_ledger in Hm as (Ha & Hb & Hi & Hn & Hp).
  rewrite Ea in Ha. rewrite Eb in Hb. rewrite Ei in Hi.
  assert (Optimized.orderIdToIterator_ b' !! id = None \/
          Optimized.orderIdToIterator_ b' !! id =
            Some (mkHandle side price (Dangling id))) as Hid.
  { destruct (Optimized.orderIdToIterator_ b' !! id) as [hd|] eqn:E;
      [right|by left].
    eapply lookup_weaken in E; [|exact Hi].
    rewrite lookup_insert_eq in E. by rewrite <- E. }
  split; [|split; [|split; [done|split]]].
  - unfold optimized_resting. apply Forall_app.
    split; (eapply Forall_impl; [eassumption|]);
      intros o' (o & Ho & Hs); exists o; (split; [|done]);
      apply elem_of_app; auto.
  - by rewrite Hp.
  - apply cancel_faults. intros (hd & n & Hl & Hit & _).
    destruct Hid as [Hid|Hid]; rewrite Hid in Hl; [done|].
    injection Hl as <-. done.
  - by rewrite Hn.
Qed.

Lemma optimized_limit_order_never_rests_witness :
  Optimized.orderIdToIterator_ OptimizedSamples.overlap
    !! Optimized.nextOrderId_ OptimizedSamples.overlap = None /\
  exists trades b',
    Optimized.add_limit BUY 50 3 OptimizedSamples.overlap = Returned (trades, b') /\
    length trades = 1%nat /\
    map id_ (optimized_resting b') = [4; 3] /\
    Forall (fun o' => exists o, o ∈ optimized_resting OptimizedSamples.overlap /\
                                same_order o' o)
           (optimized_resting b') /\
    last (Optimized.pool_ b') = Some (mkOrder 5 LIMIT BUY 50 3 3) /\
    (Optimized.orderIdToIterator_ b' !! 5 = None \/
     Optimized.orderIdToIterator_ b' !! 5 =
       Some (mkHandle BUY 50 (Dangling 5))) /\
    Optimized.cancel 5 b' = Faulted BadIterator /\
    Optimized.nextOrderId_ b' = wrap64 (5 + 1).
Proof.
  assert (Optimized.orderIdToIterator_ OptimizedSamples.overlap
            !! Optimized.nextOrderId_ OptimizedSamples.overlap = None) as Hf.
  { vm_compute. reflexivity. }
  split; [exact Hf|].
  eexists _, _. split; [vm_compute; reflexivity|].
  split; [reflexivity|]. split; [reflexivity|].
  eapply (optimized_limit_order_never_rests BUY 50 3 OptimizedSamples.overlap
            _ _ Hf).
  vm_compute. reflexivity.
Defined.

(** ** Two market orders in a row *)

Section Compose.
Context {P : Type}.
Implicit Types (o : Order P) (queue : list (Order P)).

Lemma leftover_zero q queue : q <= 0 -> leftover q queue = queue.
Proof.
  intros Hq. destruct queue as [|o rest]; simpl; [done|].
  destruct (Z.gtb_spec q 0); [lia|done].
Qed.

Lemma filled_ids_zero q queue : q <= 0 -> filled_ids q queue = [].
Proof.
  intros Hq. destruct queue as [|o rest]; simpl; [done|].
  destruct (Z.gtb_spec q 0); [lia|done].
Qed.

(** One order of the walk, without the wrap-around. *)
Lemma leftover_step q o rest :
  0 < q < 2 ^ 32 -> 0 <= remainingQty_ o < 2 ^ 32 ->
  leftover q (o :: rest) =
    if remainingQty_ o <=? q then leftover (q - remainingQty_ o) rest
    else set_remaining o (remainingQty_ o - q) :: rest.
Proof.
  intros Hq Ho. simpl. destruct (Z.gtb_spec q 0); [|lia].
  destruct (Z.leb_spec (remainingQty_ o) q).
  - rewrite Z.min_r, Z.sub_diag, wrap32_0 by lia. simpl.
    by rewrite wrap32_id by lia.
  - rewrite Z.min_l, Z.sub_diag, wrap32_0 by lia.
    rewrite wrap32_id by lia.
    destruct (Z.eqb_spec (remainingQty_ o - q) 0); [lia|].
    by rewrite leftover_zero by lia.
Qed.

Lemma filled_ids_step q o rest :
  0 < q < 2 ^ 32 -> 0 <= remainingQty_ o < 2 ^ 32 ->
  filled_ids q (o :: rest) =
    if remainingQty_ o <=? q then id_ o :: filled_ids (q - remainingQty_ o) rest
    else [].
Proof.
  intros Hq Ho. simpl. destruct (Z.gtb_spec q 0); [|lia].
  destruct (Z.leb_spec (remainingQty_ o) q).
  - rewrite Z.min_r, Z.sub_diag, wrap32_0 by lia. simpl.
    by rewrite wrap32_id by lia.
  - rewrite Z.min_l, Z.sub_diag, wrap32_0 by lia.
    rewrite wrap32_id by lia.
    destruct (Z.eqb_spec (remainingQty_ o - q) 0); [lia|].
    by rewrite filled_ids_zero by lia.
Qed.

(** Walking with [q1] and then with [q2] leaves what one walk with
    [q1 + q2] leaves, and fills the same orders. *)
Lemma walk_composes q1 q2 queue :
  0 <= q1 -> 0 <= q2 -> q1 + q2 < 2 ^ 32 ->
  Forall (fun o => 0 <= remainingQty_ o < 2 ^ 32) queue ->
  leftover q2 (leftover q1 queue) = leftover (q1 + q2) queue /\
  filled_ids q1 queue ++ filled_ids q2 (leftover q1 queue) =
    filled_ids (q1 + q2) queue.
Proof.
  revert q1. induction queue as [|o rest IH]; intros q1 H1 H2 Hs Hr.
  - simpl. by destruct (q1 >? 0), (q1 + q2 >? 0).
  - apply Forall_cons in Hr as [Ho Hr].
    destruct (decide (q1 = 0)) as [->|Hq1].
    { rewrite (leftover_zero 0), (filled_ids_zero 0) by lia.
      by rewrite Z.add_0_l. }
    rewrite (leftover_step q1), (filled_ids_step q1),
      (leftover_step (q1 + q2)), (filled_ids_step (q1 + q2)) by lia.
    destruct (Z.leb_spec (remainingQty_ o) q1) as [Hle|Hgt].
    + destruct (Z.leb_spec (remainingQty_ o) (q1 + q2)); [|lia].
      replace (q1 + q2 - remainingQty_ o) with (q1 - remainingQty_ o + q2)
        by lia.
      destruct (IH (q1 - remainingQty_ o)) as [E1 E2]; [lia..|done|].
      rewrite E1. simpl. by rewrite E2.
    + destruct (decide (q2 = 0)) as [->|Hq2].
      { rewrite (leftover_zero 0), (filled_ids_zero 0) by lia.
        rewrite Z.add_0_r, app_nil_r.
        destruct (Z.leb_spec (remainingQty_ o) q1); [lia|done]. }
      rewrite (leftover_step q2), (filled_ids_step q2) by (simpl; lia).
      simpl.
      destruct (Z.leb_spec (remainingQty_ o - q1) q2);
        destruct (Z.leb_spec (remainingQty_ o) (q1 + q2)); try lia.
      * replace (q2 - (remainingQty_ o - q1))
          with (q1 + q2 - remainingQty_ o) by lia. done.
      * split; [|done]. unfold set_remaining. simpl.
        do 2 f_equal. lia.
Qed.
End Compose.

(** X18. Two market orders of one side in a row on OrderBook.cpp, against
    one market order of the summed quantity, from the same book: all three
    calls return; the opposing side is left with the same orders and the
    same remaining quantities; the index is left with the same keys and
    handles; the own side is untouched; and the two orders together trade
    the same total quantity as the one. *)
Theorem market_orders_compose (side : Side) (q1 q2 : Qty)
    (b : Basic.OrderBook) :
  side_in_range (BasicObs.opposing side b) ->
  0 < q1 -> 0 < q2 -> q1 + q2 < 2 ^ 32 ->
  exists t1 b1 t2 b2 t b12,
    Basic.add_market side q1 b = Returned (t1, b1) /\
    Basic.add_market side q2 b1 = Returned (t2, b2) /\
    Basic.add_market side (q1 + q2) b = Returned (t, b12) /\
    orders_of (BasicObs.opposing side b2) =
      orders_of (BasicObs.opposing side b12) /\
    BasicObs.own side b2 = BasicObs.own side b12 /\
    Basic.orderIdToIterator_ b2 = Basic.orderIdToIterator_ b12 /\
    sum_Z (map trade_qty (t1 ++ t2)) = sum_Z (map trade_qty t).
Proof.
  intros Hr H1 H2 Hs. pose proof (available_nonneg _ Hr) as Hnn.
  destruct (basic_add_market_walk side q1 b) as (b1 & E1 & L1 & O1 & I1 & _);
    [lia|].
  destruct (basic_add_market_walk side q2 b1) as (b2 & E2 & L2 & O2 & I2 & _);
    [lia|].
  destruct (basic_add_market_walk side (q1 + q2) b)
    as (b12 & E & L & O & I & _); [lia|].
  destruct (walk_composes q1 q2 (orders_of (BasicObs.opposing side b)))
    as [Hleft Hids]; [lia..|done|].
  destruct (walk_totals side (Basic.nextOrderId_ b) q1
              (priced_orders (BasicObs.opposing side b)))
    as (_ & A1 & T1 & R1).
  { split; [lia|]. by rewrite map_snd_priced_orders. }
  destruct (walk_totals side (Basic.nextOrderId_ b) (q1 + q2)
              (priced_orders (BasicObs.opposing side b)))
    as (_ & _ & T & _).
  { split; [lia|]. by rewrite map_snd_priced_orders. }
  rewrite map_snd_priced_orders in A1, T1, R1, T.
  destruct (walk_totals side (Basic.nextOrderId_ b1) q2
              (priced_orders (BasicObs.opposing side b1)))
    as (_ & _ & T2 & _).
  { split; [lia|]. by rewrite map_snd_priced_orders, L1. }
  rewrite map_snd_priced_orders, L1, A1 in T2.
  eexists _, b1, _, b2, _, b12.
  split; [exact E1|]. split; [exact E2|]. split; [exact E|].
  split; [by rewrite L2, L1, L, Hleft|].
  split; [by rewrite O2, O1, O|].
  split; [by rewrite I2, I1, I, L1, <- erase_all_app, Hids|].
  rewrite map_app, sum_Z_app, T1, T2, T.
  fold (available (BasicObs.opposing side b)). unfold available in Hnn. lia.
Qed.

Lemma market_orders_compose_witness :
  side_in_range (BasicObs.opposing BUY Samples.asks60) /\
  exists t1 b1 t2 b2 t b12,
    Basic.add_market BUY 5 Samples.asks60 = Returned (t1, b1) /\
    Basic.add_market BUY 30 b1 = Returned (t2, b2) /\
    Basic.add_market BUY (5 + 30) Samples.asks60 = Returned (t, b12) /\
    length t1 = 1%nat /\ length t2 = 3%nat /\ length t = 3%nat /\
    orders_of (BasicObs.opposing BUY b2) =
      orders_of (BasicObs.opposing BUY b12) /\
    BasicObs.own BUY b2 = BasicObs.own BUY b12 /\
    Basic.orderIdToIterator_ b2 = Basic.orderIdToIterator_ b12 /\
    sum_Z (map trade_qty (t1 ++ t2)) = sum_Z (map trade_qty t).
Proof.
  assert (side_in_range (BasicObs.opposing BUY Samples.asks60)) as Hr.
  { unfold side_in_range. simpl. repeat constructor; simpl; lia. }
  split; [exact Hr|].
  destruct (market_orders_compose BUY 5 30 Samples.asks60 Hr)
    as (t1 & b1 & t2 & b2 & t & b12 & E1 & E2 & E & Hrest); [lia..|].
  exists t1, b1, t2, b2, t, b12.
  split; [exact E1|]. split; [exact E2|]. split; [exact E|].
  vm_compute in E1. injection E1 as <- <-.
  vm_compute in E2. injection E2 as <- <-.
  vm_compute in E. injection E as <- <-.
  split; [reflexivity|]. split; [reflexivity|]. split; [reflexivity|].
  exact Hrest.
Defined.

(** ** How the crossing loop ends *)

(** X19. The loop of [matchOrders] in OrderBookOptimized.cpp always
    stops, and [fill] never throws in it.  It either returns, and then
    both maps are non-empty with the best bid strictly below the best ask,
    the index has only lost keys, and the counter and the pool are as
    before; or it reads [*begin()] of an empty map or [front()] of an
    empty level. *)
Theorem crossing_loop_outcome (b : Optimized.OrderBook) :
  match Optimized.matchOrders b with
  | Returned (trades, b') =>
      (exists ask bid,
         best_price (Optimized.asks_ b') = Some ask /\
         best_price (Optimized.bids_ b') = Some bid /\ bid < ask) /\
      Optimized.orderIdToIterator_ b' ⊆ Optimized.orderIdToIterator_ b /\
      Optimized.nextOrderId_ b' = Optimized.nextOrderId_ b /\
      Optimized.pool_ b' = Optimized.pool_ b
  | Faulted f => f = DerefEnd \/ f = FrontOfEmpty
  end.
Proof.
  destruct (Optimized.matchOrders b) as [[trades b']|f] eqn:E.
  - split; [by eapply matchOrders_uncrossed|].
    by apply matchOrders_ledger in E as (_ & _ & ? & ? & ?).
  - by eapply matchOrders_faults.
Qed.

(** ** Runs of OrderBook.cpp, call by call *)

Lemma run_app rs1 rs2 h :
  run (rs1 ++ rs2) h = (h1 ← run rs1 h; run rs2 h1).
Proof.
  revert h. induction rs1 as [|r rs1 IH]; intros h; simpl; [done|].
  destruct (serve r h) as [h0|]; simpl; [apply IH|done].
Qed.

Lemma run_conserved_more n rs h :
  Forall request_in_range rs -> conserved (length rs + n) h ->
  exists h', run rs h = Returned h' /\ conserved n h'.
Proof.
  revert h. induction rs as [|r rs IH]; intros h Hr Hc; simpl in *.
  - eauto.
  - apply Forall_cons in Hr as [Hr Hrs].
    destruct (serve_conserved _ r h Hr Hc) as (h1 & -> & Hc1). simpl.
    by apply IH.
Qed.

(** The state a run is in before and after one of its calls. *)
Lemma run_split rs1 r rs2 h h1 :
  Forall request_in_range (rs1 ++ r :: rs2) ->
  Z.of_nat (length (rs1 ++ r :: rs2)) < 2 ^ 64 - 1 ->
  run (rs1 ++ r :: rs2) start = Returned h ->
  run rs1 start = Returned h1 ->
  request_in_range r /\ Forall request_in_range rs2 /\
  conserved (S (length rs2)) h1 /\ well_formed h1 /\
  exists h2,
    serve r h1 = Returned h2 /\ conserved (length rs2) h2 /\
    run rs2 h2 = Returned h.
Proof.
  intros Hr Hlen Hrun Hrun1.
  apply Forall_app in Hr as [Hr1 [Hr Hr2]%Forall_cons].
  rewrite length_app in Hlen. simpl in Hlen.
  split; [done|]. split; [done|].
  destruct (run_conserved_more (S (length rs2)) rs1 start Hr1)
    as (h1' & E1 & Hc1); [apply start_conserved; lia|].
  rewrite Hrun1 in E1. injection E1 as <-.
  split; [done|]. split.
  { eapply (reachable_well_formed rs1); [done|lia|done]. }
  destruct (serve_conserved _ r h1 Hr Hc1) as (h2 & E2 & Hc2).
  exists h2. split; [done|]. split; [done|].
  rewrite run_app, Hrun1 in Hrun. simpl in Hrun. by rewrite E2 in Hrun.
Qed.

(** Every trade of the log was returned by one [add_market] call. *)
Lemma run_trades_origin rs h h' t :
  run rs h = Returned h' -> t ∈ hist_trades h' ->
  t ∈ hist_trades h \/
  exists rs1 side qty rs2 h1 trades b',
    rs = rs1 ++ SubmitMarket side qty :: rs2 /\
    run rs1 h = Returned h1 /\
    Basic.add_market side qty (hist_book h1) = Returned (trades, b') /\
    t ∈ trades.
Proof.
  revert h. induction rs as [|r rs IH]; intros h; simpl.
  - intros [= <-]. by left.
  - destruct (serve r h) as [h0|] eqn:Es; simpl; [|done].
    intros Hrun Ht.
    destruct (IH _ Hrun Ht)
      as [Hin|(rs1 & side & qty & rs2 & h1 & trades & b' & -> & Hr1 & Ha & Hin)].
    + destruct r as [side price qty|side qty|id]; unfold serve in Es.
      * destruct (Basic.add_limit side price qty (hist_book h)).
        injection Es as <-. by left.
      * destruct (Basic.add_market side qty (hist_book h))
          as [[trades b']|] eqn:E; [|done].
        simpl in Es. injection Es as <-. simpl in Hin.
        apply elem_of_app in Hin as [?|?]; [by left|].
        right. by exists [], side, qty, rs, h, trades, b'.
      * simpl in Es. injection Es as <-. by left.
    + right. exists (r :: rs1), side, qty, rs2, h1, trades, b'.
      simpl. rewrite Es. done.
Qed.

(** An id the counter has not reached yet is in no trade and on no
    resting order. *)
Lemma fresh_id_untouched n h id :
  conserved n h -> Basic.nextOrderId_ (hist_book h) <= id ->
  traded id (hist_trades h) = 0 /\
  resting_qty id (resting_orders (hist_book h)) = 0.
Proof.
  intros (_ & Hids & _ & Hsum & Hok & _) Hid.
  destruct (Hsum id) as [H0 H1].
  pose proof (resting_qty_nonneg id _ Hok) as Hnn.
  rewrite initial_qty_notin in H1; [lia|].
  rewrite map_fmap, list_elem_of_fmap. intros (iq & -> & Hin).
  rewrite Forall_forall in Hids. specialize (Hids _ Hin). lia.
Qed.

(** A call leaves the trades and the remaining quantity of an existing id
    adding up to what they were, and puts nothing to rest under it. *)
Lemma serve_keeps_total n r h h' id :
  request_in_range r -> conserved (S n) h ->
  id < Basic.nextOrderId_ (hist_book h) ->
  serve r h = Returned h' ->
  traded id (hist_trades h') + resting_qty id (resting_orders (hist_book h')) =
    traded id (hist_trades h) + resting_qty id (resting_orders (hist_book h)) /\
  (resting_qty id (resting_orders (hist_book h)) = 0 ->
   resting_qty id (resting_orders (hist_book h')) = 0) /\
  id < Basic.nextOrderId_ (hist_book h').
Proof.
  intros Hr ((Hn1 & Hn2) & _ & _ & _ & Hok & _) Hid.
  destruct r as [side price qty|side qty|id0]; simpl in Hr; unfold serve.
  - destruct (add_limit_resting side price qty (hist_book h)) as [Hperm Hnext].
    destruct (Basic.add_limit side price qty (hist_book h)) as [r b'].
    simpl in Hperm, Hnext. rewrite wrap64_id in Hnext by lia.
    intros [= <-]. simpl.
    rewrite (resting_qty_perm _ _ _ Hperm), resting_qty_cons. simpl.
    destruct (Z.eqb_spec (Basic.nextOrderId_ (hist_book h)) id); lia.
  - destruct (Z.eqb_spec qty 0) as [->|Hz].
    { rewrite add_market_zero_basic by done. simpl. intros [= <-]. simpl.
      rewrite app_nil_r. done. }
    destruct (basic_add_market_walk side qty (hist_book h) Hz)
      as (b' & -> & Hleft & Hown & _ & Hnext).
    rewrite wrap64_id in Hnext by lia. simpl. intros [= <-]. simpl.
    pose proof (resting_orders_sides side (hist_book h)) as Hp.
    pose proof (resting_orders_sides side b') as Hp'.
    rewrite Hleft, Hown in Hp'.
    rewrite Hp in Hok. apply Forall_app in Hok as [Hopp Hown'].
    assert (walk_in_range qty
              (map snd (priced_orders (BasicObs.opposing side (hist_book h)))))
      as Hrange.
    { split; [done|]. rewrite map_snd_priced_orders.
      eapply Forall_impl; [exact Hopp|]. intros o [? ?]. simpl. lia. }
    destruct (fills_conserve side (Basic.nextOrderId_ (hist_book h)) id qty
                _ Hrange) as (_ & Ht & Hc).
    rewrite map_snd_priced_orders in Hc.
    destruct (Z.eqb_spec (Basic.nextOrderId_ (hist_book h)) id); [lia|].
    pose proof (resting_qty_nonneg id _ Hopp).
    pose proof (resting_qty_nonneg id _ Hown').
    pose proof (resting_qty_nonneg id _
                  (leftover_ok qty _ Hr Hopp)).
    rewrite traded_app.
    rewrite (resting_qty_perm _ _ _ Hp'), (resting_qty_perm _ _ _ Hp),
      !resting_qty_app.
    repeat split; lia.
  - simpl. intros [= <-]. done.
Qed.

Lemma run_keeps_total rs h h' id :
  Forall request_in_range rs -> conserved (length rs) h ->
  id < Basic.nextOrderId_ (hist_book h) ->
  run rs h = Returned h' ->
  traded id (hist_trades h') + resting_qty id (resting_orders (hist_book h')) =
    traded id (hist_trades h) + resting_qty id (resting_orders (hist_book h)) /\
  (resting_qty id (resting_orders (hist_book h)) = 0 ->
   resting_qty id (resting_orders (hist_book h')) = 0).
Proof.
  revert h. induction rs as [|r rs IH]; intros h Hr Hc Hid; simpl.
  - by intros [= <-].
  - apply Forall_cons in Hr as [Hr Hrs].
    destruct (serve_conserved _ r h Hr Hc) as (h1 & E & Hc1).
    rewrite E. simpl. intros Hrun.
    destruct (serve_keeps_total _ r h h1 id Hr Hc Hid E) as (E1 & Z1 & Hid1).
    destruct (IH h1 Hrs Hc1 Hid1 Hrun) as (E2 & Z2).
    split; [lia|auto].
Qed.

(** The trades of one walk with an order of the queue: at most one, and
    nothing else of the walk carries the order's id. *)
Lemma traded_fills_notin {P : Type} side marketId id q
    (queue : list (Price * Order P)) :
  id <> marketId -> id ∉ map id_ (map snd queue) ->
  traded id (fills side marketId q queue) = 0.
Proof.
  intros Hm. revert q. induction queue as [|[p o] rest IH]; intros q Hnot;
    simpl; [done|].
  simpl in Hnot. apply not_elem_of_cons in Hnot as [Hne Hnot].
  destruct (q >? 0); [|done].
  change (traded id (?t :: ?ts)) with (leg_qty id t + traded id ts).
  rewrite leg_qty_market_trade, IH by done.
  destruct (Z.eqb_spec marketId id), (Z.eqb_spec (id_ o) id); congruence || lia.
Qed.

Lemma fills_one_trade_each {P : Type} side marketId q
    (queue : list (Price * Order P)) t :
  NoDup (map id_ (map snd queue)) ->
  marketId ∉ map id_ (map snd queue) ->
  t ∈ fills side marketId q queue ->
  exists p o,
    (p, o) ∈ queue /\
    t = market_trade side marketId (id_ o) p (trade_qty t) /\
    traded (id_ o) (fills side marketId q queue) = trade_qty t.
Proof.
  revert q. induction queue as [|[p o] rest IH]; intros q Hnd Hm; simpl;
    [by intros ?%elem_of_nil|].
  simpl in Hnd, Hm. apply NoDup_cons in Hnd as [Hnot Hnd].
  apply not_elem_of_cons in Hm as [Hne Hm].
  destruct (q >? 0); [|by intros ?%elem_of_nil].
  intros [->|Hin]%elem_of_cons.
  - exists p, o. split; [apply elem_of_cons; by left|].
    rewrite trade_qty_market_trade. split; [done|].
    change (traded ?i (?t :: ?ts)) with (leg_qty i t + traded i ts).
    rewrite leg_qty_market_trade, traded_fills_notin by done.
    rewrite Z.eqb_refl. destruct (Z.eqb_spec marketId (id_ o)); [done|lia].
  - destruct (IH _ Hnd Hm Hin) as (p' & o' & Hin' & Et & Htr).
    exists p', o'. split; [apply elem_of_cons; by right|]. split; [done|].
    change (traded ?i (?t :: ?ts)) with (leg_qty i t + traded i ts).
    rewrite leg_qty_market_trade, Htr.
    assert (id_ o' ∈ map id_ (map snd rest)) as Hin''.
    { rewrite !map_fmap. apply list_elem_of_fmap. exists o'. split; [done|].
      apply list_elem_of_fmap. by exists (p', o'). }
    destruct (Z.eqb_spec marketId (id_ o')); [congruence|].
    destruct (Z.eqb_spec (id_ o) (id_ o')); [congruence|]. lia.
Qed.


Lemma resting_id_market_trade side marketId restingId price exec :
  resting_id side (market_trade side marketId restingId price exec) =
  restingId.
Proof. by destruct side. Qed.

(** One [add_market] call on a book a run has reached: what each trade
    records is what the call takes off its resting order, and the trades
    together are what the market order spends. *)
Lemma market_call_exact n side qty h trades b' :
  conserved (S n) h -> well_formed h -> 0 <= qty < 2 ^ 32 ->
  Basic.add_market side qty (hist_book h) = Returned (trades, b') ->
  NoDup (map (resting_id side) trades) /\
  Forall (fun t =>
            market_leg_id side t = Basic.nextOrderId_ (hist_book h) /\
            exists o,
              o ∈ orders_of (BasicObs.opposing side (hist_book h)) /\
              resting_id side t = id_ o /\
              ti_qty (getBuy t) =
                remainingQty_ o - resting_qty (id_ o) (resting_orders b') /\
              ti_qty (getSell t) =
                remainingQty_ o - resting_qty (id_ o) (resting_orders b'))
         trades /\
  sum_Z (map trade_qty trades) =
    Z.min qty (available (BasicObs.opposing side (hist_book h))) /\
  (qty <> 0 ->
   traded (Basic.nextOrderId_ (hist_book h)) (hist_trades h ++ trades) =
     sum_Z (map trade_qty trades) /\
   resting_qty (Basic.nextOrderId_ (hist_book h)) (resting_orders b') = 0 /\
   Basic.nextOrderId_ (hist_book h) < Basic.nextOrderId_ b').
Proof.
  intros Hc Hwf Hq Hadd.
  pose proof Hc as ((Hn1 & Hn2) & _ & _ & _ & Hok & _).
  pose proof Hwf as (_ & _ & Hla & Hlb & Hnd & _).
  pose proof (resting_orders_sides side (hist_book h)) as Hp.
  rewrite Hp in Hok, Hnd. apply Forall_app in Hok as [Hopp Hown].
  rewrite map_app in Hnd. apply NoDup_app in Hnd as (Hndo & Hcross & _).
  assert (Forall (fun o : Order (option Price) => 0 <= remainingQty_ o < 2 ^ 32)
                 (orders_of (BasicObs.opposing side (hist_book h)))) as Hrng.
  { eapply Forall_impl; [exact Hopp|]. intros o [? ?]. simpl. lia. }
  pose proof (available_nonneg _ Hrng) as Hav.
  destruct (decide (qty = 0)) as [->|Hz].
  { rewrite add_market_zero_basic in Hadd by done. injection Hadd as <- <-.
    split; [apply NoDup_nil_2|]. split; [done|].
    split; [|done]. change (sum_Z (map trade_qty [])) with 0. lia. }
  destruct (basic_add_market_walk side qty (hist_book h) Hz)
    as (b1 & E & Hleft & Hown' & _ & Hnext).
  rewrite wrap64_id in Hnext by lia.
  rewrite E in Hadd. injection Hadd as <- <-.
  set (m := Basic.nextOrderId_ (hist_book h)) in *.
  set (queue := priced_orders (BasicObs.opposing side (hist_book h))) in *.
  assert (map snd queue = orders_of (BasicObs.opposing side (hist_book h)))
    as Hq' by apply map_snd_priced_orders.
  assert (walk_in_range qty (map snd queue)) as Hrange.
  { split; [done|]. by rewrite Hq'. }
  assert (Forall (fun o : Order (option Price) => 1 <= id_ o < m)
                 (resting_orders (hist_book h))) as Hbelow.
  { apply Forall_app. split; eapply side_ids_below; eauto. }
  rewrite Hp in Hbelow. apply Forall_app in Hbelow as [Hbo Hbw].
  assert (forall l : list (Order (option Price)),
            Forall (fun o => 1 <= id_ o < m) l -> m ∉ map id_ l) as Hfresh.
  { intros l Hl. rewrite map_fmap, list_elem_of_fmap. intros (o & E' & Ho).
    rewrite Forall_forall in Hl. specialize (Hl _ Ho). lia. }
  pose proof (resting_orders_sides side b1) as Hp'.
  rewrite Hleft, Hown' in Hp'.
  destruct (fills_prefix side m qty queue) as (Hpre & _ & Hlegs).
  destruct (walk_totals side m qty queue Hrange) as (Hun & _ & Htot & _).
  rewrite Hq' in Hpre, Hun, Htot.
  split; [|split; [|split]].
  - destruct Hpre as [k Hk]. rewrite Hk in Hndo.
    by apply NoDup_app in Hndo as [? _].
  - apply Forall_forall. intros t Ht.
    rewrite Forall_forall in Hlegs. destruct (Hlegs _ Ht) as [Hm _].
    split; [done|].
    destruct (fills_one_trade_each side m qty queue t) as (p & o & Hin & Et & Htr);
      [by rewrite Hq'|rewrite Hq'; by apply Hfresh|done|].
    assert (o ∈ orders_of (BasicObs.opposing side (hist_book h))) as Ho.
    { rewrite <- Hq', map_fmap. apply list_elem_of_fmap. by exists (p, o). }
    exists o. split; [done|].
    split; [rewrite Et; apply resting_id_market_trade|].
    destruct (fills_conserve side m (id_ o) qty queue Hrange) as (_ & _ & Hcs).
    rewrite Hq', Htr in Hcs.
    rewrite (resting_qty_unique o
               (orders_of (BasicObs.opposing side (hist_book h)))) in Hcs
      by done.
    assert (m <> id_ o) as Hne.
    { rewrite Forall_forall in Hbo. specialize (Hbo _ Ho). lia. }
    destruct (Z.eqb_spec m (id_ o)); [done|].
    assert (resting_qty (id_ o)
              (orders_of (BasicObs.own side (hist_book h))) = 0) as Hz'.
    { apply resting_qty_notin. intros Hin'.
      eapply Hcross; [|exact Hin'].
      rewrite map_fmap. by apply list_elem_of_fmap_2. }
    rewrite (resting_qty_perm _ _ _ Hp'), resting_qty_app, Hz'.
    assert (trade_qty t = ti_qty (getBuy t) /\
            trade_qty t = ti_qty (getSell t)) as [E1 E2].
    { rewrite Et at 2 4. by destruct side. }
    lia.
  - done.
  - intros _.
    destruct (fresh_id_untouched _ h m Hc) as [Ht0 _]; [lia|].
    destruct (fills_conserve side m m qty queue Hrange) as (_ & _ & Hcs).
    rewrite Hq', Z.eqb_refl in Hcs.
    assert (resting_qty m (orders_of (BasicObs.opposing side (hist_book h))) = 0)
      as Hz1 by (apply resting_qty_notin, Hfresh, Hbo).
    assert (resting_qty m (orders_of (BasicObs.own side (hist_book h))) = 0)
      as Hz2 by (apply resting_qty_notin, Hfresh, Hbw).
    assert (resting_qty m
              (leftover qty (orders_of (BasicObs.opposing side (hist_book h))))
            = 0) as Hz3.
    { apply resting_qty_notin. intros Hin.
      eapply (Hfresh _ Hbo).
      eapply sublist_subseteq; [apply leftover_ids_sublist|exact Hin]. }
    rewrite traded_app, Ht0, (resting_qty_perm _ _ _ Hp'), resting_qty_app.
    lia.
Qed.

(** One [add_limit] call: the new id has no trade yet and rests with the
    whole quantity. *)
Lemma limit_call_exact n side price qty h h2 :
  0 <= qty < 2 ^ 32 -> conserved (S n) h ->
  serve (SubmitLimit side price qty) h = Returned h2 ->
  traded (Basic.nextOrderId_ (hist_book h)) (hist_trades h2) +
    resting_qty (Basic.nextOrderId_ (hist_book h))
      (resting_orders (hist_book h2)) = qty /\
  Basic.nextOrderId_ (hist_book h) < Basic.nextOrderId_ (hist_book h2).
Proof.
  intros Hq Hc.
  destruct (fresh_id_untouched _ h (Basic.nextOrderId_ (hist_book h)) Hc)
    as [Ht0 Hr0]; [lia|].
  destruct Hc as ((Hn1 & Hn2) & _).
  unfold serve.
  destruct (add_limit_resting side price qty (hist_book h)) as [Hperm Hnext].
  destruct (Basic.add_limit side price qty (hist_book h)) as [r b'].
  simpl in Hperm, Hnext. rewrite wrap64_id in Hnext by lia.
  intros [= <-]. simpl.
  rewrite (resting_qty_perm _ _ _ Hperm), resting_qty_cons. simpl.
  rewrite Z.eqb_refl. lia.
Qed.


(** No call sequence on OrderBookOptimized.cpp that returns makes a
    trade. *)
Lemma optimized_runs_make_no_trade rs st :
  run_optimized rs ([], Optimized.empty_book) = Returned st -> st.1 = [].
Proof.
  change Optimized.empty_book with (vacant (wrap64 1)).
  rewrite (run_optimized_vacant rs [] 1).
  destruct (List.find _ rs) as [[| |]|]; try done.
  by intros [= <-].
Qed.

(** ** Quantity conservation *)

(** C3. In every run of OrderBook.cpp from the empty book (limit and
    market submissions and cancels, fewer than 2^64 - 1 of them, with
    arguments in the range of their types) every call returns, and:
    - the two legs of every trade of the log carry one quantity, and every
      trade of the log was returned by one [add_market] call of the run;
    - in each [add_market] call every trade is made with a different
      resting order of the opposing side and carries, on both legs, the
      executed amount: what the call takes off that order's remaining
      quantity (all of it when the order is erased); the trades of the
      call add up to what the market order spends, the smaller of its
      quantity and the quantity available, and no later call adds a trade
      under the market order's id;
    - for every limit order, the quantities of all trades under its id and
      what remains of it in the book add up to its initial quantity at
      the end of the run, so an order no longer in the book was traded in
      full;
    - hence for every order created the trades under its id add up to at
      most its initial quantity, no trade carries any other id, and every
      resting order has 0 <= remaining <= initial with the trades under
      its id adding up to initial - remaining.
    In OrderBookOptimized.cpp no sequence of calls that returns makes a
    trade. *)
Theorem quantity_conservation :
  (forall rs : list request,
     Forall request_in_range rs ->
     Z.of_nat (length rs) < 2 ^ 64 - 1 ->
     exists h,
       run rs start = Returned h /\
       Forall legs_agree (hist_trades h) /\
       (forall t, t ∈ hist_trades h ->
          exists rs1 side qty rs2 h1 trades b',
            rs = rs1 ++ SubmitMarket side qty :: rs2 /\
            run rs1 start = Returned h1 /\
            Basic.add_market side qty (hist_book h1) = Returned (trades, b') /\
            t ∈ trades) /\
       (forall rs1 side qty rs2 h1 trades b',
          rs = rs1 ++ SubmitMarket side qty :: rs2 ->
          run rs1 start = Returned h1 ->
          Basic.add_market side qty (hist_book h1) = Returned (trades, b') ->
          NoDup (map (resting_id side) trades) /\
          Forall (fun t =>
                    market_leg_id side t = Basic.nextOrderId_ (hist_book h1) /\
                    exists o,
                      o ∈ orders_of (BasicObs.opposing side (hist_book h1)) /\
                      resting_id side t = id_ o /\
                      ti_qty (getBuy t) =
                        remainingQty_ o -
                        resting_qty (id_ o) (resting_orders b') /\
                      ti_qty (getSell t) =
                        remainingQty_ o -
                        resting_qty (id_ o) (resting_orders b'))
                 trades /\
          sum_Z (map trade_qty trades) =
            Z.min qty (available (BasicObs.opposing side (hist_book h1))) /\
          (qty <> 0 ->
           traded (Basic.nextOrderId_ (hist_book h1)) (hist_trades h) =
             sum_Z (map trade_qty trades))) /\
       (forall rs1 side price qty rs2 h1,
          rs = rs1 ++ SubmitLimit side price qty :: rs2 ->
          run rs1 start = Returned h1 ->
          traded (Basic.nextOrderId_ (hist_book h1)) (hist_trades h) +
            resting_qty (Basic.nextOrderId_ (hist_book h1))
              (resting_orders (hist_book h)) = qty) /\
       NoDup (map fst (hist_orders h)) /\
       (forall id qty,
          (id, qty) ∈ hist_orders h -> 0 <= traded id (hist_trades h) <= qty) /\
       (forall id,
          id ∉ map fst (hist_orders h) -> traded id (hist_trades h) = 0) /\
       Forall (fun o => 0 <= remainingQty_ o <= initialQty_ o /\
                        traded (id_ o) (hist_trades h) = getFilledQty o)
              (resting_orders (hist_book h))) /\
  (forall rs st,
     run_optimized rs ([], Optimized.empty_book) = Returned st -> st.1 = []).
Proof.
  split; [|apply optimized_runs_make_no_trade].
  intros rs Hr Hlen.
  destruct (run_well_formed rs start Hr) as (h & Hrun & Hc & _ & Hex).
  { apply start_conserved. lia. }
  { apply start_well_formed. }
  { constructor. }
  destruct Hc as (_ & _ & Hnd & Hsum & Hok & Hlegs).
  exists h. split; [done|]. split; [done|].
  pose proof (fun id => resting_qty_nonneg id _ Hok) as Hnn.
  split; [|split; [|split; [|split; [|split; [|split]]]]].
  - intros t Ht.
    destruct (run_trades_origin rs start h t Hrun Ht) as [Hin|H]; [|done].
    by apply elem_of_nil in Hin.
  - intros rs1 side qty rs2 h1 trades b' -> Hrun1 Hadd.
    destruct (run_split rs1 _ rs2 h h1 Hr Hlen Hrun Hrun1)
      as (Hrq & Hr2 & Hc1 & Hwf1 & h2 & Es & Hc2 & Hrun2).
    simpl in Hrq.
    destruct (market_call_exact _ side qty h1 trades b' Hc1 Hwf1 Hrq Hadd)
      as (Hnd1 & Hf & Hs & Hm).
    split; [done|]. split; [done|]. split; [done|].
    intros Hz. destruct (Hm Hz) as (Htr & Hrest & Hlt).
    unfold serve in Es. rewrite Hadd in Es. simpl in Es. injection Es as <-.
    destruct (run_keeps_total rs2 _ h (Basic.nextOrderId_ (hist_book h1))
                Hr2 Hc2 Hlt Hrun2) as [Ek Zk].
    simpl in Ek, Zk. rewrite Zk in Ek by done. lia.
  - intros rs1 side price qty rs2 h1 -> Hrun1.
    destruct (run_split rs1 _ rs2 h h1 Hr Hlen Hrun Hrun1)
      as (Hrq & Hr2 & Hc1 & _ & h2 & Es & Hc2 & Hrun2).
    simpl in Hrq.
    destruct (limit_call_exact (length rs2) side price qty h1 h2)
      as [Eq Hlt]; [lia|done|done|].
    destruct (run_keeps_total rs2 h2 h (Basic.nextOrderId_ (hist_book h1))
                Hr2 Hc2 Hlt Hrun2) as [Ek _].
    lia.
  - done.
  - intros id qty Hin. destruct (Hsum id) as [H0 H1]. specialize (Hnn id).
    rewrite (initial_qty_NoDup id qty) in H1 by done. lia.
  - intros id Hnot. destruct (Hsum id) as [H0 H1]. specialize (Hnn id).
    rewrite initial_qty_notin in H1 by done. lia.
  - unfold filled_exactly in Hex. rewrite Forall_forall in Hok, Hex.
    apply Forall_forall. intros o Ho.
    destruct (Hok _ Ho) as [? ?]. specialize (Hex _ Ho).
    split; [lia|]. unfold getFilledQty. rewrite wrap32_id by lia. lia.
Qed.

Lemma quantity_conservation_witness :
  Forall request_in_range Samples.session /\
  Z.of_nat (length Samples.session) < 2 ^ 64 - 1 /\
  exists h,
    run Samples.session start = Returned h /\
    hist_trades h = [market_trade BUY 3 1 100 10; market_trade BUY 3 2 100 2] /\
    hist_orders h = [(1, 10); (2, 5); (3, 12)] /\
    resting_orders (hist_book h) = [mkOrder 2 LIMIT SELL (Some 100) 5 3] /\
    Forall legs_agree (hist_trades h) /\
    traded 1 (hist_trades h) + resting_qty 1 (resting_orders (hist_book h)) = 10 /\
    traded 2 (hist_trades h) + resting_qty 2 (resting_orders (hist_book h)) = 5 /\
    traded 3 (hist_trades h) = 12 /\
    Forall (fun o => 0 <= remainingQty_ o <= initialQty_ o /\
                     traded (id_ o) (hist_trades h) = getFilledQty o)
           (resting_orders (hist_book h)).
Proof.
  assert (Forall request_in_range Samples.session) as Hr.
  { unfold Samples.session. repeat constructor; simpl; lia. }
  assert (Z.of_nat (length Samples.session) < 2 ^ 64 - 1) as Hlen.
  { simpl. lia. }
  split; [exact Hr|]. split; [exact Hlen|].
  destruct (proj1 quantity_conservation Samples.session Hr Hlen)
    as (h & Hrun & Hlegs & _ & Hmarket & Hlimit & _ & _ & _ & Hrest).
  exists h. split; [exact Hrun|].
  assert (traded 1 (hist_trades h) +
          resting_qty 1 (resting_orders (hist_book h)) = 10) as H1.
  { apply (Hlimit [] SELL 100 10
             [SubmitLimit SELL 100 5; SubmitMarket BUY 12; Cancel 1;
              SubmitMarket SELL 0] start); reflexivity. }
  assert (traded 2 (hist_trades h) +
          resting_qty 2 (resting_orders (hist_book h)) = 5) as H2.
  { eapply (Hlimit [SubmitLimit SELL 100 10] SELL 100 5
              [SubmitMarket BUY 12; Cancel 1; SubmitMarket SELL 0]
              (mkHistory Samples.ask100 [] [(1, 10)])); reflexivity. }
  assert (traded 3 (hist_trades h) = 12) as H3.
  { edestruct (Hmarket [SubmitLimit SELL 100 10; SubmitLimit SELL 100 5]
                 BUY 12 [Cancel 1; SubmitMarket SELL 0])
      as (_ & _ & _ & Htr);
      [reflexivity|vm_compute; reflexivity|vm_compute; reflexivity|].
    apply Htr. lia. }
  vm_compute in Hrun. injection Hrun as <-.
  split; [reflexivity|]. split; [reflexivity|]. split; [reflexivity|].
  split; [exact Hlegs|]. split; [exact H1|]. split; [exact H2|].
  split; [exact H3|exact Hrest].
Defined.

(** ** Prices on the legs of the trades of a run *)


